(** * Device drivers for the OAK-D camera and the Niryo Ned2 arm

    A shallow embedding of
      - [src/lerobot/cameras/oakd/configuration_oakd.py]
      - [src/lerobot/cameras/oakd/camera_oakd.py]
      - [src/lerobot/robots/ned2_follower/config_ned2_follower.py]
      - [src/lerobot/robots/ned2_follower/ned2_follower.py]

    Both drivers are adapters over vendor libraries (depthai, pyniryo).  The
    vendor libraries are not part of the sources: every vendor call is
    recorded in a log kept beside the driver object, and what the vendor
    answers (a frame, the joint angles, the calibration flag) is a function
    of that log, left abstract.  The two functions the arm driver imports
    from the host framework, the clamping helper and the camera factory,
    are parameters as well.

    A method is a function from the state of its object to a result, an
    exception or a value, and a new state.  Python dictionaries whose
    iteration order is not observable are [gmap string _]; the camera table
    of the arm, whose iteration order fixes the order of the vendor calls,
    is an association list.  The camera and its background reader thread
    are a step machine over interleaved executions ([ReadLoop]).

    Definitions come first: [PyStr], [PyDict], [OakD], [ReadLoop], [Ned2]
    and the simulated rig [Sim], then the vocabulary of the further
    properties ([Calls], [ArmCalls], [Handoff], [Rig]); the properties
    follow. *)

From Stdlib Require Import ZArith Lia Bool.
From stdpp Require Import base option list strings pretty gmap fin_maps.

Local Open Scope Z_scope.

(* ===================================================================== *)
(** ** Python strings: [str.endswith] and [str.removesuffix]             *)
(* ===================================================================== *)

Module PyStr.

(** [s.endswith(suf)]: some tail of [s] is [suf]. *)
Fixpoint endswith (s suf : string) : bool :=
  String.eqb s suf ||
  match s with
  | EmptyString => false
  | String _ s' => endswith s' suf
  end.

(** [s[:-len(suf)]] for a string [s] that ends with [suf]: the characters
    of [s] before the tail that equals [suf]. *)
Fixpoint chop (s suf : string) : string :=
  if String.eqb s suf then EmptyString
  else match s with
       | EmptyString => EmptyString
       | String c s' => String c (chop s' suf)
       end.

(** [s.removesuffix(suf)]: CPython returns [s[:-len(suf)]] when [suf] is
    not empty and [s] ends with it, and [s] itself otherwise. *)
Definition removesuffix (s suf : string) : string :=
  if negb (String.eqb suf EmptyString) && endswith s suf
  then chop s suf else s.

Definition dot_pos : string := ".pos".

End PyStr.

(* ===================================================================== *)
(** ** Exceptions and the state-and-exception monad of a driver method   *)
(* ===================================================================== *)

(** The exceptions a driver method can leave with.  [OtherError] stands for
    any exception class the drivers do not name (what a vendor call or the
    clamping helper may raise). *)
Inductive Exn : Type :=
| DeviceAlreadyConnectedError
| DeviceNotConnectedError
| TimeoutError
| KeyError (key : string)
| IndexError
| AttributeError (name : string)
| OtherError (name : string).

(** A method of an object of state [S]: it returns or raises, and in both
    cases leaves the object in the state it had reached. *)
Definition M (S A : Type) : Type := S -> (Exn + A) * S.

Definition ret {S A} (a : A) : M S A := fun s => (inr a, s).
Definition raise {S A} (e : Exn) : M S A := fun s => (inl e, s).
Definition bind {S A B} (m : M S A) (k : A -> M S B) : M S B :=
  fun s => match m s with
           | (inl e, s') => (inl e, s')
           | (inr a, s') => k a s'
           end.
Definition get {S} : M S S := fun s => (inr s, s).
Definition modify {S} (f : S -> S) : M S unit := fun s => (inr tt, f s).

Notation "x <- m ;; k" := (bind m (fun x => k))
  (at level 100, m at next level, right associativity).
Notation "m ;; k" := (bind m (fun _ => k))
  (at level 100, right associativity).

(** [for _ in range(n): body]. *)
Fixpoint repeat_m {S} (n : nat) (body : M S unit) : M S unit :=
  match n with
  | O => ret tt
  | S n' => body ;; repeat_m n' body
  end.

(* ===================================================================== *)
(** ** Dictionary comprehensions over [gmap string _]                    *)
(* ===================================================================== *)

Module PyDict.
Section Comprehension.
Context {A B : Type}.

(** [{k2: v2 for k, v in d.items() if ...}]: [f k v] is [None] when the
filter rejects the item and [Some (k2, v2)] otherwise. *)
Definition comp (f : string -> A -> option (string * B))
(d : gmap string A) : gmap string B :=
map_fold (fun k v acc =>
          match f k v with
          | Some (k2, v2) => <[k2 := v2]> acc
          | None => acc
          end) ∅ d.

(** [{k: g(k, v) for k, v in d.items()}] where evaluating [g] may raise:
the first item that raises ends the comprehension.  A Python dictionary
is gone through in the order of insertion, which a [gmap] does not keep:
when several items raise, the exception here is that of one of them, not
necessarily of the one Python meets first.  Nothing below depends on which
one it is. *)
Definition comp_exn (g : string -> A -> Exn + B)
(d : gmap string A) : Exn + gmap string B :=
map_fold (fun k v acc =>
          match acc with
          | inl e => inl e
          | inr m => match g k v with
                     | inl e => inl e
                     | inr b => inr (<[k := b]> m)
                     end
          end) (inr ∅) d.

End Comprehension.
End PyDict.

(* ===================================================================== *)
(** ** The OAK-D camera driver ([cameras/oakd])                          *)
(* ===================================================================== *)

Module OakD.

(** [OakDCameraConfig]: [fps], [width] and [height] are inherited from
    [CameraConfig] as [int | None]; [socket] defaults to ["CAM_A"]. *)
Record OakDCameraConfig : Type := mkOakDCameraConfig {
  fps : option Z;
  width : option Z;
  height : option Z;
  socket : string;
}.

(** The calls the driver makes into depthai, in the words of the source. *)
Inductive DaiCall : Type :=
| Pipeline
| createColorCamera
| setResolution_THE_1080_P
| setPreviewSize (w h : option Z)
| setInterleaved (b : bool)
| setFps (f : option Z)
| setBoardSocket (name : string)
| createXLinkOut
| setStreamName (name : string)
| preview_link
| Device
| getOutputQueue (name : string) (maxSize : Z) (blocking : bool)
| queue_get
| getCvFrame
| device_close.

(** What the vendor side answers.  [sdk_frame log] is the image that
    [queue.get().getCvFrame()] hands out when [log] is the list of calls
    made so far on this camera; [cvtColor_BGR2RGB] is
    [cv2.cvtColor(_, cv2.COLOR_BGR2RGB)].  [CameraBoardSocket name] tells
    whether [getattr(dai.CameraBoardSocket, name)] is a member of the
    enumeration, that is a socket, which [setBoardSocket] accepts;
    [hasattr_CameraBoardSocket name] tells whether the lookup finds an
    attribute at all: a socket, or an attribute of the enumeration class
    such as [name], which [setBoardSocket] refuses with [TypeError]. *)
Class DepthAI (Frame : Type) : Type := {
  sdk_frame : list DaiCall -> Frame;
  cvtColor_BGR2RGB : Frame -> Frame;
  CameraBoardSocket : string -> bool;
  hasattr_CameraBoardSocket : string -> bool;
}.

(** A vendor object held by the driver (pipeline, device, queue). *)
Inductive handle : Type := Handle.

Inductive tid : Type := MainThread | ReaderThread.

(** Where the background thread stands in [_read_loop]:
    - [RLoopHead]: about to evaluate [self.stop_event.is_set()];
    - [RRead]: about to call [self.read()];
    - [RAcquire f]: holds frame [f], about to enter [with self.frame_lock];
    - [RStore f]: holds the lock, about to assign [self.latest_frame];
    - [RRelease]: about to leave the [with] block;
    - [RSet]: about to call [self.new_frame_event.set()];
    - [RDone]: the loop has ended, the thread is no longer alive. *)
Inductive reader_pc (Frame : Type) : Type :=
| RLoopHead
| RRead
| RAcquire (f : Frame)
| RStore (f : Frame)
| RRelease
| RSet
| RDone.
Arguments RLoopHead {Frame}.
Arguments RRead {Frame}.
Arguments RAcquire {Frame} f.
Arguments RStore {Frame} f.
Arguments RRelease {Frame}.
Arguments RSet {Frame}.
Arguments RDone {Frame}.

(** The fields of an [OakDCamera].  A [Thread] object is its control
    point, an [Event] its flag, the [Lock] its holder.  [sdk_log] is not a
    field of the class: it is the list of depthai calls made through this
    object, oldest first. *)
Record OakDCamera (Frame : Type) : Type := mkOakDCamera {
  config : OakDCameraConfig;
  pipeline : option handle;
  device : option handle;
  queue : option handle;
  thread : option (reader_pc Frame);
  stop_event : option bool;
  frame_lock : option tid;
  latest_frame : option Frame;
  new_frame_event : bool;
  sdk_log : list DaiCall;
}.
Arguments mkOakDCamera {Frame}.
Arguments config {Frame}.
Arguments pipeline {Frame}.
Arguments device {Frame}.
Arguments queue {Frame}.
Arguments thread {Frame}.
Arguments stop_event {Frame}.
Arguments frame_lock {Frame}.
Arguments latest_frame {Frame}.
Arguments new_frame_event {Frame}.
Arguments sdk_log {Frame}.

Section Methods.
Context {Frame : Type} {dai : DepthAI Frame}.

Local Abbreviation Camera := (OakDCamera Frame).

Definition set_pipeline (x : option handle) (c : Camera) : Camera :=
  mkOakDCamera (config c) x (device c) (queue c) (thread c) (stop_event c)
    (frame_lock c) (latest_frame c) (new_frame_event c) (sdk_log c).
Definition set_device (x : option handle) (c : Camera) : Camera :=
  mkOakDCamera (config c) (pipeline c) x (queue c) (thread c) (stop_event c)
    (frame_lock c) (latest_frame c) (new_frame_event c) (sdk_log c).
Definition set_queue (x : option handle) (c : Camera) : Camera :=
  mkOakDCamera (config c) (pipeline c) (device c) x (thread c) (stop_event c)
    (frame_lock c) (latest_frame c) (new_frame_event c) (sdk_log c).
Definition set_thread (x : option (reader_pc Frame)) (c : Camera) : Camera :=
  mkOakDCamera (config c) (pipeline c) (device c) (queue c) x (stop_event c)
    (frame_lock c) (latest_frame c) (new_frame_event c) (sdk_log c).
Definition set_stop_event (x : option bool) (c : Camera) : Camera :=
  mkOakDCamera (config c) (pipeline c) (device c) (queue c) (thread c) x
    (frame_lock c) (latest_frame c) (new_frame_event c) (sdk_log c).
Definition set_frame_lock (x : option tid) (c : Camera) : Camera :=
  mkOakDCamera (config c) (pipeline c) (device c) (queue c) (thread c)
    (stop_event c) x (latest_frame c) (new_frame_event c) (sdk_log c).
Definition set_latest_frame (x : option Frame) (c : Camera) : Camera :=
  mkOakDCamera (config c) (pipeline c) (device c) (queue c) (thread c)
    (stop_event c) (frame_lock c) x (new_frame_event c) (sdk_log c).
Definition set_new_frame_event (x : bool) (c : Camera) : Camera :=
  mkOakDCamera (config c) (pipeline c) (device c) (queue c) (thread c)
    (stop_event c) (frame_lock c) (latest_frame c) x (sdk_log c).

(** A call into depthai: appended to the log. *)
Definition sdk (call : DaiCall) : M Camera unit :=
  modify (fun c =>
    mkOakDCamera (config c) (pipeline c) (device c) (queue c) (thread c)
      (stop_event c) (frame_lock c) (latest_frame c) (new_frame_event c)
      (sdk_log c ++ [call])).

(** [OakDCamera.__init__]. *)
Definition __init__ (cfg : OakDCameraConfig) : Camera :=
  mkOakDCamera cfg None None None None None None None false [].

(** [is_connected]: [self.device is not None]. *)
Definition is_connected (c : Camera) : bool :=
  match device c with Some _ => true | None => false end.

(** [self.thread is not None and self.thread.is_alive()]. *)
Definition is_alive (t : option (reader_pc Frame)) : bool :=
  match t with
  | None => false
  | Some RDone => false
  | Some _ => true
  end.

(** [read]: the connection check, then one frame from the vendor queue,
    converted from BGR to RGB. *)
Definition read : M Camera Frame :=
  self <- get ;;
  if negb (is_connected self) then raise DeviceNotConnectedError else
  match queue self with
  | None => raise (AttributeError "get")
  | Some _ =>
      sdk queue_get ;;
      self <- get ;;
      sdk getCvFrame ;;
      ret (cvtColor_BGR2RGB (sdk_frame (sdk_log self)))
  end.

(** [_start_read_thread]: nothing when a live thread exists; otherwise a
    fresh stop event and a fresh thread at the head of [_read_loop]. *)
Definition _start_read_thread : M Camera unit :=
  self <- get ;;
  if is_alive (thread self) then ret tt else
  modify (set_stop_event (Some false)) ;;
  modify (set_thread (Some RLoopHead)).

(** The first statement of [_stop_read_thread]: [if self.stop_event:
    self.stop_event.set()].  An [Event] object is always true, so the
    test is [is not None].  The [join(timeout=2.0)] that follows waits
    and changes no field. *)
Definition _stop_read_thread : M Camera unit :=
  self <- get ;;
  match stop_event self with
  | Some _ => modify (set_stop_event (Some true))
  | None => ret tt
  end.

(** [connect], as far as the calling thread changes the object: up to the
    return of [_start_read_thread].  The [time.sleep(1.0)] that follows
    changes no field by itself; what the reader thread does meanwhile is
    the matter of [ReadLoop].  Of the vendor calls, the lookup of the
    socket and [setBoardSocket] can fail here; the other calls are taken
    to accept their arguments, which for [setPreviewSize] and [setFps]
    asks for a configuration whose sizes and rate are set. *)
Definition connect (warmup : bool) : M Camera unit :=
  self <- get ;;
  if is_connected self then raise DeviceAlreadyConnectedError else
  let cfg := config self in
  sdk Pipeline ;;
  modify (set_pipeline (Some Handle)) ;;
  sdk createColorCamera ;;
  sdk setResolution_THE_1080_P ;;
  sdk (setPreviewSize (width cfg) (height cfg)) ;;
  sdk (setInterleaved true) ;;
  sdk (setFps (fps cfg)) ;;
  (if CameraBoardSocket (socket cfg)
   then sdk (setBoardSocket (socket cfg))
   else if hasattr_CameraBoardSocket (socket cfg)
   then sdk (setBoardSocket (socket cfg)) ;; raise (OtherError "TypeError")
   else raise (AttributeError (socket cfg))) ;;
  sdk createXLinkOut ;;
  sdk (setStreamName "preview") ;;
  sdk preview_link ;;
  sdk Device ;;
  modify (set_device (Some Handle)) ;;
  sdk (getOutputQueue "preview" 4 false) ;;
  modify (set_queue (Some Handle)) ;;
  (if warmup then repeat_m 5 (_ <- read ;; ret tt) else ret tt) ;;
  _start_read_thread.

(** Lines 137 to 141 of [async_read]: the connection check and the
    restart of a dead reader thread, before the method starts to wait. *)
Definition async_read_enter : M Camera unit :=
  self <- get ;;
  if negb (is_connected self) then raise DeviceNotConnectedError else
  if negb (is_alive (thread self)) then _start_read_thread else ret tt.

(** The tail of [disconnect], after [_stop_read_thread]: the device is
    closed and the three vendor objects are dropped. *)
Definition disconnect_close : M Camera unit :=
  self <- get ;;
  match device self with
  | Some _ =>
      sdk device_close ;;
      modify (set_device None) ;;
      modify (set_queue None) ;;
      modify (set_pipeline None)
  | None => ret tt
  end.

Definition disconnect_enter : M Camera unit :=
  self <- get ;;
  if negb (is_connected self) then raise DeviceNotConnectedError else
  _stop_read_thread.

(** [disconnect], as the calling thread sees it. *)
Definition disconnect : M Camera unit :=
  disconnect_enter ;;
  disconnect_close.

(** Vocabulary for stating what a method did. *)

(** The camera after some more vendor calls, nothing else touched. *)
Definition logged (c : Camera) (calls : list DaiCall) : Camera :=
  mkOakDCamera (config c) (pipeline c) (device c) (queue c) (thread c)
    (stop_event c) (frame_lock c) (latest_frame c) (new_frame_event c)
    (sdk_log c ++ calls).

(** The frame the next [read] returns. *)
Definition next_frame (c : Camera) : Frame :=
  cvtColor_BGR2RGB (sdk_frame (sdk_log c ++ [queue_get])).

(** What a method of the calling thread leaves untouched: the lock, the
    slot and the new-frame event; the reader thread is either the same
    object or, when it was not alive, a fresh one at the head of its loop.
    A stop event, once created, is never dropped. *)
Definition same_slot (c c' : Camera) : Prop :=
  frame_lock c' = frame_lock c /\
  latest_frame c' = latest_frame c /\
  new_frame_event c' = new_frame_event c /\
  ((thread c' = thread c /\ (is_Some (stop_event c) -> is_Some (stop_event c'))) \/
   (is_alive (thread c) = false /\ thread c' = Some RLoopHead /\
    is_Some (stop_event c'))).

(** A method keeps the slot when its final state is [same_slot] to its
    initial state, whatever it returns. *)
Definition keeps_slot {A} (m : M Camera A) : Prop :=
  forall c, same_slot c (snd (m c)).

(** A camera that holds a device also holds its output queue.  [connect]
    sets both and [disconnect] clears both. *)
Definition wired (c : Camera) : Prop :=
  is_connected c = true -> is_Some (queue c).

End Methods.
End OakD.

(* ===================================================================== *)
(** ** The camera with its reader thread: interleaved executions         *)
(* ===================================================================== *)

(** The calling thread and the background thread of one [OakDCamera] run
    interleaved.  The reader moves one statement of [_read_loop] at a time,
    its call of [read] being one statement.  The calling thread moves in
    one step through the part of a method that does not wait: the whole of
    [connect], the lines of [async_read] and [disconnect] before the wait,
    and then one statement at a time from the wait on.  Taking and leaving
    [frame_lock] are statements of their own; a thread that wants a lock
    held by the other cannot move.

    Time is a clock counted in milliseconds; [Tick] lets one millisecond
    pass, and any number of steps fit between two ticks.
    [Event.wait(timeout)] returns [True] once the flag is set and returns
    [False] at the tick that takes the clock past its deadline with the
    flag still clear; [Thread.join(timeout)] returns when the thread has
    ended or the deadline has passed. *)
Module ReadLoop.
Import OakD.

(** What an execution leaves in its history. *)
Inductive event (Frame : Type) : Type :=
| Published (f : Frame)
| Signalled
| Returned (f : option Frame)
| Raised (e : Exn)
| Connected
| Disconnected.
Arguments Published {Frame} f.
Arguments Signalled {Frame}.
Arguments Returned {Frame} f.
Arguments Raised {Frame} e.
Arguments Connected {Frame}.
Arguments Disconnected {Frame}.

(** Where the calling thread stands:
    - [MIdle]: in no method;
    - [MWait d]: in [async_read], inside [new_frame_event.wait] with
      deadline [d];
    - [MTimedOut]: [wait] has returned [False];
    - [MAcquire]: [wait] has returned [True], about to take [frame_lock];
    - [MLoad]: holds the lock, about to read [latest_frame];
    - [MClear f]: about to call [new_frame_event.clear()];
    - [MRelease f]: about to leave the [with] block and return [f];
    - [MJoin d]: in [disconnect], inside [thread.join] with deadline [d];
    - [MClose]: in [disconnect], about to close the device. *)
Inductive main_pc (Frame : Type) : Type :=
| MIdle
| MWait (deadline : Z)
| MTimedOut
| MAcquire
| MLoad
| MClear (f : option Frame)
| MRelease (f : option Frame)
| MJoin (deadline : Z)
| MClose.
Arguments MIdle {Frame}.
Arguments MWait {Frame} deadline.
Arguments MTimedOut {Frame}.
Arguments MAcquire {Frame}.
Arguments MLoad {Frame}.
Arguments MClear {Frame} f.
Arguments MRelease {Frame} f.
Arguments MJoin {Frame} deadline.
Arguments MClose {Frame}.

Inductive Op : Type :=
| AsyncRead (timeout_ms : Z)
| Disconnect
| Connect (warmup : bool).

(** Who moves next.  [ReaderFault] is the reader's [self.read()] ending
    with an exception raised by the vendor queue. *)
Inductive label : Type :=
| Tick
| Reader
| ReaderFault
| Main
| Call (op : Op).

Record Sys (Frame : Type) : Type := mkSys {
  cam : OakDCamera Frame;
  main : main_pc Frame;
  clock : Z;
  history : list (event Frame);   (* newest first *)
}.
Arguments mkSys {Frame}.
Arguments cam {Frame}.
Arguments main {Frame}.
Arguments clock {Frame}.
Arguments history {Frame}.

(** [Event.wait(timeout)] takes a timeout of at most
    [threading.TIMEOUT_MAX] seconds, a constant of the platform; given a
    larger one while the event is clear it raises [OverflowError] instead
    of waiting.  [wait_accepts timeout_ms] tells whether
    [timeout_ms / 1000.0] is a timeout that [wait] takes.  The machine
    below has the waits with such a timeout only: what is proved of the
    wait of an [async_read] assumes [wait_accepts]. *)
Class Threading : Type := {
  wait_accepts : Z -> bool;
}.

Section Machine.
Context {Frame : Type} {dai : DepthAI Frame}.

(** One statement of [_read_loop]. *)
Definition reader_step (c : OakDCamera Frame)
  : option (OakDCamera Frame * list (event Frame)) :=
  match thread c with
  | Some RLoopHead =>
      match stop_event c with
      | Some false => Some (set_thread (Some RRead) c, [])
      | Some true => Some (set_thread (Some RDone) c, [])
      | None => Some (set_thread (Some RDone) c, [])
      end
  | Some RRead =>
      match read c with
      | (inr f, c') => Some (set_thread (Some (RAcquire f)) c', [])
      | (inl DeviceNotConnectedError, c') => Some (set_thread (Some RDone) c', [])
      | (inl _, c') => Some (set_thread (Some RLoopHead) c', [])
      end
  | Some (RAcquire f) =>
      match frame_lock c with
      | None =>
          Some (set_thread (Some (RStore f)) (set_frame_lock (Some ReaderThread) c), [])
      | Some _ => None
      end
  | Some (RStore f) =>
      Some (set_thread (Some RRelease) (set_latest_frame (Some f) c), [Published f])
  | Some RRelease =>
      Some (set_thread (Some RSet) (set_frame_lock None c), [])
  | Some RSet =>
      Some (set_thread (Some RLoopHead) (set_new_frame_event true c), [Signalled])
  | Some RDone => None
  | None => None
  end.

(** [self.read()] fails inside the vendor queue: [except Exception]
    logs a warning and the loop goes round. *)
Definition reader_fault (c : OakDCamera Frame)
  : option (OakDCamera Frame * list (event Frame)) :=
  match thread c with
  | Some RRead =>
      if is_connected c
      then Some (set_thread (Some RLoopHead) (snd (sdk queue_get c)), [])
      else None
  | _ => None
  end.

Definition with_cam (s : Sys Frame) (r : option (OakDCamera Frame * list (event Frame)))
  : option (Sys Frame) :=
  match r with
  | Some (c, evs) => Some (mkSys c (main s) (clock s) (evs ++ history s))
  | None => None
  end.

(** One statement of the method the calling thread is in. *)
Definition main_step (s : Sys Frame) : option (Sys Frame) :=
  let c := cam s in
  match main s with
  | MIdle => None
  | MWait d =>
      if new_frame_event c
      then Some (mkSys c MAcquire (clock s) (history s))
      else None
  | MTimedOut =>
      Some (mkSys c MIdle (clock s) (Raised TimeoutError :: history s))
  | MAcquire =>
      match frame_lock c with
      | None => Some (mkSys (set_frame_lock (Some MainThread) c) MLoad (clock s) (history s))
      | Some _ => None
      end
  | MLoad =>
      Some (mkSys c (MClear (latest_frame c)) (clock s) (history s))
  | MClear f =>
      Some (mkSys (set_new_frame_event false c) (MRelease f) (clock s) (history s))
  | MRelease f =>
      Some (mkSys (set_frame_lock None c) MIdle (clock s) (Returned f :: history s))
  | MJoin d =>
      if is_alive (thread c) then None
      else Some (mkSys c MClose (clock s) (history s))
  | MClose =>
      match disconnect_close c with
      | (inr _, c') => Some (mkSys c' MIdle (clock s) (Disconnected :: history s))
      | (inl e, c') => Some (mkSys c' MIdle (clock s) (Raised e :: history s))
      end
  end.

(** The calling thread enters a method.  [async_read] waits for
    [timeout_ms / 1000.0] seconds, a negative timeout being no wait at all
    (the timeout is one that [wait] takes, see [Threading]);
    [disconnect] joins the reader for two seconds when it is alive;
    [connect] is entered and left in one step, at the return of
    [_start_read_thread]: the second it then sleeps is time passing like
    any other, during which the reader moves. *)
Definition call_step (op : Op) (s : Sys Frame) : option (Sys Frame) :=
  let c := cam s in
  match main s with
  | MIdle =>
      match op with
      | AsyncRead timeout_ms =>
          match async_read_enter c with
          | (inr _, c') =>
              Some (mkSys c' (MWait (clock s + Z.max 0 timeout_ms)) (clock s) (history s))
          | (inl e, c') => Some (mkSys c' MIdle (clock s) (Raised e :: history s))
          end
      | Disconnect =>
          match disconnect_enter c with
          | (inr _, c') =>
              Some (mkSys c'
                      (if is_alive (thread c') then MJoin (clock s + 2000) else MClose)
                      (clock s) (history s))
          | (inl e, c') => Some (mkSys c' MIdle (clock s) (Raised e :: history s))
          end
      | Connect warmup =>
          match connect warmup c with
          | (inr _, c') => Some (mkSys c' MIdle (clock s) (Connected :: history s))
          | (inl e, c') => Some (mkSys c' MIdle (clock s) (Raised e :: history s))
          end
      end
  | _ => None
  end.

(** One millisecond passes: a wait whose deadline is now behind and whose
    event is clear is over, and so is a join whose deadline is behind. *)
Definition tick (s : Sys Frame) : Sys Frame :=
  let now := clock s + 1 in
  let pc :=
    match main s with
    | MWait d =>
        if negb (new_frame_event (cam s)) && (d <? now) then MTimedOut else MWait d
    | MJoin d => if d <? now then MClose else MJoin d
    | pc => pc
    end in
  mkSys (cam s) pc now (history s).

Definition step (l : label) (s : Sys Frame) : option (Sys Frame) :=
  match l with
  | Tick => Some (tick s)
  | Reader => with_cam s (reader_step (cam s))
  | ReaderFault => with_cam s (reader_fault (cam s))
  | Main => main_step s
  | Call op => call_step op s
  end.

Fixpoint run (ls : list label) (s : Sys Frame) : option (Sys Frame) :=
  match ls with
  | [] => Some s
  | l :: ls' =>
      match step l s with
      | Some s' => run ls' s'
      | None => None
      end
  end.

(** A camera object just built, nothing called on it yet. *)
Definition boot (cfg : OakDCameraConfig) : Sys Frame :=
  mkSys (__init__ cfg) MIdle 0 [].

(** The frame most recently stored in the slot, read off a history. *)
Fixpoint latest_published (h : list (event Frame)) : option Frame :=
  match h with
  | [] => None
  | Published f :: _ => Some f
  | _ :: h' => latest_published h'
  end.

(** The outcomes of the calls of the calling thread, newest first. *)
Definition is_outcome (e : event Frame) : bool :=
  match e with
  | Returned _ | Raised _ | Connected | Disconnected => true
  | Published _ | Signalled => false
  end.

Definition outcomes (h : list (event Frame)) : list (event Frame) :=
  List.filter is_outcome h.

Definition publications (h : list (event Frame)) : list Frame :=
  omap (fun e => match e with Published f => Some f | _ => None end) h.

Definition deliveries (h : list (event Frame)) : list (option Frame) :=
  omap (fun e => match e with Returned f => Some f | _ => None end) h.

(** The new-frame event of the system. *)
Definition flag (s : Sys Frame) : bool := new_frame_event (cam s).

(** The states an execution goes through, the first one included. *)
Fixpoint states (ls : list label) (s : Sys Frame) : list (Sys Frame) :=
  s :: match ls with
       | [] => []
       | l :: ls' =>
           match step l s with
           | Some s' => states ls' s'
           | None => []
           end
       end.

(** Was the new-frame event seen set at some moment not later than [d]? *)
Definition signalled_by (d : Z) (ls : list label) (s : Sys Frame) : bool :=
  existsb (fun s1 => (clock s1 <=? d) && flag s1) (states ls s).

(** [r] is the first outcome logged after [s] on the way to [s']. *)
Definition first_outcome (s s' : Sys Frame) (r : event Frame) : Prop :=
  exists rs, outcomes (history s') = rs ++ r :: outcomes (history s).

(** Every delivery of a history is the publication that precedes it. *)
Fixpoint deliveries_are_latest (h : list (event Frame)) : Prop :=
  match h with
  | [] => True
  | Returned f :: h0 => f = latest_published h0 /\ deliveries_are_latest h0
  | _ :: h0 => deliveries_are_latest h0
  end.

(** Which thread is inside a [with self.frame_lock] block. *)
Definition reader_holds (t : option (reader_pc Frame)) : bool :=
  match t with
  | Some (RStore _) => true
  | Some RRelease => true
  | _ => false
  end.

Definition main_holds (pc : main_pc Frame) : bool :=
  match pc with
  | MLoad => true
  | MClear _ => true
  | MRelease _ => true
  | _ => false
  end.

(** What holds in every state an execution reaches from a fresh camera:
    the lock is held by the thread that is inside a [with] block, and by
    one thread at most; the slot holds the last publication; the frame the
    calling thread has loaded is the one in the slot; a thread object comes
    with a stop event; every delivery was the latest publication. *)
Record Inv (s : Sys Frame) : Prop := mkInv {
  inv_lock :
    frame_lock (cam s) =
      if reader_holds (thread (cam s)) then Some ReaderThread
      else if main_holds (main s) then Some MainThread
      else None;
  inv_excl : reader_holds (thread (cam s)) && main_holds (main s) = false;
  inv_slot : latest_frame (cam s) = latest_published (history s);
  inv_held :
    match main s with
    | MClear f => f = latest_frame (cam s)
    | MRelease f => f = latest_frame (cam s)
    | _ => True
    end;
  inv_stop : is_Some (thread (cam s)) -> is_Some (stop_event (cam s));
  inv_hist : deliveries_are_latest (history s);
}.

(** How an [async_read] that has left [wait] will end: [Some false] once
    the wait has timed out, [Some true] once it has succeeded. *)
Definition verdict (pc : main_pc Frame) : option bool :=
  match pc with
  | MTimedOut => Some false
  | MAcquire => Some true
  | MLoad => Some true
  | MClear _ => Some true
  | MRelease _ => Some true
  | _ => None
  end.

Definition agrees (b : bool) (e : event Frame) : Prop :=
  if b then exists f, e = Returned f else e = Raised TimeoutError.

End Machine.
End ReadLoop.

(* ===================================================================== *)
(** ** The Ned2 follower driver ([robots/ned2_follower])                 *)
(* ===================================================================== *)

Module Ned2.
Import PyStr.

(** The calls the driver makes into pyniryo. *)
Inductive NiryoCall (V : Type) : Type :=
| NiryoRobot (ip : string)
| need_calibration
| calibrate_auto
| set_learning_mode (b : bool)
| joints
| move_joints (j1 j2 j3 j4 j5 j6 : V)
| close_connection.
Arguments NiryoRobot {V} ip.
Arguments need_calibration {V}.
Arguments calibrate_auto {V}.
Arguments set_learning_mode {V} b.
Arguments joints {V}.
Arguments move_joints {V} j1 j2 j3 j4 j5 j6.
Arguments close_connection {V}.

(** What the robot answers: the value of [robot.joints] and of
    [robot.need_calibration()] once the calls of the log have been made. *)
Class PyNiryo (V : Type) : Type := {
  sdk_joints : list (NiryoCall V) -> list V;
  sdk_need_calibration : list (NiryoCall V) -> bool;
}.

(** Joint values as Python handles them: the literal [0] and [float(_)].
    No arithmetic is done on them in the driver. *)
Class JointValue (V : Type) : Type := {
  zero : V;
  float : V -> V;
}.

(** The two functions of the host framework the driver imports:
    [lerobot.robots.utils.ensure_safe_goal_position], the clamping
    helper, which may raise, and
    [lerobot.cameras.utils.make_cameras_from_configs]. *)
Class Host (V MaxRel Frame : Type) : Type := {
  ensure_safe_goal_position :
    gmap string (V * V) -> MaxRel -> Exn + gmap string V;
  make_cameras_from_configs :
    list (string * OakD.OakDCameraConfig) -> list (string * OakD.OakDCamera Frame);
}.

(** [Ned2FollowerConfig].  [joint_limits] is never read by the driver and
    is left out. *)
Module Config.
Record Ned2FollowerConfig (MaxRel : Type) : Type := mkConfig {
  ip_address : string;
  port : Z;
  max_relative_target : option MaxRel;
  cameras : list (string * OakD.OakDCameraConfig);
  has_gripper : bool;
  disable_torque_on_disconnect : bool;
  calibrate_on_connect : bool;
}.
Arguments mkConfig {MaxRel}.
Arguments ip_address {MaxRel}.
Arguments port {MaxRel}.
Arguments max_relative_target {MaxRel}.
Arguments cameras {MaxRel}.
Arguments has_gripper {MaxRel}.
Arguments disable_torque_on_disconnect {MaxRel}.
Arguments calibrate_on_connect {MaxRel}.

(** The field defaults of the dataclass. *)
Definition default {MaxRel : Type} : Ned2FollowerConfig MaxRel :=
  mkConfig "192.168.8.143" 40001 None
    [("top", OakD.mkOakDCameraConfig (Some 30) (Some 640) (Some 480) "CAM_A")]
    true false false.
End Config.
Export Config(Ned2FollowerConfig).

(** The fields of a [Ned2Follower]; [sdk_log] is the list of pyniryo calls
    made through this object, oldest first. *)
Record Ned2Follower (V MaxRel Frame : Type) : Type := mkNed2Follower {
  config : Ned2FollowerConfig MaxRel;
  robot : option OakD.handle;
  cameras : list (string * OakD.OakDCamera Frame);
  sdk_log : list (NiryoCall V);
}.
Arguments mkNed2Follower {V MaxRel Frame}.
Arguments config {V MaxRel Frame}.
Arguments robot {V MaxRel Frame}.
Arguments cameras {V MaxRel Frame}.
Arguments sdk_log {V MaxRel Frame}.

(** A feature of the plugin interface: the type [float] or an image
    shape [(height, width, channels)]. *)
Inductive feature : Type :=
| float_type
| shape (h w : option Z) (channels : Z).

(** A value of an observation: a joint angle or a camera frame. *)
Inductive obs_value (V Frame : Type) : Type :=
| Angle (v : V)
| Image (f : Frame).
Arguments Angle {V Frame} v.
Arguments Image {V Frame} f.

Section Methods.
Context {V MaxRel Frame : Type}.
Context {niryo : PyNiryo V} {jv : JointValue V} {dai : OakD.DepthAI Frame}
        {host : Host V MaxRel Frame}.

Local Abbreviation Robot := (Ned2Follower V MaxRel Frame).
Local Abbreviation Camera := (OakD.OakDCamera Frame).

Definition set_robot (x : option OakD.handle) (r : Robot) : Robot :=
  mkNed2Follower (config r) x (cameras r) (sdk_log r).
Definition set_cameras (x : list (string * Camera)) (r : Robot) : Robot :=
  mkNed2Follower (config r) (robot r) x (sdk_log r).

(** A call into pyniryo: appended to the log. *)
Definition sdk (call : NiryoCall V) : M Robot unit :=
  modify (fun r => mkNed2Follower (config r) (robot r) (cameras r) (sdk_log r ++ [call])).

(** An expression that may raise, evaluated inside a method. *)
Definition lift {A} (x : Exn + A) : M Robot A :=
  match x with
  | inl e => raise e
  | inr a => ret a
  end.

(** [l[i]]. *)
Definition index {A} (l : list A) (i : nat) : Exn + A :=
  match l !! i with
  | Some x => inr x
  | None => inl IndexError
  end.

(** [Ned2Follower.__init__]. *)
Definition __init__ (cfg : Ned2FollowerConfig MaxRel) : Robot :=
  mkNed2Follower cfg None (make_cameras_from_configs (Config.cameras cfg)) [].

(** [for cam in self.cameras.values(): cam.m()], collecting what each
    call returns; an exception ends the loop, the cameras already
    visited keep their new state. *)
Fixpoint each_camera {A} (m : M Camera A) (cams : list (string * Camera))
  : (Exn + list (string * A)) * list (string * Camera) :=
  match cams with
  | [] => (inr [], [])
  | (key, cam) :: rest =>
      match m cam with
      | (inl e, cam') => (inl e, (key, cam') :: rest)
      | (inr a, cam') =>
          match each_camera m rest with
          | (inl e, rest') => (inl e, (key, cam') :: rest')
          | (inr l, rest') => (inr ((key, a) :: l), (key, cam') :: rest')
          end
      end
  end.

Definition on_cameras {A} (m : M Camera A) : M Robot (list (string * A)) :=
  fun r => match each_camera m (cameras r) with
           | (res, cams') => (res, set_cameras cams' r)
           end.

(** [_motors_ft]: the dictionary literal, entry after entry. *)
Definition _motors_ft : gmap string feature :=
  <["joint_6.pos" := float_type]>
    (<["joint_5.pos" := float_type]>
      (<["joint_4.pos" := float_type]>
        (<["joint_3.pos" := float_type]>
          (<["joint_2.pos" := float_type]>
            (<["joint_1.pos" := float_type]> ∅))))).

(** [d[key]] on the configuration table of the cameras. *)
Fixpoint getitem {A} (d : list (string * A)) (key : string) : Exn + A :=
  match d with
  | [] => inl (KeyError key)
  | (k, a) :: d' => if String.eqb k key then inr a else getitem d' key
  end.

(** [_cameras_ft]: one entry per key of [self.cameras], the shape read
    from [self.config.cameras[cam]]. *)
Fixpoint cameras_ft_from (cfgs : list (string * OakD.OakDCameraConfig))
    (cams : list (string * Camera)) (acc : gmap string feature)
  : Exn + gmap string feature :=
  match cams with
  | [] => inr acc
  | (cam, _) :: rest =>
      match getitem cfgs cam with
      | inl e => inl e
      | inr cfg =>
          cameras_ft_from cfgs rest
            (<[cam := shape (OakD.height cfg) (OakD.width cfg) 3]> acc)
      end
  end.

Definition _cameras_ft (r : Robot) : Exn + gmap string feature :=
  cameras_ft_from (Config.cameras (config r)) (cameras r) ∅.

(** [{**a, **b}]: the entries of [a], then those of [b] written over
    them. *)
Definition unpack2 {A} (a b : gmap string A) : gmap string A :=
  map_fold (fun k v acc => <[k := v]> acc) a b.

Definition observation_features (r : Robot) : Exn + gmap string feature :=
  match _cameras_ft r with
  | inl e => inl e
  | inr cams => inr (unpack2 _motors_ft cams)
  end.

Definition action_features (r : Robot) : gmap string feature := _motors_ft.

(** [is_connected]. *)
Definition is_connected (r : Robot) : bool :=
  match robot r with
  | Some _ => forallb (fun kc => OakD.is_connected (snd kc)) (cameras r)
  | None => false
  end.

(** [configure]. *)
Definition configure : M Robot unit :=
  self <- get ;;
  match robot self with
  | None => raise DeviceNotConnectedError
  | Some _ =>
      sdk (set_learning_mode true) ;;
      sdk (set_learning_mode false)
  end.

(** [self.robot.need_calibration()]. *)
Definition query_need_calibration : M Robot bool :=
  sdk need_calibration ;;
  self <- get ;;
  ret (sdk_need_calibration (sdk_log self)).

(** [list(self.robot.joints)]. *)
Definition query_joints : M Robot (list V) :=
  sdk joints ;;
  self <- get ;;
  ret (sdk_joints (sdk_log self)).

(** [connect]. *)
Definition connect (calibrate : bool) : M Robot unit :=
  self <- get ;;
  if is_connected self then raise DeviceAlreadyConnectedError else
  sdk (NiryoRobot (Config.ip_address (config self))) ;;
  modify (set_robot (Some OakD.Handle)) ;;
  (if calibrate && Config.calibrate_on_connect (config self)
   then need <- query_need_calibration ;;
        if need then sdk calibrate_auto else ret tt
   else ret tt) ;;
  _ <- on_cameras (OakD.connect true) ;;
  configure.

(** [is_calibrated]. *)
Definition is_calibrated : M Robot bool :=
  self <- get ;;
  match robot self with
  | None => ret true
  | Some _ => need <- query_need_calibration ;; ret (negb need)
  end.

(** [calibrate]. *)
Definition calibrate : M Robot unit :=
  self <- get ;;
  match robot self with
  | None => raise DeviceNotConnectedError
  | Some _ => sdk calibrate_auto
  end.

(** [obs_dict[cam_key] = frame], camera after camera. *)
Definition store_images (frames : list (string * Frame))
    (obs : gmap string (obs_value V Frame)) : gmap string (obs_value V Frame) :=
  foldl (fun d kf => <[fst kf := Image (snd kf)]> d) obs frames.

(** [get_observation]. *)
Definition get_observation : M Robot (gmap string (obs_value V Frame)) :=
  self <- get ;;
  if negb (is_connected self) then raise DeviceNotConnectedError else
  joints_list <- query_joints ;;
  a1 <- lift (index joints_list 0) ;;
  a2 <- lift (index joints_list 1) ;;
  a3 <- lift (index joints_list 2) ;;
  a4 <- lift (index joints_list 3) ;;
  a5 <- lift (index joints_list 4) ;;
  a6 <- lift (index joints_list 5) ;;
  let obs_dict : gmap string (obs_value V Frame) :=
    <["joint_6.pos" := Angle (float a6)]>
      (<["joint_5.pos" := Angle (float a5)]>
        (<["joint_4.pos" := Angle (float a4)]>
          (<["joint_3.pos" := Angle (float a3)]>
            (<["joint_2.pos" := Angle (float a2)]>
              (<["joint_1.pos" := Angle (float a1)]> ∅))))) in
  frames <- on_cameras OakD.read ;;
  ret (store_images frames obs_dict).

(** [{key.removesuffix(".pos"): val for key, val in action.items()
      if key.endswith(".pos")}]. *)
Definition goal_of_action (action : gmap string V) : gmap string V :=
  PyDict.comp (fun key val =>
                 if endswith key dot_pos
                 then Some (removesuffix key dot_pos, val)
                 else None) action.

(** [{f"joint_{i+1}": present_joints[i] for i in range(6)}]. *)
Fixpoint present_pos_from (range : list nat) (present_joints : list V)
    (acc : gmap string V) : Exn + gmap string V :=
  match range with
  | [] => inr acc
  | i :: rest =>
      match index present_joints i with
      | inl e => inl e
      | inr v =>
          present_pos_from rest present_joints
            (<["joint_" +:+ pretty (i + 1)%nat := v]> acc)
      end
  end.

Definition present_pos_of (present_joints : list V) : Exn + gmap string V :=
  present_pos_from (seq 0 6) present_joints ∅.

(** [{key: (g_pos, present_pos[key]) for key, g_pos in goal_pos.items()}].
    The [KeyError] names a key of [goal_pos] that [present_pos] lacks;
    with several such keys Python names the first in the order of the
    action, see [PyDict.comp_exn]. *)
Definition goal_present_pos_of (goal_pos present_pos : gmap string V)
  : Exn + gmap string (V * V) :=
  PyDict.comp_exn (fun key g_pos =>
                     match present_pos !! key with
                     | Some p => inr (g_pos, p)
                     | None => inl (KeyError key)
                     end) goal_pos.

(** [goal_pos.get(name, 0)]. *)
Definition get_or_zero (goal_pos : gmap string V) (name : string) : V :=
  default zero (goal_pos !! name).

(** [{f"{motor}.pos": val for motor, val in goal_pos.items()}]. *)
Definition with_pos_suffix (goal_pos : gmap string V) : gmap string V :=
  PyDict.comp (fun motor val => Some (motor +:+ dot_pos, val)) goal_pos.

(** The safety branch of [send_action], lines 177 to 190. *)
Definition apply_safety_limits (goal_pos : gmap string V) : M Robot (gmap string V) :=
  self <- get ;;
  match Config.max_relative_target (config self) with
  | Some max_relative_target =>
      present_joints <- query_joints ;;
      present_pos <- lift (present_pos_of present_joints) ;;
      goal_present_pos <- lift (goal_present_pos_of goal_pos present_pos) ;;
      lift (ensure_safe_goal_position goal_present_pos max_relative_target)
  | None => ret goal_pos
  end.

(** [send_action]. *)
Definition send_action (action : gmap string V) : M Robot (gmap string V) :=
  self <- get ;;
  if negb (is_connected self) then raise DeviceNotConnectedError else
  goal_pos <- apply_safety_limits (goal_of_action action) ;;
  let j1 := get_or_zero goal_pos "joint_1" in
  let j2 := get_or_zero goal_pos "joint_2" in
  let j3 := get_or_zero goal_pos "joint_3" in
  let j4 := get_or_zero goal_pos "joint_4" in
  let j5 := get_or_zero goal_pos "joint_5" in
  let j6 := get_or_zero goal_pos "joint_6" in
  sdk (move_joints j1 j2 j3 j4 j5 j6) ;;
  ret (with_pos_suffix goal_pos).

(** [disconnect]. *)
Definition disconnect : M Robot unit :=
  self <- get ;;
  if negb (is_connected self) then raise DeviceNotConnectedError else
  (match robot self with
   | Some _ => sdk close_connection ;; modify (set_robot None)
   | None => ret tt
   end) ;;
  _ <- on_cameras OakD.disconnect ;;
  ret tt.

(** Vocabulary for stating what a method did. *)

(** The arm after some more vendor calls, nothing else touched. *)
Definition logged (r : Robot) (calls : list (NiryoCall V)) : Robot :=
  mkNed2Follower (config r) (robot r) (cameras r) (sdk_log r ++ calls).

(** The motor names of the arm, [joint_1] to [joint_6]. *)
Definition joint_names : list string :=
  ["joint_1"; "joint_2"; "joint_3"; "joint_4"; "joint_5"; "joint_6"].

(** The [move_joints] call that line 201 makes from a goal dictionary. *)
Definition move_joints_of (goal_pos : gmap string V) : NiryoCall V :=
  move_joints (get_or_zero goal_pos "joint_1") (get_or_zero goal_pos "joint_2")
    (get_or_zero goal_pos "joint_3") (get_or_zero goal_pos "joint_4")
    (get_or_zero goal_pos "joint_5") (get_or_zero goal_pos "joint_6").

(** The position a vendor call commands for the motor [name], if any. *)
Definition commanded (call : NiryoCall V) (name : string) : option V :=
  match call with
  | move_joints j1 j2 j3 j4 j5 j6 =>
      if String.eqb name "joint_1" then Some j1
      else if String.eqb name "joint_2" then Some j2
      else if String.eqb name "joint_3" then Some j3
      else if String.eqb name "joint_4" then Some j4
      else if String.eqb name "joint_5" then Some j5
      else if String.eqb name "joint_6" then Some j6
      else None
  | _ => None
  end.

(** The shape recorded for a camera: [(height, width, 3)]. *)
Definition shape_of (cfg : OakD.OakDCameraConfig) : feature :=
  shape (OakD.height cfg) (OakD.width cfg) 3.

(** The six motor keys of the plugin interface. *)
Definition motor_keys : list string :=
  ["joint_1.pos"; "joint_2.pos"; "joint_3.pos";
   "joint_4.pos"; "joint_5.pos"; "joint_6.pos"].

(** The joint part of an observation, for the angles read in joint order. *)
Definition angles (joints_list : list V) : gmap string (obs_value V Frame) :=
  list_to_map (zip motor_keys ((fun a => Angle (float a)) <$> joints_list)).

(** The present positions by motor name, for six reported joints. *)
Definition present_six (a1 a2 a3 a4 a5 a6 : V) : gmap string V :=
  <["joint_6" := a6]> (<["joint_5" := a5]> (<["joint_4" := a4]>
    (<["joint_3" := a3]> (<["joint_2" := a2]> (<["joint_1" := a1]> ∅))))).

(** Every [".pos"] key of the action names one of the six motors. *)
Definition only_joint_keys (action : gmap string V) : Prop :=
  forall m v, action !! (m +:+ dot_pos) = Some v -> In m joint_names.

(** Is the call a motion command? *)
Definition is_move (call : NiryoCall V) : bool :=
  match call with
  | move_joints _ _ _ _ _ _ => true
  | _ => false
  end.

End Methods.
End Ned2.

(* ===================================================================== *)
(** ** A simulated rig                                                   *)
(* ===================================================================== *)

(** Concrete vendor libraries, used to run the drivers on examples:
    frames are numbered by the length of the camera's call log, joint
    values are integers, the arm stands at [10, 20, 30, 40, 50, 60], the
    clamping helper caps every relative move at the configured bound, and
    the camera factory builds one [OakDCamera] per configured camera. *)
Module Sim.

Definition depthai : OakD.DepthAI nat :=
  {| OakD.sdk_frame := fun log => length log;
     OakD.cvtColor_BGR2RGB := fun f => f;
     OakD.CameraBoardSocket := fun name =>
       bool_decide (name ∈ ["CAM_A"; "CAM_B"; "CAM_C"; "CAM_D"]);
     OakD.hasattr_CameraBoardSocket := fun name =>
       bool_decide (name ∈ ["CAM_A"; "CAM_B"; "CAM_C"; "CAM_D"; "name"; "value"]) |}.

Definition pyniryo : Ned2.PyNiryo Z :=
  {| Ned2.sdk_joints := fun _ => [10; 20; 30; 40; 50; 60];
     Ned2.sdk_need_calibration := fun _ => false |}.

Definition joint_value : Ned2.JointValue Z :=
  {| Ned2.zero := 0; Ned2.float := fun v => v |}.

Definition clamp (bound : Z) (gp : Z * Z) : Z :=
  let diff := fst gp - snd gp in
  snd gp + Z.max (Z.min diff bound) (- bound).

Definition host : Ned2.Host Z Z nat :=
  {| Ned2.ensure_safe_goal_position := fun goal_present_pos bound =>
       inr (clamp bound <$> goal_present_pos);
     Ned2.make_cameras_from_configs := fun cfgs =>
       List.map (fun kc => (fst kc, OakD.__init__ (snd kc))) cfgs |}.

Definition oakd_config : OakD.OakDCameraConfig :=
  OakD.mkOakDCameraConfig (Some 30) (Some 640) (Some 480) "CAM_A".

(** A camera never connected, and the same camera after [connect()]. *)
Definition camera_off : OakD.OakDCamera nat :=
  Eval vm_compute in OakD.__init__ oakd_config.
Definition camera_on : OakD.OakDCamera nat :=
  Eval vm_compute in snd (OakD.connect (dai := depthai) true camera_off).

(** The arm with the default configuration, before and after [connect()],
    and after [connect()] with a bound of 5 on relative moves. *)
Definition robot_off : Ned2.Ned2Follower Z Z nat :=
  Eval vm_compute in Ned2.__init__ (host := host) Ned2.Config.default.
Definition robot_on : Ned2.Ned2Follower Z Z nat :=
  Eval vm_compute in
    snd (Ned2.connect (niryo := pyniryo) (dai := depthai) true robot_off).

Definition limited_config : Ned2.Config.Ned2FollowerConfig Z :=
  Ned2.Config.mkConfig "192.168.8.143" 40001 (Some 5)
    [("top", oakd_config)] true false false.
Definition robot_limited : Ned2.Ned2Follower Z Z nat :=
  Eval vm_compute in
    snd (Ned2.connect (niryo := pyniryo) (dai := depthai) true
           (Ned2.__init__ (host := host) limited_config)).

(** Interleavings of the simulated camera. *)

(** The camera is connected without warm-up and the reader goes round
    its loop [turns] times, undisturbed. *)
Definition published (turns : nat) : list ReadLoop.label :=
  ReadLoop.Call (ReadLoop.Connect false) :: replicate (6 * turns) ReadLoop.Reader.

(** A whole [async_read], the calling thread running alone. *)
Definition read_alone (timeout_ms : Z) : list ReadLoop.label :=
  ReadLoop.Call (ReadLoop.AsyncRead timeout_ms) :: replicate 5 ReadLoop.Main.

(** Two publications, then a read, then a read that waits two
    milliseconds while the reader is not scheduled. *)
Definition overwritten_run : list ReadLoop.label :=
  published 2 ++ read_alone 200 ++
  [ReadLoop.Call (ReadLoop.AsyncRead 2);
   ReadLoop.Tick; ReadLoop.Tick; ReadLoop.Tick; ReadLoop.Main].

(** A read that has left [wait] is overtaken by the reader's next store;
    the reader sets the event only after the read has cleared it. *)
Definition overtaken_run : list ReadLoop.label :=
  published 1 ++
  [ReadLoop.Call (ReadLoop.AsyncRead 200); ReadLoop.Main] ++
  replicate 5 ReadLoop.Reader ++
  replicate 4 ReadLoop.Main ++ [ReadLoop.Reader] ++
  read_alone 200.

(** The simulated camera after [connect(warmup=False)] and one turn of the
    reader. *)
Definition system_on : ReadLoop.Sys nat :=
  Eval vm_compute in
    default (ReadLoop.boot oakd_config)
      (ReadLoop.run (dai := depthai) (published 1) (ReadLoop.boot oakd_config)).

End Sim.

(* ===================================================================== *)
(** ** Vocabulary for the further properties                             *)
(* ===================================================================== *)

Module Calls.
Import OakD.

(** The depthai calls by which [connect] builds its pipeline, up to the
    choice of the board socket. *)
Definition configure_camera (cfg : OakDCameraConfig) : list DaiCall :=
  [Pipeline; createColorCamera; setResolution_THE_1080_P;
   setPreviewSize (width cfg) (height cfg); setInterleaved true;
   setFps (fps cfg)].

(** The calls from the board socket to the output queue. *)
Definition open_device (cfg : OakDCameraConfig) : list DaiCall :=
  [setBoardSocket (socket cfg); createXLinkOut; setStreamName "preview";
   preview_link; Device; getOutputQueue "preview" 4 false].

(** The calls of [n] synchronous reads. *)
Fixpoint reads (n : nat) : list DaiCall :=
  match n with
  | O => []
  | S n' => queue_get :: getCvFrame :: reads n'
  end.

(** The two vendor calls of a [read]. *)
Definition is_read (call : DaiCall) : bool :=
  match call with
  | queue_get => true
  | getCvFrame => true
  | _ => false
  end.

(** A configuration whose rate and sizes are set, as [setFps] and
    [setPreviewSize] ask: given [None] they raise [TypeError]. *)
Definition sized (cfg : OakDCameraConfig) : Prop :=
  is_Some (fps cfg) /\ is_Some (width cfg) /\ is_Some (height cfg).

(** A camera after a [connect] that met no error: the three vendor
    objects are held, the reader thread is the old one when that was alive
    and a fresh one otherwise. *)
Definition connected {Frame : Type} (warmup : bool) (c : OakDCamera Frame)
  : OakDCamera Frame :=
  mkOakDCamera (config c) (Some Handle) (Some Handle) (Some Handle)
    (if is_alive (thread c) then thread c else Some RLoopHead)
    (if is_alive (thread c) then stop_event c else Some false)
    (frame_lock c) (latest_frame c) (new_frame_event c)
    (sdk_log c ++ configure_camera (config c) ++ open_device (config c)
       ++ (if warmup then reads 5 else [])).

(** A camera after a [disconnect] that met no error. *)
Definition disconnected {Frame : Type} (c : OakDCamera Frame) : OakDCamera Frame :=
  mkOakDCamera (config c) None None None (thread c)
    (match stop_event c with Some _ => Some true | None => None end)
    (frame_lock c) (latest_frame c) (new_frame_event c)
    (sdk_log c ++ [device_close]).

End Calls.

Module ArmCalls.
Import Ned2.
Section Arm.
Context {V MaxRel Frame : Type} {niryo : PyNiryo V}.

(** The pyniryo calls of the calibration branch of [connect]. *)
Definition calibration (calibrate : bool) (r : Ned2Follower V MaxRel Frame)
  : list (NiryoCall V) :=
  if calibrate && Config.calibrate_on_connect (config r)
  then need_calibration ::
       (if sdk_need_calibration
             ((sdk_log r ++ [NiryoRobot (Config.ip_address (config r))])
                ++ [need_calibration])
        then [calibrate_auto] else [])
  else [].

(** The pyniryo calls of a [connect] until the cameras are connected. *)
Definition open_robot (calibrate : bool) (r : Ned2Follower V MaxRel Frame)
  : list (NiryoCall V) :=
  NiryoRobot (Config.ip_address (config r)) :: calibration calibrate r.

(** The two calls of [configure]. *)
Definition configure_calls : list (NiryoCall V) :=
  [set_learning_mode true; set_learning_mode false].

End Arm.

(** A camera of the arm that [connect] will accept: not connected, and
    configured with a rate, with sizes and with the name of a socket. *)
Definition connectable {Frame : Type} {dai : OakD.DepthAI Frame}
    (kc : string * OakD.OakDCamera Frame) : Prop :=
  OakD.is_connected (snd kc) = false /\
  Calls.sized (OakD.config (snd kc)) /\
  OakD.CameraBoardSocket (OakD.socket (OakD.config (snd kc))) = true.

(** Two outcomes of a method that are the same but for the key a
    [KeyError] names. *)
Definition same_outcome {A : Type} (x y : Exn + A) : Prop :=
  match x, y with
  | inl (KeyError _), inl (KeyError _) => True
  | _, _ => x = y
  end.

End ArmCalls.

Module Handoff.
Import OakD ReadLoop.

(** The steps that are not of the calling thread: time passing and the
    reader thread moving. *)
Definition background (l : label) : bool :=
  match l with
  | Tick => true
  | Reader => true
  | ReaderFault => true
  | _ => false
  end.

(** The steps of a system left to itself: no method is entered and the
    vendor queue does not fail. *)
Definition unforced (l : label) : bool :=
  match l with
  | Tick => true
  | Reader => true
  | Main => true
  | _ => false
  end.

(** Every step but the entry into [async_read]. *)
Definition no_async_read (l : label) : bool :=
  match l with
  | Call (AsyncRead _) => false
  | _ => true
  end.

Section Accounting.
Context {Frame : Type}.

(** The calling thread is inside [async_read]. *)
Definition reading (pc : main_pc Frame) : bool :=
  match pc with
  | MIdle => false
  | MJoin _ => false
  | MClose => false
  | _ => true
  end.

Definition is_signal (e : event Frame) : bool :=
  match e with
  | Signalled => true
  | _ => false
  end.

(** How often the reader has called [new_frame_event.set()]. *)
Definition signals (h : list (event Frame)) : nat :=
  length (List.filter is_signal h).

(** The calling thread has left [wait] with [True] and has not yet
    cleared the event. *)
Definition past_wait (pc : main_pc Frame) : bool :=
  match pc with
  | MAcquire => true
  | MLoad => true
  | MClear _ => true
  | _ => false
  end.

(** The reader has stored a frame and has not yet set the event. *)
Definition about_to_signal (t : option (reader_pc Frame)) : bool :=
  match t with
  | Some RRelease => true
  | Some RSet => true
  | _ => false
  end.

(** The signals not yet turned into a delivery: one when the event is
    set, one when the calling thread has cleared it and is about to
    return. *)
Definition owed (s : Sys Frame) : nat :=
  ((if flag s then 1 else 0) +
   (match main s with MRelease _ => 1 | _ => 0 end))%nat.

(** How the event, the slot and the history hang together in every state
    an execution reaches from a fresh camera. *)
Record Paired (s : Sys Frame) : Prop := mkPaired {
  paired_flag : past_wait (main s) = true -> flag s = true;
  paired_slot :
    flag s = true \/ about_to_signal (thread (cam s)) = true ->
    is_Some (latest_frame (cam s));
  paired_held :
    match main s with
    | MClear f => is_Some f
    | MRelease f => is_Some f
    | _ => True
    end;
  paired_hist : Forall is_Some (deliveries (history s));
  paired_count :
    (length (deliveries (history s)) + owed s <= signals (history s))%nat;
  paired_pub :
    length (publications (history s)) =
      (signals (history s) +
       (if about_to_signal (thread (cam s)) then 1 else 0))%nat;
}.

(** How far the slot and the event are kept from [s] to [s']: a set event
    stays set, a filled slot stays filled, nothing is delivered, and the
    slot is the same unless a frame was published. *)
Definition kept (s s' : Sys Frame) : Prop :=
  (flag s = true -> flag s' = true) /\
  (is_Some (latest_frame (cam s)) -> is_Some (latest_frame (cam s'))) /\
  deliveries (history s') = deliveries (history s) /\
  (length (publications (history s)) <= length (publications (history s')))%nat /\
  (length (publications (history s')) = length (publications (history s)) ->
   latest_frame (cam s') = latest_frame (cam s)).

(** What the steps of the background leave as it is: the calling thread,
    the vendor objects and the stop event; the vendor sees reads only, no
    call of the calling thread ends, and a reader that has no reason to
    end stays alive. *)
Definition undisturbed (s s' : Sys Frame) : Prop :=
  main s' = main s /\
  config (cam s') = config (cam s) /\ pipeline (cam s') = pipeline (cam s) /\
  device (cam s') = device (cam s) /\ queue (cam s') = queue (cam s) /\
  stop_event (cam s') = stop_event (cam s) /\
  (exists reads, sdk_log (cam s') = sdk_log (cam s) ++ reads /\
                 forallb Calls.is_read reads = true) /\
  outcomes (history s') = outcomes (history s) /\
  (stop_event (cam s) = Some false -> is_connected (cam s) = true ->
   is_alive (thread (cam s)) = true -> is_alive (thread (cam s')) = true).

End Accounting.
End Handoff.

(** More of the simulated rig: a camera configured with a socket name the
    vendor does not know, an arm that reports three joints only, an arm
    that is not connected while its camera is, and two executions of the
    camera with its reader. *)
Module Rig.

Definition camera_unknown : OakD.OakDCamera nat :=
  Eval vm_compute in
    OakD.__init__ (OakD.mkOakDCameraConfig (Some 30) (Some 640) (Some 480) "CAM_Z").

(** [threading.TIMEOUT_MAX] of a 64-bit Linux, in milliseconds. *)
Definition threading : ReadLoop.Threading :=
  {| ReadLoop.wait_accepts := fun timeout_ms => timeout_ms <=? 9223372036000 |}.

(** A camera whose configured socket name is an attribute of the
    enumeration class and no socket. *)
Definition camera_attribute : OakD.OakDCamera nat :=
  Eval vm_compute in
    OakD.__init__ (OakD.mkOakDCameraConfig (Some 30) (Some 640) (Some 480) "name").

Definition pyniryo_short : Ned2.PyNiryo Z :=
  {| Ned2.sdk_joints := fun _ => [10; 20; 30];
     Ned2.sdk_need_calibration := fun _ => false |}.

Definition robot_stuck : Ned2.Ned2Follower Z Z nat :=
  Eval vm_compute in Ned2.set_cameras [("top", Sim.camera_on)] Sim.robot_off.

(** One publication, then a whole [async_read]. *)
Definition read_run : list ReadLoop.label :=
  Sim.published 1 ++ Sim.read_alone 200.

Definition system_read : ReadLoop.Sys nat :=
  Eval vm_compute in
    default (ReadLoop.boot Sim.oakd_config)
      (ReadLoop.run (dai := Sim.depthai) read_run (ReadLoop.boot Sim.oakd_config)).

(** One publication, then [disconnect] is entered. *)
Definition stopping_run : list ReadLoop.label :=
  Sim.published 1 ++ [ReadLoop.Call ReadLoop.Disconnect].

Definition system_stopping : ReadLoop.Sys nat :=
  Eval vm_compute in
    default (ReadLoop.boot Sim.oakd_config)
      (ReadLoop.run (dai := Sim.depthai) stopping_run (ReadLoop.boot Sim.oakd_config)).

(** A disconnection that the reader obeys at once, then a reconnection. *)
Definition reconnect_run : list ReadLoop.label :=
  [ReadLoop.Call ReadLoop.Disconnect; ReadLoop.Reader; ReadLoop.Main;
   ReadLoop.Main; ReadLoop.Call (ReadLoop.Connect false)].

Definition system_reconnected : ReadLoop.Sys nat :=
  Eval vm_compute in
    default Sim.system_on (ReadLoop.run (dai := Sim.depthai) reconnect_run Sim.system_on).

End Rig.

(* ===================================================================== *)
(** * Properties                                                         *)
(* ===================================================================== *)

(** ** Facts about the string functions                                  *)

Module PyStrFacts.
Import PyStr.

Lemma app_nil (s : string) : EmptyString +:+ s = s.
Proof. reflexivity. Qed.

Lemma app_cons c (a s : string) : String c a +:+ s = String c (a +:+ s).
Proof. reflexivity. Qed.

Lemma endswith_refl (s : string) : endswith s s = true.
Proof. destruct s; cbn [endswith]; now rewrite String.eqb_refl. Qed.

Lemma chop_refl (s : string) : chop s s = EmptyString.
Proof. destruct s; cbn [chop]; now rewrite String.eqb_refl. Qed.

Lemma length_app (a b : string) :
  String.length (a +:+ b) = (String.length a + String.length b)%nat.
Proof.
  induction a as [|c a IH]; rewrite ?app_nil, ?app_cons; cbn [String.length];
    [reflexivity | now rewrite IH].
Qed.

Lemma cons_app_neq c (a suf : string) : String c (a +:+ suf) <> suf.
Proof.
  intros H. apply (f_equal String.length) in H.
  cbn [String.length] in H. rewrite length_app in H. lia.
Qed.

Lemma endswith_app (a suf : string) : endswith (a +:+ suf) suf = true.
Proof.
  induction a as [|c a IH]; rewrite ?app_nil, ?app_cons.
  - apply endswith_refl.
  - cbn [endswith]. rewrite IH. apply orb_true_r.
Qed.

Lemma chop_app (a suf : string) : chop (a +:+ suf) suf = a.
Proof.
  induction a as [|c a IH]; rewrite ?app_nil, ?app_cons.
  - apply chop_refl.
  - cbn [chop]. destruct (String.eqb_spec (String c (a +:+ suf)) suf) as [E|_].
    + exfalso. exact (cons_app_neq _ _ _ E).
    + now rewrite IH.
Qed.

Lemma chop_endswith (s suf : string) :
  endswith s suf = true -> chop s suf +:+ suf = s.
Proof.
  induction s as [|c s IH]; cbn [chop endswith].
  - destruct (String.eqb_spec EmptyString suf) as [<-|]; [reflexivity|discriminate].
  - destruct (String.eqb_spec (String c s) suf) as [<-|]; [reflexivity|].
    cbn [orb]. intros H. rewrite app_cons. now rewrite IH.
Qed.

Lemma removesuffix_app (a suf : string) :
  suf <> EmptyString -> removesuffix (a +:+ suf) suf = a.
Proof.
  intros Hs. unfold removesuffix. rewrite endswith_app.
  destruct (String.eqb_spec suf EmptyString); [contradiction|]. simpl.
  apply chop_app.
Qed.

Lemma removesuffix_endswith (s suf : string) :
  endswith s suf = true -> removesuffix s suf +:+ suf = s.
Proof.
  intros H. unfold removesuffix. rewrite H.
  destruct (String.eqb_spec suf EmptyString) as [->|]; simpl.
  - clear H. induction s as [|c s IH]; rewrite ?app_cons; [reflexivity|now rewrite IH].
  - now apply chop_endswith.
Qed.

Lemma app_inj_l (a b suf : string) : a +:+ suf = b +:+ suf -> a = b.
Proof.
  intros H. rewrite <- (chop_app a suf), <- (chop_app b suf). now rewrite H.
Qed.

Lemma dot_pos_nonempty : dot_pos <> EmptyString.
Proof. discriminate. Qed.

End PyStrFacts.

(** ** Facts about dictionary comprehensions                             *)

Module PyDictFacts.
Import PyDict.
Section Comprehension.
Context {A B : Type}.

(** Items of the comprehension, when no two source items produce the same
target key. *)
Lemma lookup_comp (f : string -> A -> option (string * B)) (d : gmap string A) :
(forall k1 v1 k2 v2 k' b1 b2,
  f k1 v1 = Some (k', b1) -> f k2 v2 = Some (k', b2) -> k1 = k2) ->
forall k' b,
comp f d !! k' = Some b <->
exists k v, d !! k = Some v /\ f k v = Some (k', b).
Proof.
intros Hinj. unfold comp.
apply (map_fold_weak_ind
       (fun r m => forall k' b, r !! k' = Some b <->
                     exists k v, m !! k = Some v /\ f k v = Some (k', b))).
- intros k' b. rewrite lookup_empty. split; [discriminate|].
intros (k & v & Hk & _). now rewrite lookup_empty in Hk.
- intros i x m r Hi IH k' b.
destruct (f i x) as [[ki bi]|] eqn:Hf.
+ split.
  * intros Hl. destruct (decide (ki = k')) as [->|Hne].
    -- rewrite lookup_insert_eq in Hl. injection Hl as <-.
       exists i, x. now rewrite lookup_insert_eq.
    -- rewrite lookup_insert_ne in Hl by done.
       apply IH in Hl as (k & v & Hk & Hfk). exists k, v. split; [|done].
       rewrite lookup_insert_ne; [done|]. intros ->. congruence.
  * intros (k & v & Hk & Hfk). destruct (decide (i = k)) as [<-|Hne].
    -- rewrite lookup_insert_eq in Hk. injection Hk as <-.
       rewrite Hf in Hfk. injection Hfk as -> ->. apply lookup_insert_eq.
    -- rewrite lookup_insert_ne in Hk by done.
       destruct (decide (ki = k')) as [->|Hne'].
       ++ exfalso. apply Hne. eapply Hinj; eassumption.
       ++ rewrite lookup_insert_ne by done. apply IH. now exists k, v.
+ split.
  * intros Hl. apply IH in Hl as (k & v & Hk & Hfk). exists k, v. split; [|done].
    rewrite lookup_insert_ne; [done|]. intros ->. congruence.
  * intros (k & v & Hk & Hfk). destruct (decide (i = k)) as [<-|Hne].
    -- rewrite lookup_insert_eq in Hk. injection Hk as <-. congruence.
    -- rewrite lookup_insert_ne in Hk by done. apply IH. now exists k, v.
Qed.

(** A comprehension whose body may raise returns a dictionary exactly when
no item raises, and then it has one entry per source item. *)
Lemma comp_exn_inr (g : string -> A -> Exn + B) (d : gmap string A) m :
comp_exn g d = inr m ->
forall k, m !! k = match d !! k with
                 | Some v => match g k v with inr b => Some b | inl _ => None end
                 | None => None
                 end
        /\ (forall v, d !! k = Some v -> exists b, g k v = inr b).
Proof.
unfold comp_exn. revert m.
apply (map_fold_weak_ind
       (fun r d => forall m, r = inr m ->
          forall k, m !! k = match d !! k with
                 | Some v => match g k v with inr b => Some b | inl _ => None end
                 | None => None
                 end
        /\ (forall v, d !! k = Some v -> exists b, g k v = inr b))).
- intros m [= <-] k. rewrite !lookup_empty. split; [done|discriminate].
- intros i x d' r Hi IH m Hm k.
destruct r as [e|m']; [discriminate|].
destruct (g i x) as [e|b] eqn:Hg; [discriminate|]. injection Hm as <-.
destruct (decide (i = k)) as [<-|Hne].
+ rewrite !lookup_insert_eq, Hg. split; [done|].
  intros v [= <-]. now exists b.
+ rewrite !lookup_insert_ne by done. now apply IH.
Qed.

Lemma comp_exn_inl (g : string -> A -> Exn + B) (d : gmap string A) e :
comp_exn g d = inl e ->
exists k v, d !! k = Some v /\ g k v = inl e.
Proof.
unfold comp_exn.
apply (map_fold_weak_ind
       (fun r d => r = inl e -> exists k v, d !! k = Some v /\ g k v = inl e)).
- discriminate.
- intros i x d' r Hi IH Hr.
destruct r as [e'|m'].
+ injection Hr as ->. destruct IH as (k & v & Hk & Hg); [done|].
  exists k, v. split; [|done]. rewrite lookup_insert_ne; [done|].
  intros ->. congruence.
+ destruct (g i x) as [e'|b] eqn:Hg; [|discriminate].
  injection Hr as ->. exists i, x. now rewrite lookup_insert_eq.
Qed.

Lemma comp_exn_total (g : string -> A -> Exn + B) (d : gmap string A) :
(forall k v, d !! k = Some v -> exists b, g k v = inr b) ->
exists m, comp_exn g d = inr m.
Proof.
intros H. destruct (comp_exn g d) as [e|m] eqn:E; [|now exists m].
apply comp_exn_inl in E as (k & v & Hk & Hg).
destruct (H k v Hk) as [b Hb]. congruence.
Qed.

End Comprehension.
End PyDictFacts.

(* ===================================================================== *)
(** ** Running a method                                                  *)
(* ===================================================================== *)

(** The simulated rig supplies the vendor libraries of the examples. *)
#[local] Existing Instances Sim.depthai Sim.pyniryo Sim.joint_value Sim.host.

(** Unfolds the monad so that a method applied to a state computes. *)
Ltac run_method :=
  unfold bind, get, modify, ret, raise; cbn beta iota.

(* ===================================================================== *)
(** ** Lifecycle checks                                                  *)
(* ===================================================================== *)

Section Lifecycle.
Context {V MaxRel Frame : Type}.
Context {niryo : Ned2.PyNiryo V} {jv : Ned2.JointValue V}
        {dai : OakD.DepthAI Frame} {host : Ned2.Host V MaxRel Frame}.

Lemma oakd_connect_already (warmup : bool) (c : OakD.OakDCamera Frame) :
  OakD.is_connected c = true ->
  OakD.connect warmup c = (inl DeviceAlreadyConnectedError, c).
Proof. intros H. unfold OakD.connect. run_method. now rewrite H. Qed.

Lemma oakd_read_not_connected (c : OakD.OakDCamera Frame) :
  OakD.is_connected c = false ->
  OakD.read c = (inl DeviceNotConnectedError, c).
Proof. intros H. unfold OakD.read. run_method. now rewrite H. Qed.

Lemma oakd_async_read_not_connected (c : OakD.OakDCamera Frame) :
  OakD.is_connected c = false ->
  OakD.async_read_enter c = (inl DeviceNotConnectedError, c).
Proof. intros H. unfold OakD.async_read_enter. run_method. now rewrite H. Qed.

Lemma oakd_disconnect_not_connected (c : OakD.OakDCamera Frame) :
  OakD.is_connected c = false ->
  OakD.disconnect c = (inl DeviceNotConnectedError, c).
Proof.
  intros H. unfold OakD.disconnect, OakD.disconnect_enter. run_method. now rewrite H.
Qed.

Lemma ned2_connect_already (calibrate : bool) (r : Ned2.Ned2Follower V MaxRel Frame) :
  Ned2.is_connected r = true ->
  Ned2.connect calibrate r = (inl DeviceAlreadyConnectedError, r).
Proof. intros H. unfold Ned2.connect. run_method. now rewrite H. Qed.

Lemma ned2_get_observation_not_connected (r : Ned2.Ned2Follower V MaxRel Frame) :
  Ned2.is_connected r = false ->
  Ned2.get_observation r = (inl DeviceNotConnectedError, r).
Proof. intros H. unfold Ned2.get_observation. run_method. now rewrite H. Qed.

Lemma ned2_send_action_not_connected action (r : Ned2.Ned2Follower V MaxRel Frame) :
  Ned2.is_connected r = false ->
  Ned2.send_action action r = (inl DeviceNotConnectedError, r).
Proof. intros H. unfold Ned2.send_action. run_method. now rewrite H. Qed.

Lemma ned2_disconnect_not_connected (r : Ned2.Ned2Follower V MaxRel Frame) :
  Ned2.is_connected r = false ->
  Ned2.disconnect r = (inl DeviceNotConnectedError, r).
Proof. intros H. unfold Ned2.disconnect. run_method. now rewrite H. Qed.

(** C1. A camera or an arm that is already connected refuses [connect]
    with [DeviceAlreadyConnectedError]; a camera that is not connected
    refuses [read], [async_read] and [disconnect], and an arm that is not
    connected refuses [get_observation], [send_action] and [disconnect],
    with [DeviceNotConnectedError].  In each case the object is left as it
    was, its log of vendor calls included: no vendor call is made.  For
    [async_read] the refusal is shown both on the entry of the method and
    on the interleaved machine, where the call ends at once. *)
Theorem lifecycle_checks
    (c_on c_off : OakD.OakDCamera Frame)
    (r_on r_off : Ned2.Ned2Follower V MaxRel Frame)
    (warmup calibrate : bool) (timeout_ms : Z) (action : gmap string V)
    (s : ReadLoop.Sys Frame) :
  OakD.is_connected c_on = true ->
  OakD.is_connected c_off = false ->
  Ned2.is_connected r_on = true ->
  Ned2.is_connected r_off = false ->
  ReadLoop.cam s = c_off ->
  ReadLoop.main s = ReadLoop.MIdle ->
  OakD.connect warmup c_on = (inl DeviceAlreadyConnectedError, c_on) /\
  OakD.read c_off = (inl DeviceNotConnectedError, c_off) /\
  OakD.async_read_enter c_off = (inl DeviceNotConnectedError, c_off) /\
  ReadLoop.step (ReadLoop.Call (ReadLoop.AsyncRead timeout_ms)) s =
    Some (ReadLoop.mkSys c_off ReadLoop.MIdle (ReadLoop.clock s)
            (ReadLoop.Raised DeviceNotConnectedError :: ReadLoop.history s)) /\
  OakD.disconnect c_off = (inl DeviceNotConnectedError, c_off) /\
  Ned2.connect calibrate r_on = (inl DeviceAlreadyConnectedError, r_on) /\
  Ned2.get_observation r_off = (inl DeviceNotConnectedError, r_off) /\
  Ned2.send_action action r_off = (inl DeviceNotConnectedError, r_off) /\
  Ned2.disconnect r_off = (inl DeviceNotConnectedError, r_off).
Proof.
  intros Hc_on Hc_off Hr_on Hr_off Hcam Hmain.
  repeat split.
  - now apply oakd_connect_already.
  - now apply oakd_read_not_connected.
  - now apply oakd_async_read_not_connected.
  - cbn [ReadLoop.step]. unfold ReadLoop.call_step. rewrite Hmain, Hcam.
    now rewrite oakd_async_read_not_connected.
  - now apply oakd_disconnect_not_connected.
  - now apply ned2_connect_already.
  - now apply ned2_get_observation_not_connected.
  - now apply ned2_send_action_not_connected.
  - now apply ned2_disconnect_not_connected.
Qed.

End Lifecycle.

(** The lifecycle checks on the simulated rig: a connected and a fresh
    camera, a connected and a fresh arm. *)
Lemma lifecycle_checks_witness :
  let c_on := Sim.camera_on in
  let c_off := Sim.camera_off in
  let r_on := Sim.robot_on in
  let r_off := Sim.robot_off in
  let s := ReadLoop.boot (Frame := nat) Sim.oakd_config in
  let action : gmap string Z := {[ "joint_1.pos" := 7 ]} in
  OakD.connect (dai := Sim.depthai) true c_on = (inl DeviceAlreadyConnectedError, c_on) /\
  OakD.read (dai := Sim.depthai) c_off = (inl DeviceNotConnectedError, c_off) /\
  OakD.async_read_enter c_off = (inl DeviceNotConnectedError, c_off) /\
  ReadLoop.step (dai := Sim.depthai) (ReadLoop.Call (ReadLoop.AsyncRead 200)) s =
    Some (ReadLoop.mkSys c_off ReadLoop.MIdle (ReadLoop.clock s)
            (ReadLoop.Raised DeviceNotConnectedError :: ReadLoop.history s)) /\
  OakD.disconnect c_off = (inl DeviceNotConnectedError, c_off) /\
  Ned2.connect (niryo := Sim.pyniryo) (dai := Sim.depthai) true r_on
    = (inl DeviceAlreadyConnectedError, r_on) /\
  Ned2.get_observation (niryo := Sim.pyniryo) (jv := Sim.joint_value)
      (dai := Sim.depthai) r_off
    = (inl DeviceNotConnectedError, r_off) /\
  Ned2.send_action (niryo := Sim.pyniryo) (jv := Sim.joint_value)
      (host := Sim.host) action r_off
    = (inl DeviceNotConnectedError, r_off) /\
  Ned2.disconnect r_off = (inl DeviceNotConnectedError, r_off).
Proof.
  intros c_on c_off r_on r_off s action.
  apply (lifecycle_checks (niryo := Sim.pyniryo) (jv := Sim.joint_value)
           (dai := Sim.depthai) (host := Sim.host)); reflexivity.
Defined.

(* ===================================================================== *)
(** ** The arm: connection state and calibration                         *)
(* ===================================================================== *)

Section Ned2Facts.
Context {V MaxRel Frame : Type}.
Context {niryo : Ned2.PyNiryo V} {jv : Ned2.JointValue V}
        {dai : OakD.DepthAI Frame} {host : Ned2.Host V MaxRel Frame}.

Local Abbreviation Robot := (Ned2.Ned2Follower V MaxRel Frame).

Lemma is_connected_false_camera (r : Robot) key cam :
  In (key, cam) (Ned2.cameras r) ->
  OakD.is_connected cam = false ->
  Ned2.is_connected r = false.
Proof.
  intros Hin Hoff. unfold Ned2.is_connected.
  destruct (Ned2.robot r); [|reflexivity].
  apply not_true_is_false. intros Hall.
  rewrite forallb_forall in Hall. specialize (Hall _ Hin). simpl in Hall.
  congruence.
Qed.

(** C9. With no robot handle ([self.robot is None]) [is_calibrated] is
    [True] and asks the vendor nothing; with a handle it makes one
    [need_calibration] query and returns the negation of the answer. *)
Theorem is_calibrated_spec (r_none r_some : Robot) (h : OakD.handle) :
  Ned2.robot r_none = None ->
  Ned2.robot r_some = Some h ->
  Ned2.is_calibrated r_none = (inr true, r_none) /\
  Ned2.is_calibrated r_some =
    (inr (negb (Ned2.sdk_need_calibration
                  (Ned2.sdk_log r_some ++ [Ned2.need_calibration]))),
     Ned2.logged r_some [Ned2.need_calibration]).
Proof.
  intros Hnone Hsome. unfold Ned2.is_calibrated, Ned2.query_need_calibration, Ned2.sdk.
  run_method. rewrite Hnone, Hsome. split; reflexivity.
Qed.

(** C10. A follower that holds a robot handle while one of its cameras is
    disconnected is not connected; [disconnect] then raises
    [DeviceNotConnectedError] and changes nothing: no vendor call is
    logged, the handle stays, and every camera is as it was. *)
Theorem disconnect_half_connected (r : Robot) (h : OakD.handle) key cam :
  Ned2.robot r = Some h ->
  In (key, cam) (Ned2.cameras r) ->
  OakD.is_connected cam = false ->
  Ned2.is_connected r = false /\
  Ned2.disconnect r = (inl DeviceNotConnectedError, r) /\
  Ned2.sdk_log (snd (Ned2.disconnect r)) = Ned2.sdk_log r /\
  Ned2.robot (snd (Ned2.disconnect r)) = Some h /\
  Ned2.cameras (snd (Ned2.disconnect r)) = Ned2.cameras r.
Proof.
  intros Hrobot Hin Hoff.
  assert (Hnc : Ned2.is_connected r = false)
    by (eapply is_connected_false_camera; eassumption).
  assert (Hd : Ned2.disconnect r = (inl DeviceNotConnectedError, r)).
  { unfold Ned2.disconnect. run_method. now rewrite Hnc. }
  rewrite Hd. cbn [snd]. auto.
Qed.

End Ned2Facts.

(** [is_calibrated] on the simulated arm, before and after [connect]. *)
Lemma is_calibrated_spec_witness :
  Ned2.is_calibrated (niryo := Sim.pyniryo) Sim.robot_off = (inr true, Sim.robot_off) /\
  fst (Ned2.is_calibrated (niryo := Sim.pyniryo) Sim.robot_on) = inr true.
Proof.
  destruct (is_calibrated_spec (niryo := Sim.pyniryo) Sim.robot_off Sim.robot_on
              OakD.Handle eq_refl eq_refl) as [H1 H2].
  split; [exact H1 | rewrite H2; reflexivity].
Defined.

(** The connected arm of the rig after its camera has been replaced by a
    camera that is not connected. *)
Lemma disconnect_half_connected_witness :
  let r := Ned2.set_cameras [("top", Sim.camera_off)] Sim.robot_on in
  Ned2.is_connected r = false /\
  Ned2.disconnect r = (inl DeviceNotConnectedError, r) /\
  Ned2.sdk_log (snd (Ned2.disconnect r)) = Ned2.sdk_log r /\
  Ned2.robot (snd (Ned2.disconnect r)) = Some OakD.Handle /\
  Ned2.cameras (snd (Ned2.disconnect r)) = Ned2.cameras r.
Proof.
  intros r.
  apply (disconnect_half_connected r OakD.Handle "top" Sim.camera_off).
  - reflexivity.
  - left. reflexivity.
  - reflexivity.
Defined.

(* ===================================================================== *)
(** ** The arm: [send_action]                                            *)
(* ===================================================================== *)

Section SendAction.
Context {V MaxRel Frame : Type}.
Context {niryo : Ned2.PyNiryo V} {jv : Ned2.JointValue V}
        {dai : OakD.DepthAI Frame} {host : Ned2.Host V MaxRel Frame}.

Local Abbreviation Robot := (Ned2.Ned2Follower V MaxRel Frame).
Import PyStr PyStrFacts PyDictFacts.

(** The goal dictionary holds, under [m], what the action holds under
    [m + ".pos"], and nothing else. *)
Lemma goal_lookup (action : gmap string V) (m : string) :
  Ned2.goal_of_action action !! m = action !! (m +:+ dot_pos).
Proof.
  apply option_eq. intros b. unfold Ned2.goal_of_action.
  rewrite PyDictFacts.lookup_comp.
  - split.
    + intros (k & v & Hk & Hf).
      destruct (endswith k dot_pos) eqn:He; [|discriminate].
      injection Hf as <- <-. now rewrite removesuffix_endswith.
    + intros Hl. exists (m +:+ dot_pos), b. split; [done|].
      rewrite endswith_app, removesuffix_app; [done|apply dot_pos_nonempty].
  - intros k1 v1 k2 v2 k' b1 b2 H1 H2.
    destruct (endswith k1 dot_pos) eqn:He1; [|discriminate].
    destruct (endswith k2 dot_pos) eqn:He2; [|discriminate].
    injection H1 as H1 _. injection H2 as H2 _.
    rewrite <- (removesuffix_endswith k1 dot_pos He1),
            <- (removesuffix_endswith k2 dot_pos He2).
    congruence.
Qed.

Lemma with_pos_suffix_Some (goal : gmap string V) (k : string) (v : V) :
  Ned2.with_pos_suffix goal !! k = Some v <->
  exists m, k = m +:+ dot_pos /\ goal !! m = Some v.
Proof.
  unfold Ned2.with_pos_suffix. rewrite PyDictFacts.lookup_comp.
  - split.
    + intros (m & v' & Hm & [= <- <-]). now exists m.
    + intros (m & -> & Hm). now exists m, v.
  - intros k1 v1 k2 v2 k' b1 b2 [= <- _] [= H _]. symmetry. now apply app_inj_l in H.
Qed.

Lemma with_pos_suffix_lookup (goal : gmap string V) (m : string) :
  Ned2.with_pos_suffix goal !! (m +:+ dot_pos) = goal !! m.
Proof.
  apply option_eq. intros v. rewrite with_pos_suffix_Some. split.
  - intros (m' & E & H). apply app_inj_l in E. now subst.
  - intros H. now exists m.
Qed.

Lemma with_pos_suffix_other (goal : gmap string V) (k : string) :
  endswith k dot_pos = false -> Ned2.with_pos_suffix goal !! k = None.
Proof.
  intros He. apply eq_None_not_Some. intros [v Hv].
  apply with_pos_suffix_Some in Hv as (m & -> & _).
  now rewrite endswith_app in He.
Qed.

(** Without clamping the returned dictionary is the action restricted to
    its [".pos"] keys. *)
Lemma echo_is_filter (action : gmap string V) :
  Ned2.with_pos_suffix (Ned2.goal_of_action action) =
  filter (fun kv => endswith (fst kv) dot_pos = true) action.
Proof.
  apply map_eq. intros k. apply option_eq. intros v.
  rewrite with_pos_suffix_Some, map_lookup_filter_Some. cbn [fst]. split.
  - intros (m & -> & Hm). rewrite goal_lookup in Hm. split; [done|apply endswith_app].
  - intros [Hk He]. exists (removesuffix k dot_pos).
    rewrite goal_lookup, removesuffix_endswith; done.
Qed.

Lemma present_pos_of_six (a1 a2 a3 a4 a5 a6 : V) (rest : list V) :
  Ned2.present_pos_of (a1 :: a2 :: a3 :: a4 :: a5 :: a6 :: rest) =
  inr (Ned2.present_six a1 a2 a3 a4 a5 a6).
Proof. reflexivity. Qed.

Lemma present_six_names (a1 a2 a3 a4 a5 a6 : V) (k : string) :
  is_Some (Ned2.present_six a1 a2 a3 a4 a5 a6 !! k) <-> In k Ned2.joint_names.
Proof.
  unfold Ned2.present_six, Ned2.joint_names.
  rewrite !lookup_insert_is_Some, lookup_empty. cbn [In].
  split.
  - intros H. repeat (destruct H as [H|[_ H]]; [subst; tauto|]).
    destruct H as [? H]; discriminate.
  - intros H.
    destruct (decide ("joint_6" = k)); [tauto|right; split; [done|]].
    destruct (decide ("joint_5" = k)); [tauto|right; split; [done|]].
    destruct (decide ("joint_4" = k)); [tauto|right; split; [done|]].
    destruct (decide ("joint_3" = k)); [tauto|right; split; [done|]].
    destruct (decide ("joint_2" = k)); [tauto|right; split; [done|]].
    destruct (decide ("joint_1" = k)); [tauto|right; split; [done|]].
    exfalso. intuition congruence.
Qed.

(** Pairing goals with present positions succeeds exactly when every goal
    key has a present position. *)
Lemma goal_present_pos_inr (goal present : gmap string V) :
  (forall (m : string) (v : V), goal !! m = Some v -> is_Some (present !! m)) ->
  exists gpp : gmap string (V * V),
    Ned2.goal_present_pos_of goal present = inr gpp /\
    forall m : string, gpp !! m =
      match goal !! m, present !! m with
      | Some g, Some p => Some (g, p)
      | _, _ => None
      end.
Proof.
  intros Hall. unfold Ned2.goal_present_pos_of.
  destruct (PyDictFacts.comp_exn_total
              (fun key g_pos => match present !! key with
                                | Some p => inr (g_pos, p)
                                | None => inl (KeyError key)
                                end) goal) as [gpp Hgpp].
  { intros k v Hk. destruct (Hall k v Hk) as [p ->]. now exists (v, p). }
  exists gpp. split; [exact Hgpp|].
  intros m. destruct (PyDictFacts.comp_exn_inr _ _ _ Hgpp m) as [-> _].
  destruct (goal !! m) as [g|]; [|done].
  destruct (present !! m); done.
Qed.

Lemma goal_present_pos_inl (goal present : gmap string V) (m : string) (v : V) :
  goal !! m = Some v -> present !! m = None ->
  exists k : string, Ned2.goal_present_pos_of goal present = inl (KeyError k) /\
            is_Some (goal !! k) /\ present !! k = None.
Proof.
  intros Hg Hp. unfold Ned2.goal_present_pos_of.
  match goal with |- context [PyDict.comp_exn ?f goal] => set (g := f) end.
  destruct (PyDict.comp_exn g goal) as [e|gpp] eqn:E.
  - apply PyDictFacts.comp_exn_inl in E as (k & w & Hk & Hgk). subst g. cbn beta in Hgk.
    destruct (present !! k) eqn:Hpk; [discriminate|]. injection Hgk as <-.
    exists k. eauto.
  - destruct (PyDictFacts.comp_exn_inr _ _ _ E m) as [_ Hex].
    destruct (Hex v Hg) as [b Hb]. subst g. cbn beta in Hb. rewrite Hp in Hb. discriminate.
Qed.

(** [send_action] on a connected arm with no bound on relative moves. *)
Lemma send_action_unlimited (action : gmap string V) (r : Robot) :
  Ned2.is_connected r = true ->
  Ned2.Config.max_relative_target (Ned2.config r) = None ->
  Ned2.send_action action r =
    (inr (Ned2.with_pos_suffix (Ned2.goal_of_action action)),
     Ned2.logged r [Ned2.move_joints_of (Ned2.goal_of_action action)]).
Proof.
  intros Hc Hm. unfold Ned2.send_action, Ned2.apply_safety_limits, Ned2.sdk.
  run_method. rewrite Hc. cbn [negb]. rewrite Hm. reflexivity.
Qed.

(** [send_action] on a connected arm with a bound: the three places where
    the safety branch can raise, then the command. *)
Lemma send_action_limited (action : gmap string V) (r : Robot) (bound : MaxRel) :
  Ned2.is_connected r = true ->
  Ned2.Config.max_relative_target (Ned2.config r) = Some bound ->
  Ned2.send_action action r =
    match Ned2.present_pos_of (Ned2.sdk_joints (Ned2.sdk_log r ++ [Ned2.joints])) with
    | inl e => (inl e, Ned2.logged r [Ned2.joints])
    | inr present =>
        match Ned2.goal_present_pos_of (Ned2.goal_of_action action) present with
        | inl e => (inl e, Ned2.logged r [Ned2.joints])
        | inr gpp =>
            match Ned2.ensure_safe_goal_position gpp bound with
            | inl e => (inl e, Ned2.logged r [Ned2.joints])
            | inr safe =>
                (inr (Ned2.with_pos_suffix safe),
                 Ned2.logged r [Ned2.joints; Ned2.move_joints_of safe])
            end
        end
    end.
Proof.
  intros Hc Hm.
  unfold Ned2.send_action, Ned2.apply_safety_limits, Ned2.query_joints, Ned2.sdk, Ned2.lift.
  run_method. rewrite Hc. cbn [negb]. rewrite Hm. cbn [Ned2.sdk_log Ned2.config].
  destruct (Ned2.present_pos_of _) as [e|present]; [reflexivity|].
  destruct (Ned2.goal_present_pos_of _ _) as [e|gpp]; [reflexivity|].
  destruct (Ned2.ensure_safe_goal_position _ _) as [e|safe]; [reflexivity|].
  unfold Ned2.logged. cbn. rewrite <- app_assoc. reflexivity.
Qed.

Lemma commanded_move_joints_of (goal : gmap string V) (n : string) :
  In n Ned2.joint_names ->
  Ned2.commanded (Ned2.move_joints_of goal) n = Some (Ned2.get_or_zero goal n).
Proof.
  unfold Ned2.joint_names. cbn [In].
  intros [<-|[<-|[<-|[<-|[<-|[<-|[]]]]]]]; reflexivity.
Qed.

(** With every [".pos"] key a motor name, each goal meets its present
    position. *)
Lemma pairing_succeeds (action : gmap string V) (a1 a2 a3 a4 a5 a6 : V) :
  Ned2.only_joint_keys action ->
  exists gpp : gmap string (V * V),
    Ned2.goal_present_pos_of (Ned2.goal_of_action action)
      (Ned2.present_six a1 a2 a3 a4 a5 a6) = inr gpp /\
    forall m : string, gpp !! m =
      match action !! (m +:+ dot_pos), Ned2.present_six a1 a2 a3 a4 a5 a6 !! m with
      | Some g, Some p => Some (g, p)
      | _, _ => None
      end.
Proof.
  intros Hkeys.
  destruct (goal_present_pos_inr (Ned2.goal_of_action action)
              (Ned2.present_six a1 a2 a3 a4 a5 a6)) as (gpp & Hgpp & Hl).
  - intros m v Hm. rewrite goal_lookup in Hm.
    apply present_six_names. eapply Hkeys; eassumption.
  - exists gpp. split; [exact Hgpp|]. intros m. rewrite Hl, goal_lookup. reflexivity.
Qed.

(** C2 (amended). On a connected arm:
    - with [max_relative_target] [None], the default, the goals taken from
      the action are sent to [move_joints] as they are, after no other
      vendor call;
    - with a bound, the present joint positions are read first; when every
      [".pos"] key of the action names one of the six motors, each goal is
      paired with the present position of its motor, the pairs go through
      [ensure_safe_goal_position], and [move_joints] is commanded with what
      the helper returns (or the helper's exception leaves the method, with
      no command);
    - with a bound and a [".pos"] key that names no motor, [KeyError] is
      raised after the read, and no command is sent. *)
Theorem send_action_clamping (action : gmap string V) (r : Robot) :
  Ned2.is_connected r = true ->
  let goal := Ned2.goal_of_action action in
  (Ned2.Config.max_relative_target (Ned2.config r) = None ->
   Ned2.send_action action r =
     (inr (Ned2.with_pos_suffix goal), Ned2.logged r [Ned2.move_joints_of goal]) /\
   forall m : string, goal !! m = action !! (m +:+ PyStr.dot_pos)) /\
  (forall (bound : MaxRel) (a1 a2 a3 a4 a5 a6 : V) (rest : list V),
   Ned2.Config.max_relative_target (Ned2.config r) = Some bound ->
   Ned2.sdk_joints (Ned2.sdk_log r ++ [Ned2.joints]) = a1 :: a2 :: a3 :: a4 :: a5 :: a6 :: rest ->
   let present := Ned2.present_six a1 a2 a3 a4 a5 a6 in
   (Ned2.only_joint_keys action ->
    exists gpp : gmap string (V * V),
      (forall m : string, gpp !! m =
         match action !! (m +:+ PyStr.dot_pos), present !! m with
         | Some g, Some p => Some (g, p)
         | _, _ => None
         end) /\
      Ned2.send_action action r =
        match Ned2.ensure_safe_goal_position gpp bound with
        | inl e => (inl e, Ned2.logged r [Ned2.joints])
        | inr safe =>
            (inr (Ned2.with_pos_suffix safe),
             Ned2.logged r [Ned2.joints; Ned2.move_joints_of safe])
        end) /\
   (forall (m : string) (v : V),
      action !! (m +:+ PyStr.dot_pos) = Some v -> ~ In m Ned2.joint_names ->
      exists k : string,
        Ned2.send_action action r = (inl (KeyError k), Ned2.logged r [Ned2.joints]) /\
        is_Some (action !! (k +:+ PyStr.dot_pos)) /\ ~ In k Ned2.joint_names)).
Proof.
  intros Hc goal. split.
  - intros Hm. split; [now apply send_action_unlimited|].
    intros m. apply goal_lookup.
  - intros bound a1 a2 a3 a4 a5 a6 rest Hm Hj present.
    rewrite (send_action_limited action r bound Hc Hm), Hj, present_pos_of_six.
    split.
    + intros Hkeys.
      destruct (pairing_succeeds action a1 a2 a3 a4 a5 a6 Hkeys) as (gpp & Hgpp & Hl).
      exists gpp. split; [exact Hl|]. rewrite Hgpp. reflexivity.
    + intros m v Hm' Hnot.
      destruct (goal_present_pos_inl goal present m v) as (k & Hk & Hgk & Hpk).
      * subst goal. now rewrite goal_lookup.
      * apply eq_None_not_Some. intros Hs. apply Hnot.
        now apply (present_six_names a1 a2 a3 a4 a5 a6).
      * exists k. subst goal present. rewrite Hk. split; [reflexivity|]. split.
        -- now rewrite <- goal_lookup.
        -- intros Hin. apply (present_six_names a1 a2 a3 a4 a5 a6) in Hin.
           rewrite Hpk in Hin. now destruct Hin.
Qed.

(** C6 (amended). On a connected arm [send_action] keeps exactly the
    entries of the action whose key ends in [".pos"], under the key without
    the suffix.  With no bound it then commands [move_joints] with, for each
    of the six motors, the kept value or [0] when there is none, and returns
    the kept entries under their [".pos"] keys.  With a bound, six reported
    joints, every [".pos"] key a motor name and a helper that returns
    [safe], it commands [move_joints] with the values of [safe] (or [0]) and
    returns [safe] under [".pos"] keys. *)
Theorem send_action_shapes (action : gmap string V) (r : Robot) :
  Ned2.is_connected r = true ->
  let goal := Ned2.goal_of_action action in
  (forall m : string, goal !! m = action !! (m +:+ PyStr.dot_pos)) /\
  (Ned2.Config.max_relative_target (Ned2.config r) = None ->
   exists (res : gmap string V) (call : Ned2.NiryoCall V),
     Ned2.send_action action r = (inr res, Ned2.logged r [call]) /\
     res = filter (fun kv => PyStr.endswith (fst kv) PyStr.dot_pos = true) action /\
     forall n : string, In n Ned2.joint_names ->
       Ned2.commanded call n = Some (default Ned2.zero (action !! (n +:+ PyStr.dot_pos)))) /\
  (forall (bound : MaxRel) (a1 a2 a3 a4 a5 a6 : V) (rest : list V)
          (gpp : gmap string (V * V)) (safe : gmap string V),
   Ned2.Config.max_relative_target (Ned2.config r) = Some bound ->
   Ned2.sdk_joints (Ned2.sdk_log r ++ [Ned2.joints]) = a1 :: a2 :: a3 :: a4 :: a5 :: a6 :: rest ->
   Ned2.only_joint_keys action ->
   Ned2.goal_present_pos_of goal (Ned2.present_six a1 a2 a3 a4 a5 a6) = inr gpp ->
   Ned2.ensure_safe_goal_position gpp bound = inr safe ->
   exists (res : gmap string V) (call : Ned2.NiryoCall V),
     Ned2.send_action action r = (inr res, Ned2.logged r [Ned2.joints; call]) /\
     (forall m : string, res !! (m +:+ PyStr.dot_pos) = safe !! m) /\
     (forall k : string, PyStr.endswith k PyStr.dot_pos = false -> res !! k = None) /\
     forall n : string, In n Ned2.joint_names ->
       Ned2.commanded call n = Some (default Ned2.zero (safe !! n))).
Proof.
  intros Hc goal. split; [intros m; apply goal_lookup|]. split.
  - intros Hm. eexists _, _. split; [now apply send_action_unlimited|].
    split; [apply echo_is_filter|].
    intros n Hn. rewrite commanded_move_joints_of by done.
    unfold Ned2.get_or_zero. now rewrite goal_lookup.
  - intros bound a1 a2 a3 a4 a5 a6 rest gpp safe Hm Hj Hkeys Hgpp Hsafe.
    eexists _, _. split.
    + rewrite (send_action_limited action r bound Hc Hm), Hj, present_pos_of_six.
      subst goal. rewrite Hgpp, Hsafe. reflexivity.
    + split; [intros m; apply with_pos_suffix_lookup|].
      split; [intros k Hk; now apply with_pos_suffix_other|].
      intros n Hn. now rewrite commanded_move_joints_of.
Qed.

(** C8 (amended). On a connected arm, a motor among [joint_1] ...
    [joint_6] whose [".pos"] key is absent from the action is commanded to
    [0] whenever [send_action] commands the arm: always when there is no
    bound, and, with a bound, when six joints are reported, every [".pos"]
    key is a motor name and the helper returns goals only for motors it
    was given. *)
Theorem absent_joint_commanded_zero (action : gmap string V) (r : Robot) (n : string) :
  Ned2.is_connected r = true ->
  In n Ned2.joint_names ->
  action !! (n +:+ PyStr.dot_pos) = None ->
  (Ned2.Config.max_relative_target (Ned2.config r) = None ->
   exists call : Ned2.NiryoCall V,
     snd (Ned2.send_action action r) = Ned2.logged r [call] /\
     Ned2.commanded call n = Some Ned2.zero) /\
  (forall (bound : MaxRel) (a1 a2 a3 a4 a5 a6 : V) (rest : list V)
          (gpp : gmap string (V * V)) (safe : gmap string V),
   Ned2.Config.max_relative_target (Ned2.config r) = Some bound ->
   Ned2.sdk_joints (Ned2.sdk_log r ++ [Ned2.joints]) = a1 :: a2 :: a3 :: a4 :: a5 :: a6 :: rest ->
   Ned2.goal_present_pos_of (Ned2.goal_of_action action)
     (Ned2.present_six a1 a2 a3 a4 a5 a6) = inr gpp ->
   Ned2.ensure_safe_goal_position gpp bound = inr safe ->
   (forall k : string, is_Some (safe !! k) -> is_Some (gpp !! k)) ->
   exists call : Ned2.NiryoCall V,
     snd (Ned2.send_action action r) = Ned2.logged r [Ned2.joints; call] /\
     Ned2.commanded call n = Some Ned2.zero).
Proof.
  intros Hc Hn Habs. split.
  - intros Hm. eexists. rewrite (send_action_unlimited action r Hc Hm). cbn [snd].
    split; [reflexivity|]. rewrite commanded_move_joints_of by done.
    unfold Ned2.get_or_zero. now rewrite goal_lookup, Habs.
  - intros bound a1 a2 a3 a4 a5 a6 rest gpp safe Hm Hj Hgpp Hsafe Hdom.
    eexists. rewrite (send_action_limited action r bound Hc Hm), Hj, present_pos_of_six.
    rewrite Hgpp, Hsafe. cbn [snd]. split; [reflexivity|].
    rewrite commanded_move_joints_of by done. unfold Ned2.get_or_zero.
    assert (Hnone : safe !! n = None).
    { apply eq_None_not_Some. intros Hs. apply Hdom in Hs.
      destruct (PyDictFacts.comp_exn_inr _ _ _ Hgpp n) as [Hl _].
      rewrite goal_lookup, Habs in Hl. rewrite Hl in Hs. now destruct Hs. }
    now rewrite Hnone.
Qed.

Lemma only_joint_keys_empty : Ned2.only_joint_keys (V := V) ∅.
Proof. intros m v H. now rewrite lookup_empty in H. Qed.

Lemma only_joint_keys_insert (action : gmap string V) (n : string) (v : V) :
  In n Ned2.joint_names ->
  Ned2.only_joint_keys action ->
  Ned2.only_joint_keys (<[n +:+ dot_pos := v]> action).
Proof.
  intros Hn Ha m w Hm. apply lookup_insert_Some in Hm as [[E _]|[_ Hm]].
  - apply app_inj_l in E. now subst.
  - eapply Ha; eassumption.
Qed.

End SendAction.

(** C2 as stated fails: the claim that, with a bound set, every action is
    paired, clamped and commanded fails on an action that carries a gripper goal: the pairing
    raises [KeyError] and the arm receives no motion command. *)
Lemma send_action_gripper_key_raises :
  let r := Sim.robot_limited in
  let action : gmap string Z := {[ "gripper.pos" := 1 ]} in
  Ned2.is_connected r = true /\
  Ned2.Config.max_relative_target (Ned2.config r) = Some 5 /\
  Ned2.send_action (niryo := Sim.pyniryo) (jv := Sim.joint_value) (host := Sim.host)
      action r
    = (inl (KeyError "gripper"), Ned2.logged r [Ned2.joints]) /\
  existsb Ned2.is_move
    (Ned2.sdk_log
       (snd (Ned2.send_action (niryo := Sim.pyniryo) (jv := Sim.joint_value)
               (host := Sim.host) action r))) = false.
Proof. vm_compute. auto. Qed.

(** The clamping branch on the arm whose relative moves are capped at 5. *)
Lemma send_action_clamping_witness :
  let r := Sim.robot_limited in
  let action : gmap string Z := <["joint_1.pos" := 100]> (<["joint_2.pos" := 18]> ∅) in
  exists gpp : gmap string (Z * Z),
    (forall m : string, gpp !! m =
       match action !! (m +:+ PyStr.dot_pos), Ned2.present_six 10 20 30 40 50 60 !! m with
       | Some g, Some p => Some (g, p)
       | _, _ => None
       end) /\
    Ned2.send_action action r =
      match Ned2.ensure_safe_goal_position gpp 5 with
      | inl e => (inl e, Ned2.logged r [Ned2.joints])
      | inr safe =>
          (inr (Ned2.with_pos_suffix safe),
           Ned2.logged r [Ned2.joints; Ned2.move_joints_of safe])
      end.
Proof.
  intros r action.
  destruct (send_action_clamping action r eq_refl) as [_ Hlimited].
  destruct (Hlimited 5 10 20 30 40 50 60 [] eq_refl eq_refl) as [Hpaired _].
  apply Hpaired.
  apply (only_joint_keys_insert _ "joint_1"); [cbn; tauto|].
  apply (only_joint_keys_insert _ "joint_2"); [cbn; tauto|].
  apply only_joint_keys_empty.
Defined.

(** What the arm receives in that run: joint 1 asked to go from 10 to 100
    is held to 15, joint 2 asked to go from 20 to 18 goes there, the four
    motors left out are sent to 0. *)
Lemma send_action_limited_example :
  let r := Sim.robot_limited in
  let action : gmap string Z := <["joint_1.pos" := 100]> (<["joint_2.pos" := 18]> ∅) in
  Ned2.send_action action r =
    (inr (<["joint_1.pos" := 15]> (<["joint_2.pos" := 18]> ∅)),
     Ned2.logged r [Ned2.joints; Ned2.move_joints 15 18 0 0 0 0]).
Proof. vm_compute. reflexivity. Qed.

(** C6 as stated fails: the claim that [send_action] always forwards six
    values and returns the commanded goals fails, with a bound set, on an action that names a
    seventh motor: it raises [KeyError], returns nothing and commands
    nothing. *)
Lemma send_action_seventh_key_raises :
  let r := Sim.robot_limited in
  let action : gmap string Z := <["joint_1.pos" := 12]> (<["gripper.pos" := 1]> ∅) in
  Ned2.is_connected r = true /\
  Ned2.send_action action r = (inl (KeyError "gripper"), Ned2.logged r [Ned2.joints]) /\
  existsb Ned2.is_move (Ned2.sdk_log (snd (Ned2.send_action action r))) = false.
Proof. vm_compute. auto. Qed.

(** The shapes of [send_action] on the arm of the rig with no bound, for an
    action that also carries a gripper goal. *)
Lemma send_action_shapes_witness :
  let r := Sim.robot_on in
  let action : gmap string Z := <["joint_1.pos" := 12]> (<["gripper.pos" := 1]> ∅) in
  exists (res : gmap string Z) (call : Ned2.NiryoCall Z),
    Ned2.send_action action r = (inr res, Ned2.logged r [call]) /\
    res = filter (fun kv => PyStr.endswith (fst kv) PyStr.dot_pos = true) action /\
    forall n : string, In n Ned2.joint_names ->
      Ned2.commanded call n = Some (default Ned2.zero (action !! (n +:+ PyStr.dot_pos))).
Proof.
  intros r action.
  destruct (send_action_shapes action r eq_refl) as (_ & Hunlimited & _).
  exact (Hunlimited eq_refl).
Defined.

(** C8 as stated fails: the claim that a motor left out of the action is
    always commanded to [0] fails, with a bound set, when the action also carries a key that
    names no motor: [joint_1.pos] is absent, yet nothing is commanded. *)
Lemma absent_joint_not_commanded :
  let r := Sim.robot_limited in
  let action : gmap string Z := <["joint_2.pos" := 25]> (<["tool.pos" := 1]> ∅) in
  Ned2.is_connected r = true /\
  action !! "joint_1.pos" = None /\
  Ned2.send_action action r = (inl (KeyError "tool"), Ned2.logged r [Ned2.joints]) /\
  existsb Ned2.is_move (Ned2.sdk_log (snd (Ned2.send_action action r))) = false.
Proof. vm_compute. auto. Qed.

(** An action for joint 2 alone sends joint 1 to 0. *)
Lemma absent_joint_commanded_zero_witness :
  let r := Sim.robot_on in
  let action : gmap string Z := <["joint_2.pos" := 25]> ∅ in
  exists call : Ned2.NiryoCall Z,
    snd (Ned2.send_action action r) = Ned2.logged r [call] /\
    Ned2.commanded call "joint_1" = Some 0.
Proof.
  intros r action.
  destruct (absent_joint_commanded_zero action r "joint_1" eq_refl) as [Hunlimited _].
  - cbn. tauto.
  - reflexivity.
  - exact (Hunlimited eq_refl).
Defined.

(* ===================================================================== *)
(** ** The arm: features and observations                                *)
(* ===================================================================== *)

Section Observation.
Context {V MaxRel Frame : Type}.
Context {niryo : Ned2.PyNiryo V} {jv : Ned2.JointValue V}
        {dai : OakD.DepthAI Frame} {host : Ned2.Host V MaxRel Frame}.

Local Abbreviation Robot := (Ned2.Ned2Follower V MaxRel Frame).

Lemma getitem_list_to_map {A} (d : list (string * A)) (key : string) :
  Ned2.getitem d key =
  match (list_to_map d : gmap string A) !! key with
  | Some a => inr a
  | None => inl (KeyError key)
  end.
Proof.
  induction d as [|[k a] d IH]; cbn [Ned2.getitem list_to_map foldr].
  - now rewrite lookup_empty.
  - cbn. destruct (String.eqb_spec k key) as [->|Hne].
    + now rewrite lookup_insert_eq.
    + now rewrite lookup_insert_ne.
Qed.

Lemma unpack2_union {A} (a b : gmap string A) : Ned2.unpack2 a b = b ∪ a.
Proof.
  unfold Ned2.unpack2.
  apply (map_fold_weak_ind (fun r m => r = m ∪ a)).
  - now rewrite (left_id_L ∅ (∪)).
  - intros i x m r _ ->. now rewrite insert_union_l.
Qed.

Lemma cameras_ft_from_spec (cfgs : list (string * OakD.OakDCameraConfig))
    (cams : list (string * OakD.OakDCamera Frame)) (acc : gmap string Ned2.feature) :
  (forall k : string, k ∈ cams.*1 ->
     is_Some ((list_to_map cfgs : gmap string OakD.OakDCameraConfig) !! k)) ->
  exists m : gmap string Ned2.feature,
    Ned2.cameras_ft_from cfgs cams acc = inr m /\
    forall k : string,
      m !! k = if decide (k ∈ cams.*1)
               then Ned2.shape_of <$> (list_to_map cfgs : gmap string _) !! k
               else acc !! k.
Proof.
  revert acc. induction cams as [|[cam c] rest IH]; intros acc Hin.
  - exists acc. split; [reflexivity|]. intros k.
    destruct (decide (k ∈ ([] : list (string * OakD.OakDCamera Frame)).*1)) as [H|_]; [|done].
    cbn in H. now apply not_elem_of_nil in H.
  - cbn [Ned2.cameras_ft_from]. rewrite getitem_list_to_map.
    destruct (Hin cam) as [cfg Hcfg]; [cbn; left|]. rewrite Hcfg.
    destruct (IH (<[cam := Ned2.shape (OakD.height cfg) (OakD.width cfg) 3]> acc))
      as (m & Hm & Hl).
    { intros k Hk. apply Hin. cbn. now right. }
    exists m. split; [exact Hm|]. intros k. rewrite Hl.
    cbn [fmap list_fmap fst].
    destruct (decide (k ∈ rest.*1)) as [Hr|Hr].
    + rewrite decide_True; [done|now right].
    + destruct (decide (k = cam)) as [->|Hne].
      * rewrite decide_True by left. now rewrite lookup_insert_eq, Hcfg.
      * rewrite lookup_insert_ne by done.
        rewrite decide_False; [done|]. intros [?|?]%elem_of_cons; done.
Qed.

Lemma cameras_ft_spec (r : Robot) :
  (Ned2.cameras r).*1 = (Ned2.Config.cameras (Ned2.config r)).*1 ->
  Ned2._cameras_ft r =
    inr (Ned2.shape_of <$> (list_to_map (Ned2.Config.cameras (Ned2.config r))
                             : gmap string OakD.OakDCameraConfig)).
Proof.
  intros Hkeys. unfold Ned2._cameras_ft.
  destruct (cameras_ft_from_spec (Ned2.Config.cameras (Ned2.config r))
              (Ned2.cameras r) ∅) as (m & Hm & Hl).
  - intros k Hk. rewrite Hkeys in Hk.
    destruct (list_to_map _ !! k) eqn:E; [done|].
    now apply not_elem_of_list_to_map in E.
  - rewrite Hm. f_equal. apply map_eq. intros k. rewrite Hl, lookup_empty, lookup_fmap.
    destruct (decide (k ∈ (Ned2.cameras r).*1)) as [_|Hk]; [done|].
    rewrite Hkeys in Hk. apply not_elem_of_list_to_map in Hk. now rewrite Hk.
Qed.

Lemma motors_ft_spec :
  Ned2._motors_ft =
  list_to_map ((fun k => (k, Ned2.float_type)) <$> Ned2.motor_keys).
Proof. vm_compute. reflexivity. Qed.

(** C7. For a follower that has one camera object per configured camera,
    under the same key, [observation_features] is the union of the six
    motor features, each of type [float], and of one feature per
    configured camera, the shape [(height, width, 3)] of that camera's
    configuration; [action_features] is exactly the six motor features.
    (As in [{**a, **b}], a camera feature stands in the place of a motor
    feature of the same name.) *)
Theorem plugin_features (r : Robot) :
  (Ned2.cameras r).*1 = (Ned2.Config.cameras (Ned2.config r)).*1 ->
  Ned2.observation_features r =
    inr ((Ned2.shape_of <$> (list_to_map (Ned2.Config.cameras (Ned2.config r))
                              : gmap string OakD.OakDCameraConfig))
         ∪ Ned2._motors_ft) /\
  Ned2.action_features r = Ned2._motors_ft /\
  Ned2._motors_ft =
    list_to_map ((fun k => (k, Ned2.float_type)) <$> Ned2.motor_keys).
Proof.
  intros Hkeys. split; [|split].
  - unfold Ned2.observation_features. rewrite (cameras_ft_spec r Hkeys).
    now rewrite unpack2_union.
  - reflexivity.
  - apply motors_ft_spec.
Qed.

(** A connected, wired camera hands out its next frame at two vendor
    calls. *)
Lemma oakd_read_connected (c : OakD.OakDCamera Frame) :
  OakD.is_connected c = true ->
  OakD.wired c ->
  OakD.read c = (inr (OakD.next_frame c), OakD.logged c [OakD.queue_get; OakD.getCvFrame]).
Proof.
  intros Hc Hw. destruct (Hw Hc) as [q Hq].
  unfold OakD.read, OakD.sdk. run_method. rewrite Hc, Hq. cbn [negb].
  unfold OakD.logged, OakD.next_frame. cbn. now rewrite <- app_assoc.
Qed.

Lemma each_camera_read (cams : list (string * OakD.OakDCamera Frame)) :
  forallb (fun kc => OakD.is_connected (snd kc)) cams = true ->
  Forall (fun kc => OakD.wired (snd kc)) cams ->
  Ned2.each_camera OakD.read cams =
    (inr (prod_map id OakD.next_frame <$> cams),
     prod_map id (fun c => OakD.logged c [OakD.queue_get; OakD.getCvFrame]) <$> cams).
Proof.
  induction cams as [|[k c] rest IH]; intros Hall Hw; [reflexivity|].
  cbn [forallb snd] in Hall. apply andb_true_iff in Hall as [Hc Hall].
  apply Forall_cons in Hw as [Hwc Hw]. cbn [snd] in Hwc.
  cbn [Ned2.each_camera]. rewrite (oakd_read_connected c Hc Hwc), (IH Hall Hw).
  reflexivity.
Qed.

Lemma store_images_union (frames : list (string * Frame))
    (base : gmap string (Ned2.obs_value V Frame)) :
  NoDup frames.*1 ->
  Ned2.store_images frames base =
    (Ned2.Image <$> (list_to_map frames : gmap string Frame)) ∪ base.
Proof.
  unfold Ned2.store_images. revert base.
  induction frames as [|[k f] fs IH]; intros base Hnd.
  - cbn. now rewrite fmap_empty, (left_id_L ∅ (∪)).
  - cbn [fmap list_fmap fst] in Hnd. apply NoDup_cons in Hnd as [Hk Hnd].
    cbn [foldl fst snd]. rewrite (IH _ Hnd). rewrite list_to_map_cons.
    rewrite fmap_insert, <- insert_union_l, insert_union_r; [done|].
    rewrite lookup_fmap. apply not_elem_of_list_to_map in Hk. now rewrite Hk.
Qed.

Lemma is_connected_cameras (r : Robot) :
  Ned2.is_connected r = true ->
  forallb (fun kc => OakD.is_connected (snd kc)) (Ned2.cameras r) = true.
Proof. unfold Ned2.is_connected. now destruct (Ned2.robot r). Qed.

(** The dictionary literal of [get_observation] holds the six angles under
    the six motor keys, in joint order. *)
Lemma angles_literal (a1 a2 a3 a4 a5 a6 : V) :
  Ned2.angles (Frame := Frame) [a1; a2; a3; a4; a5; a6] =
  <["joint_6.pos" := Ned2.Angle (Ned2.float a6)]>
    (<["joint_5.pos" := Ned2.Angle (Ned2.float a5)]>
      (<["joint_4.pos" := Ned2.Angle (Ned2.float a4)]>
        (<["joint_3.pos" := Ned2.Angle (Ned2.float a3)]>
          (<["joint_2.pos" := Ned2.Angle (Ned2.float a2)]>
            (<["joint_1.pos" := Ned2.Angle (Ned2.float a1)]> ∅))))).
Proof. vm_compute. reflexivity. Qed.

(** [get_observation] on a connected follower whose robot reports the six
    angles [a1] ... [a6]. *)
Lemma get_observation_run (r : Robot) (a1 a2 a3 a4 a5 a6 : V) (rest : list V) :
  Ned2.is_connected r = true ->
  Forall (fun kc => OakD.wired (snd kc)) (Ned2.cameras r) ->
  Ned2.sdk_joints (Ned2.sdk_log r ++ [Ned2.joints]) = a1 :: a2 :: a3 :: a4 :: a5 :: a6 :: rest ->
  Ned2.get_observation r =
    (inr (Ned2.store_images (prod_map id OakD.next_frame <$> Ned2.cameras r)
            (Ned2.angles [a1; a2; a3; a4; a5; a6])),
     Ned2.mkNed2Follower (Ned2.config r) (Ned2.robot r)
       (prod_map id (fun c => OakD.logged c [OakD.queue_get; OakD.getCvFrame])
          <$> Ned2.cameras r)
       (Ned2.sdk_log r ++ [Ned2.joints])).
Proof.
  intros Hc Hw Hj.
  unfold Ned2.get_observation, Ned2.query_joints, Ned2.sdk, Ned2.on_cameras, Ned2.lift.
  run_method. rewrite Hc. cbn [negb Ned2.sdk_log Ned2.cameras]. rewrite Hj.
  cbn [Ned2.index lookup list_lookup].
  cbn [Ned2.cameras].
  rewrite (each_camera_read _ (is_connected_cameras r Hc) Hw).
  unfold Ned2.set_cameras. cbn [Ned2.config Ned2.robot Ned2.sdk_log].
  now rewrite angles_literal.
Qed.

Lemma fst_prod_map_id {A B} (f : A -> B) (l : list (string * A)) :
  (prod_map id f <$> l).*1 = l.*1.
Proof. induction l as [|[k a] l IH]; [reflexivity|]. cbn. now rewrite IH. Qed.

Lemma angles_lookup (a1 a2 a3 a4 a5 a6 : V) (i : nat) (key : string) (a : V) :
  Ned2.motor_keys !! i = Some key ->
  [a1; a2; a3; a4; a5; a6] !! i = Some a ->
  Ned2.angles (Frame := Frame) [a1; a2; a3; a4; a5; a6] !! key
    = Some (Ned2.Angle (Ned2.float a)).
Proof.
  intros Hk Ha.
  do 6 (destruct i as [|i];
        [cbn in Hk, Ha; injection Hk as <-; injection Ha as <-; reflexivity|]).
  discriminate.
Qed.

(** C5. On a connected follower whose cameras hold their output queues and
    whose robot reports the six angles [a1] ... [a6], [get_observation]
    makes one [joints] query and one [read] per camera, and returns a
    dictionary whose keys are the six motor keys and the camera keys:
    every camera key holds the frame just read from that camera, and every
    motor key holds the angle of its joint, passed through [float], in
    joint order (a camera entry is written after the joint entries, so a
    camera that bears the name of a motor key takes its place). *)
Theorem get_observation_spec (r : Robot) (a1 a2 a3 a4 a5 a6 : V) (rest : list V) :
  Ned2.is_connected r = true ->
  NoDup (Ned2.cameras r).*1 ->
  Forall (fun kc => OakD.wired (snd kc)) (Ned2.cameras r) ->
  Ned2.sdk_joints (Ned2.sdk_log r ++ [Ned2.joints]) = a1 :: a2 :: a3 :: a4 :: a5 :: a6 :: rest ->
  exists obs : gmap string (Ned2.obs_value V Frame),
    Ned2.get_observation r =
      (inr obs,
       Ned2.mkNed2Follower (Ned2.config r) (Ned2.robot r)
         (prod_map id (fun c => OakD.logged c [OakD.queue_get; OakD.getCvFrame])
            <$> Ned2.cameras r)
         (Ned2.sdk_log r ++ [Ned2.joints])) /\
    obs = (Ned2.Image <$> (list_to_map (prod_map id OakD.next_frame <$> Ned2.cameras r)
                            : gmap string Frame))
          ∪ Ned2.angles [a1; a2; a3; a4; a5; a6] /\
    dom obs =@{gset string}
      list_to_set Ned2.motor_keys ∪ list_to_set (Ned2.cameras r).*1 /\
    (forall (key : string) (cam : OakD.OakDCamera Frame),
       (key, cam) ∈ Ned2.cameras r ->
       obs !! key = Some (Ned2.Image (OakD.next_frame cam))) /\
    (forall (i : nat) (key : string) (a : V),
       Ned2.motor_keys !! i = Some key ->
       [a1; a2; a3; a4; a5; a6] !! i = Some a ->
       key ∉ (Ned2.cameras r).*1 ->
       obs !! key = Some (Ned2.Angle (Ned2.float a))).
Proof.
  intros Hc Hnd Hw Hj.
  set (frames := prod_map id OakD.next_frame <$> Ned2.cameras r).
  assert (Hfst : frames.*1 = (Ned2.cameras r).*1) by apply fst_prod_map_id.
  assert (Hndf : NoDup frames.*1) by now rewrite Hfst.
  eexists. split; [|split; [reflexivity|]].
  - rewrite (get_observation_run r a1 a2 a3 a4 a5 a6 rest Hc Hw Hj).
    fold frames. now rewrite (store_images_union frames _ Hndf).
  - split; [|split].
    + rewrite dom_union_L, dom_fmap_L, dom_list_to_map_L, Hfst.
      unfold Ned2.angles. rewrite dom_list_to_map_L.
      change ((zip Ned2.motor_keys
                 ((fun a => Ned2.Angle (Ned2.float a)) <$> [a1; a2; a3; a4; a5; a6])).*1)
        with Ned2.motor_keys.
      apply (comm_L (∪)).
    + intros key cam Hin. apply lookup_union_Some_l. rewrite lookup_fmap.
      rewrite (elem_of_list_to_map_1 frames key (OakD.next_frame cam) Hndf); [done|].
      subst frames. apply (list_elem_of_fmap_2 (prod_map id OakD.next_frame) _ (key, cam) Hin).
    + intros i key a Hk Ha Hnot. rewrite lookup_union_r.
      * eapply angles_lookup; eassumption.
      * rewrite lookup_fmap. rewrite <- Hfst in Hnot.
        apply not_elem_of_list_to_map in Hnot. now rewrite Hnot.
Qed.

(** [connect] leaves a camera wired, and so do the other methods. *)
Lemma wired_init (cfg : OakD.OakDCameraConfig) : OakD.wired (OakD.__init__ (Frame := Frame) cfg).
Proof. intros H. discriminate. Qed.

Lemma wired_connect (warmup : bool) (c : OakD.OakDCamera Frame) :
  OakD.wired c -> OakD.wired (snd (OakD.connect warmup c)).
Proof.
  intros Hw. unfold OakD.connect. run_method.
  destruct (OakD.is_connected c) eqn:Hc; [exact Hw|].
  unfold OakD.sdk, OakD.read, OakD._start_read_thread. run_method. cbn.
  destruct (OakD.CameraBoardSocket (OakD.socket (OakD.config c))); cbn.
  - destruct warmup; cbn; destruct (OakD.is_alive (OakD.thread c)); cbn;
      intros _; now eexists.
  - destruct (OakD.hasattr_CameraBoardSocket (OakD.socket (OakD.config c))); cbn;
      intros H; unfold OakD.is_connected in Hc, H; cbn in H; congruence.
Qed.

Lemma wired_read (c : OakD.OakDCamera Frame) :
  OakD.wired c -> OakD.wired (snd (OakD.read c)).
Proof.
  intros Hw. unfold OakD.read, OakD.sdk. run_method.
  destruct (OakD.is_connected c) eqn:Hc; cbn [negb]; [|exact Hw].
  destruct (OakD.queue c) eqn:Hq; [|exact Hw].
  cbn. intros _. unfold OakD.queue. cbn. unfold OakD.queue in Hq. rewrite Hq. now eexists.
Qed.

Lemma wired_disconnect (c : OakD.OakDCamera Frame) :
  OakD.wired c -> OakD.wired (snd (OakD.disconnect c)).
Proof.
  intros Hw. unfold OakD.disconnect, OakD.disconnect_enter, OakD.disconnect_close,
    OakD._stop_read_thread, OakD.sdk. run_method.
  destruct (OakD.is_connected c) eqn:Hc; cbn [negb]; [|exact Hw].
  destruct (OakD.stop_event c); cbn; unfold OakD.is_connected in Hc;
    destruct (OakD.device c); try discriminate; cbn; intros H; discriminate.
Qed.

End Observation.

(** [get_observation] on the connected arm of the rig. *)
Lemma get_observation_spec_witness :
  let r := Sim.robot_on in
  exists obs : gmap string (Ned2.obs_value Z nat),
    Ned2.get_observation r =
      (inr obs,
       Ned2.mkNed2Follower (Ned2.config r) (Ned2.robot r)
         (prod_map id (fun c => OakD.logged c [OakD.queue_get; OakD.getCvFrame])
            <$> Ned2.cameras r)
         (Ned2.sdk_log r ++ [Ned2.joints])) /\
    obs = (Ned2.Image <$> (list_to_map (prod_map id OakD.next_frame <$> Ned2.cameras r)
                            : gmap string nat))
          ∪ Ned2.angles [10; 20; 30; 40; 50; 60] /\
    dom obs =@{gset string}
      list_to_set Ned2.motor_keys ∪ list_to_set (Ned2.cameras r).*1 /\
    (forall (key : string) (cam : OakD.OakDCamera nat),
       (key, cam) ∈ Ned2.cameras r ->
       obs !! key = Some (Ned2.Image (OakD.next_frame cam))) /\
    (forall (i : nat) (key : string) (a : Z),
       Ned2.motor_keys !! i = Some key ->
       [10; 20; 30; 40; 50; 60] !! i = Some a ->
       key ∉ (Ned2.cameras r).*1 ->
       obs !! key = Some (Ned2.Angle (Ned2.float a))).
Proof.
  intros r.
  apply (get_observation_spec r 10 20 30 40 50 60 []).
  - reflexivity.
  - apply NoDup_cons_2; [apply not_elem_of_nil|apply NoDup_nil_2].
  - apply Forall_cons_2; [|apply Forall_nil_2]. intros _. eexists. reflexivity.
  - reflexivity.
Defined.

(** The observation of the simulated rig: six angles and the frame numbered
    by the camera's call log. *)
Lemma get_observation_example :
  fst (Ned2.get_observation Sim.robot_on) =
    inr (<["top" := Ned2.Image (OakD.next_frame Sim.camera_on)]>
           (Ned2.angles [10; 20; 30; 40; 50; 60])).
Proof. vm_compute. reflexivity. Qed.

(** The features of the arm of the rig: six motors and the camera [top]. *)
Lemma plugin_features_witness :
  Ned2.observation_features Sim.robot_on =
    inr (<["top" := Ned2.shape (Some 480) (Some 640) 3]> Ned2._motors_ft) /\
  Ned2.action_features Sim.robot_on = Ned2._motors_ft.
Proof.
  destruct (plugin_features Sim.robot_on eq_refl) as (Hobs & Hact & _).
  split; [rewrite Hobs; vm_compute; reflexivity | exact Hact].
Defined.

(* ===================================================================== *)
(** ** The camera: what the methods of the calling thread leave alone    *)
(* ===================================================================== *)

Section SameSlot.
Context {Frame : Type} {dai : OakD.DepthAI Frame}.
Import OakD.

Local Abbreviation Camera := (OakDCamera Frame).

Lemma same_slot_refl (c : Camera) : same_slot c c.
Proof. unfold same_slot. auto 6. Qed.

Lemma same_slot_trans (c1 c2 c3 : Camera) :
  same_slot c1 c2 -> same_slot c2 c3 -> same_slot c1 c3.
Proof.
  intros (Hl1 & Hf1 & He1 & Ht1) (Hl2 & Hf2 & He2 & Ht2).
  unfold same_slot. rewrite Hl2, Hf2, He2. repeat split; try assumption.
  destruct Ht1 as [[Ht1 Hs1]|(Hd1 & Ht1 & Hs1)], Ht2 as [[Ht2 Hs2]|(Hd2 & Ht2 & Hs2)].
  - left. split; [congruence|auto].
  - right. repeat split; [congruence|assumption|assumption].
  - right. repeat split; [assumption|congruence|auto].
  - rewrite Ht1 in Hd2. discriminate.
Qed.

Lemma keeps_ret {A} (a : A) : keeps_slot (Frame := Frame) (ret a).
Proof. intros c. apply same_slot_refl. Qed.

Lemma keeps_raise {A} (e : Exn) : keeps_slot (Frame := Frame) (raise (A := A) e).
Proof. intros c. apply same_slot_refl. Qed.

Lemma keeps_get : keeps_slot (Frame := Frame) (get (S := Camera)).
Proof. intros c. apply same_slot_refl. Qed.

Lemma keeps_bind {A B} (m : M Camera A) (k : A -> M Camera B) :
  keeps_slot m -> (forall a, keeps_slot (k a)) -> keeps_slot (bind m k).
Proof.
  intros Hm Hk c. unfold bind. specialize (Hm c).
  destruct (m c) as [[e|a] c']; cbn [snd] in *; [exact Hm|].
  eapply same_slot_trans; [exact Hm|apply Hk].
Qed.

Lemma keeps_sdk (call : DaiCall) : keeps_slot (Frame := Frame) (sdk call).
Proof. intros c. unfold same_slot. cbn. auto 6. Qed.

Lemma keeps_set_pipeline x : keeps_slot (Frame := Frame) (modify (set_pipeline (Frame := Frame) x)).
Proof. intros c. unfold same_slot. cbn. auto 6. Qed.

Lemma keeps_set_device x : keeps_slot (Frame := Frame) (modify (set_device (Frame := Frame) x)).
Proof. intros c. unfold same_slot. cbn. auto 6. Qed.

Lemma keeps_set_queue x : keeps_slot (Frame := Frame) (modify (set_queue (Frame := Frame) x)).
Proof. intros c. unfold same_slot. cbn. auto 6. Qed.

Lemma keeps_repeat (n : nat) (body : M Camera unit) :
  keeps_slot body -> keeps_slot (repeat_m n body).
Proof.
  intros Hb. induction n as [|n IH]; cbn [repeat_m].
  - apply keeps_ret.
  - apply keeps_bind; [exact Hb|intros _; exact IH].
Qed.

Lemma keeps_read : keeps_slot (Frame := Frame) read.
Proof.
  unfold read. apply keeps_bind; [apply keeps_get|]. intros self.
  destruct (negb (is_connected self)); [apply keeps_raise|].
  destruct (queue self); [|apply keeps_raise].
  repeat (apply keeps_bind; [first [apply keeps_sdk | apply keeps_get]|intros ?]).
  apply keeps_ret.
Qed.

Lemma keeps_start_read_thread : keeps_slot (Frame := Frame) (_start_read_thread (Frame := Frame)).
Proof.
  intros c. unfold _start_read_thread, bind, get, modify, ret. cbn.
  destruct (is_alive (thread c)) eqn:Ha; cbn; [apply same_slot_refl|].
  unfold same_slot. cbn. repeat split. right. repeat split; [assumption|now eexists].
Qed.

Lemma keeps_stop_read_thread : keeps_slot (Frame := Frame) (_stop_read_thread (Frame := Frame)).
Proof.
  intros c. unfold _stop_read_thread, bind, get, modify, ret. cbn.
  destruct (stop_event c) eqn:Hs; cbn; [|apply same_slot_refl].
  unfold same_slot. cbn. repeat split. left. split; [reflexivity|]. intros _. now eexists.
Qed.

(** Solves [keeps_slot] goals by following the structure of the method. *)
Ltac keeps :=
  first
    [ apply keeps_start_read_thread
    | apply keeps_stop_read_thread
    | apply keeps_read
    | apply keeps_sdk
    | apply keeps_set_pipeline
    | apply keeps_set_device
    | apply keeps_set_queue
    | apply keeps_ret
    | apply keeps_raise
    | apply keeps_get
    | apply keeps_repeat; keeps
    | apply keeps_bind; [keeps | intros ?; keeps]
    | match goal with
      | |- @keeps_slot _ _ (if ?b then _ else _) => destruct b; keeps
      end ].

Lemma keeps_connect (warmup : bool) : keeps_slot (Frame := Frame) (connect warmup).
Proof.
  unfold connect. apply keeps_bind; [apply keeps_get|]. intros self.
  destruct (is_connected self); [apply keeps_raise|].
  keeps.
Qed.

Lemma keeps_async_read_enter : keeps_slot (Frame := Frame) (async_read_enter (Frame := Frame)).
Proof.
  unfold async_read_enter. apply keeps_bind; [apply keeps_get|]. intros self.
  destruct (negb (is_connected self)); [apply keeps_raise|].
  destruct (negb (is_alive (thread self)));
    [apply keeps_start_read_thread|apply keeps_ret].
Qed.

Lemma keeps_disconnect_enter : keeps_slot (Frame := Frame) (disconnect_enter (Frame := Frame)).
Proof.
  unfold disconnect_enter. apply keeps_bind; [apply keeps_get|]. intros self.
  destruct (negb (is_connected self)); [apply keeps_raise|].
  apply keeps_stop_read_thread.
Qed.

Lemma keeps_disconnect_close : keeps_slot (Frame := Frame) (disconnect_close (Frame := Frame)).
Proof.
  unfold disconnect_close. apply keeps_bind; [apply keeps_get|]. intros self.
  destruct (device self); [|apply keeps_ret].
  repeat (apply keeps_bind;
          [first [apply keeps_sdk | apply keeps_set_pipeline | apply keeps_set_device
                 | apply keeps_set_queue]
          |intros ?]).
  apply keeps_set_pipeline.
Qed.

End SameSlot.

(* ===================================================================== *)
(** ** The interleaved machine: what one step does                       *)
(* ===================================================================== *)

Section Steps.
Context {Frame : Type} {dai : OakD.DepthAI Frame}.
Import OakD ReadLoop.

Local Abbreviation Camera := (OakDCamera Frame).

(** The three ways [read] ends. *)
Lemma read_cases (c : Camera) :
  (is_connected c = false /\ read c = (inl DeviceNotConnectedError, c)) \/
  (is_connected c = true /\ queue c = None /\ read c = (inl (AttributeError "get"), c)) \/
  (is_connected c = true /\ is_Some (queue c) /\
   read c = (inr (next_frame c), logged c [queue_get; getCvFrame])).
Proof.
  unfold read, sdk. run_method.
  destruct (is_connected c) eqn:Hc; cbn [negb]; [|now left].
  right. destruct (queue c) eqn:Hq; [right|left]; repeat split; eauto.
  unfold logged, next_frame. cbn. now rewrite <- app_assoc.
Qed.

(** One statement of the reader, field by field. *)
Lemma reader_step_view (c c' : Camera) (evs : list (event Frame)) :
  reader_step c = Some (c', evs) ->
  exists pc pc',
    thread c = Some pc /\ thread c' = Some pc' /\
    stop_event c' = stop_event c /\
    match pc with
    | RLoopHead =>
        (pc' = RRead /\ stop_event c = Some false \/
         pc' = RDone /\ stop_event c <> Some false) /\
        evs = [] /\ frame_lock c' = frame_lock c /\
        latest_frame c' = latest_frame c /\ new_frame_event c' = new_frame_event c /\
        sdk_log c' = sdk_log c
    | RRead =>
        (pc' = RDone /\ is_connected c = false /\ sdk_log c' = sdk_log c \/
         pc' = RLoopHead /\ is_connected c = true /\ queue c = None \/
         pc' = RAcquire (next_frame c) /\ is_connected c = true /\
         sdk_log c' = sdk_log c ++ [queue_get; getCvFrame]) /\
        evs = [] /\ frame_lock c' = frame_lock c /\
        latest_frame c' = latest_frame c /\ new_frame_event c' = new_frame_event c
    | RAcquire f =>
        pc' = RStore f /\ evs = [] /\
        frame_lock c = None /\ frame_lock c' = Some ReaderThread /\
        latest_frame c' = latest_frame c /\ new_frame_event c' = new_frame_event c /\
        sdk_log c' = sdk_log c
    | RStore f =>
        pc' = RRelease /\ evs = [Published f] /\ frame_lock c' = frame_lock c /\
        latest_frame c' = Some f /\ new_frame_event c' = new_frame_event c /\
        sdk_log c' = sdk_log c
    | RRelease =>
        pc' = RSet /\ evs = [] /\ frame_lock c' = None /\
        latest_frame c' = latest_frame c /\ new_frame_event c' = new_frame_event c /\
        sdk_log c' = sdk_log c
    | RSet =>
        pc' = RLoopHead /\ evs = [Signalled] /\ frame_lock c' = frame_lock c /\
        latest_frame c' = latest_frame c /\ new_frame_event c' = true /\
        sdk_log c' = sdk_log c
    | RDone => False
    end.
Proof.
  unfold reader_step. intros H.
  destruct (thread c) as [pc|] eqn:Ht; [|discriminate].
  destruct pc as [| |f|f| | |].
  - destruct (stop_event c) as [[|]|] eqn:Hs; injection H as <- <-;
      eexists _, _; (split; [reflexivity|]); cbn;
      repeat split; auto; right; split; auto; congruence.
  - destruct (read_cases c) as [(Hc & Hr)|[(Hc & Hq & Hr)|(Hc & Hq & Hr)]];
      rewrite Hr in H; injection H as <- <-;
      eexists _, _; (split; [reflexivity|]); cbn;
      (split; [reflexivity|]); (split; [reflexivity|]);
      (split; [|repeat split; reflexivity]).
    + left. auto.
    + right. left. auto.
    + right. right. auto.
  - destruct (frame_lock c) eqn:Hl; [discriminate|]. injection H as <- <-.
    eexists _, _; (split; [reflexivity|]); cbn; repeat split; auto.
  - injection H as <- <-. eexists _, _; (split; [reflexivity|]); cbn; repeat split; auto.
  - injection H as <- <-. eexists _, _; (split; [reflexivity|]); cbn; repeat split; auto.
  - injection H as <- <-. eexists _, _; (split; [reflexivity|]); cbn; repeat split; auto.
  - discriminate.
Qed.

Lemma reader_fault_view (c c' : Camera) (evs : list (event Frame)) :
  reader_fault c = Some (c', evs) ->
  thread c = Some RRead /\ thread c' = Some RLoopHead /\ is_connected c = true /\
  stop_event c' = stop_event c /\ evs = [] /\ frame_lock c' = frame_lock c /\
  latest_frame c' = latest_frame c /\ new_frame_event c' = new_frame_event c.
Proof.
  unfold reader_fault. intros H.
  destruct (thread c) as [[| |f|f| | |]|] eqn:Ht; try discriminate.
  destruct (is_connected c) eqn:Hc; [|discriminate].
  injection H as <- <-. cbn. repeat split; auto.
Qed.

Lemma reader_holds_alive (t : option (reader_pc Frame)) :
  reader_holds t = true -> is_alive t = true.
Proof. destruct t as [[]|]; cbn; congruence. Qed.

Lemma inv_tick (s : Sys Frame) : Inv s -> Inv (tick s).
Proof.
  intros [Hl He Hs Hh Hst Hhi]. unfold tick.
  destruct (main s) eqn:Hm; cbn in *;
    try (constructor; cbn; rewrite ?Hm; assumption).
  - destruct (negb (new_frame_event (cam s)) && (deadline <? clock s + 1));
      constructor; cbn; assumption.
  - destruct (deadline <? clock s + 1); constructor; cbn; assumption.
Qed.

Lemma inv_reader (s s' : Sys Frame) :
  Inv s -> with_cam s (reader_step (cam s)) = Some s' -> Inv s'.
Proof.
  intros [Hl He Hs Hh Hst Hhi] H. unfold with_cam in H.
  destruct (reader_step (cam s)) as [[c' evs]|] eqn:Hr; [|discriminate].
  injection H as <-.
  apply reader_step_view in Hr as (pc & pc' & Ht & Ht' & Hse & Hv).
  rewrite Ht in *. cbn [reader_holds] in *.
  destruct pc as [| |f|f| | |]; cbn in He, Hl.
  - destruct Hv as (Hpc & -> & Hlk & Hlf & Hfl & _).
    destruct Hpc as [[-> _]|[-> _]];
      constructor; cbn; rewrite ?Ht', ?Hlk, ?Hlf, ?Hse; auto.
  - destruct Hv as (Hpc & -> & Hlk & Hlf & Hfl).
    destruct Hpc as [(-> & _)|[(-> & _)|(-> & _)]];
      constructor; cbn; rewrite ?Ht', ?Hlk, ?Hlf, ?Hse; auto.
  - destruct Hv as (-> & -> & Hfree & Hlk & Hlf & Hfl & _).
    rewrite Hfree in Hl.
    destruct (main_holds (main s)) eqn:Hmh; [discriminate|].
    constructor; cbn; rewrite ?Ht', ?Hlk, ?Hlf, ?Hse; auto.
    all: destruct (main s); cbn in Hmh; try discriminate; exact I.
  - destruct Hv as (-> & -> & Hlk & Hlf & Hfl & _).
    constructor; cbn; rewrite ?Ht', ?Hlk, ?Hlf, ?Hse; auto.
    all: destruct (main s); cbn in He; try discriminate; exact I.
  - destruct Hv as (-> & -> & Hlk & Hlf & Hfl & _).
    constructor; cbn; rewrite ?Ht', ?Hlk, ?Hlf, ?Hse; auto.
    all: try (rewrite He; reflexivity).
  - destruct Hv as (-> & -> & Hlk & Hlf & Hfl & _).
    constructor; cbn; rewrite ?Ht', ?Hlk, ?Hlf, ?Hse; auto.
  - destruct Hv.
Qed.

Lemma inv_fault (s s' : Sys Frame) :
  Inv s -> with_cam s (reader_fault (cam s)) = Some s' -> Inv s'.
Proof.
  intros [Hl He Hs Hh Hst Hhi] H. unfold with_cam in H.
  destruct (reader_fault (cam s)) as [[c' evs]|] eqn:Hr; [|discriminate].
  injection H as <-.
  apply reader_fault_view in Hr as (Ht & Ht' & _ & Hse & -> & Hlk & Hlf & Hfl).
  rewrite Ht in *. cbn [reader_holds] in *.
  constructor; cbn; rewrite ?Ht', ?Hlk, ?Hlf, ?Hse; auto.
Qed.

(** A method entered by the calling thread while it is idle. *)
Lemma inv_enter (s : Sys Frame) (c' : Camera) (pc' : main_pc Frame)
    (h' : list (event Frame)) (clk : Z) :
  Inv s ->
  main_holds (main s) = false ->
  same_slot (cam s) c' ->
  main_holds pc' = false ->
  latest_published h' = latest_published (history s) ->
  deliveries_are_latest h' ->
  Inv (mkSys c' pc' clk h').
Proof.
  intros [Hl He Hs Hh Hst Hhi] Hm (Hlk & Hlf & Hfl & Hth) Hpc Hlp Hd.
  rewrite Hm in Hl.
  assert (Hrh : reader_holds (thread c') = reader_holds (thread (cam s))).
  { destruct Hth as [[-> _]|(Hdead & -> & _)]; [reflexivity|].
    cbn. destruct (reader_holds (thread (cam s))) eqn:E; [|reflexivity].
    apply reader_holds_alive in E. congruence. }
  constructor; cbn; rewrite ?Hrh, ?Hpc, ?Hlk, ?Hlf, ?Hlp; auto.
  - apply andb_false_r.
  - destruct pc'; cbn in Hpc; try discriminate; exact I.
  - destruct Hth as [[-> Hss]|(_ & _ & Hss)]; auto.
Qed.

Lemma inv_main (s s' : Sys Frame) : Inv s -> main_step s = Some s' -> Inv s'.
Proof.
  intros HI H. pose proof HI as [Hl He Hs Hh Hst Hhi]. unfold main_step in H.
  destruct (main s) as [|d| | | |f|f|d|] eqn:Hm; cbn in Hl, He, Hh.
  - discriminate.
  - destruct (new_frame_event (cam s)); [|discriminate]. injection H as <-.
    constructor; cbn; auto.
  - injection H as <-. constructor; cbn; auto.
  - destruct (frame_lock (cam s)) eqn:Hlk; [discriminate|]. injection H as <-.
    destruct (reader_holds (thread (cam s))) eqn:Hr; [discriminate|].
    constructor; cbn; rewrite ?Hr; auto.
  - injection H as <-. constructor; cbn; auto.
  - injection H as <-. constructor; cbn; auto.
  - injection H as <-. rewrite andb_true_r in He.
    constructor; cbn; rewrite ?He; auto. split; [congruence|assumption].
  - destruct (is_alive (thread (cam s))); [discriminate|]. injection H as <-.
    constructor; cbn; auto.
  - pose proof (keeps_disconnect_close (cam s)) as Hk.
    destruct (disconnect_close (cam s)) as [[e|u] c'] eqn:Hd; cbn [snd] in Hk;
      injection H as <-; (apply (inv_enter s); [assumption|now rewrite Hm|assumption|..]);
      try reflexivity; exact Hhi.
Qed.

Lemma inv_call (op : Op) (s s' : Sys Frame) :
  Inv s -> call_step op s = Some s' -> Inv s'.
Proof.
  intros HI H. pose proof HI as [Hl He Hs Hh Hst Hhi]. unfold call_step in H.
  destruct (main s) eqn:Hm; try discriminate.
  destruct op as [timeout_ms| |warmup].
  - pose proof (keeps_async_read_enter (cam s)) as Hk.
    destruct (async_read_enter (cam s)) as [[e|u] c'] eqn:Hd; cbn [snd] in Hk;
      injection H as <-; (apply (inv_enter s); [assumption|now rewrite Hm|assumption|..]);
      try reflexivity; exact Hhi.
  - pose proof (keeps_disconnect_enter (cam s)) as Hk.
    destruct (disconnect_enter (cam s)) as [[e|u] c'] eqn:Hd; cbn [snd] in Hk;
      injection H as <-; (apply (inv_enter s); [assumption|now rewrite Hm|assumption|..]);
      try reflexivity; try exact Hhi.
    now destruct (is_alive (thread c')).
  - pose proof (keeps_connect warmup (cam s)) as Hk.
    destruct (connect warmup (cam s)) as [[e|u] c'] eqn:Hd; cbn [snd] in Hk;
      injection H as <-; (apply (inv_enter s); [assumption|now rewrite Hm|assumption|..]);
      try reflexivity; exact Hhi.
Qed.

(** The invariant holds at the start and is kept by every step. *)
Lemma inv_boot (cfg : OakDCameraConfig) : Inv (boot (Frame := Frame) cfg).
Proof. constructor; cbn; auto. intros [x Hx]. discriminate. Qed.

Lemma inv_step (l : label) (s s' : Sys Frame) :
  Inv s -> step l s = Some s' -> Inv s'.
Proof.
  intros HI H. destruct l; cbn [step] in H.
  - injection H as <-. now apply inv_tick.
  - eapply inv_reader; eassumption.
  - eapply inv_fault; eassumption.
  - eapply inv_main; eassumption.
  - eapply inv_call; eassumption.
Qed.

Lemma inv_run (ls : list label) (s s' : Sys Frame) :
  Inv s -> run ls s = Some s' -> Inv s'.
Proof.
  revert s. induction ls as [|l ls IH]; intros s HI H; cbn [run] in H.
  - now injection H as <-.
  - destruct (step l s) as [s1|] eqn:Hs; [|discriminate].
    eapply IH; [|exact H]. eapply inv_step; eassumption.
Qed.


Lemma outcomes_app (h1 h2 : list (event Frame)) :
  outcomes (h1 ++ h2) = outcomes h1 ++ outcomes h2.
Proof. unfold outcomes. apply List.filter_app. Qed.

(** A step moves the clock forward by at most one tick and adds events in
    front of the history. *)
Lemma step_grows (l : label) (s s' : Sys Frame) :
  step l s = Some s' ->
  (clock s' = clock s \/ (l = Tick /\ clock s' = clock s + 1)) /\
  exists evs, history s' = evs ++ history s.
Proof.
  intros H. destruct l; cbn [step] in H.
  - injection H as <-. cbn. split; [right; auto|now exists []].
  - unfold with_cam in H. destruct (reader_step (cam s)) as [[c' evs]|]; [|discriminate].
    injection H as <-. cbn. split; [now left|now exists evs].
  - unfold with_cam in H. destruct (reader_fault (cam s)) as [[c' evs]|]; [|discriminate].
    injection H as <-. cbn. split; [now left|now exists evs].
  - unfold main_step in H.
    destruct (main s); try discriminate;
      repeat match type of H with
             | context [if ?b then _ else _] => destruct b
             | context [match frame_lock ?c with _ => _ end] => destruct (frame_lock c)
             | context [match disconnect_close ?c with _ => _ end] =>
                 destruct (disconnect_close c) as [[?|?] ?]
             end; try discriminate; injection H as <-; cbn;
      (split; [now left|]);
      first [now exists [] | eexists [_]; reflexivity].
  - unfold call_step in H. destruct (main s); try discriminate.
    destruct op;
      repeat match type of H with
             | context [match async_read_enter ?c with _ => _ end] =>
                 destruct (async_read_enter c) as [[?|?] ?]
             | context [match disconnect_enter ?c with _ => _ end] =>
                 destruct (disconnect_enter c) as [[?|?] ?]
             | context [match connect ?w ?c with _ => _ end] =>
                 destruct (connect w c) as [[?|?] ?]
             end; injection H as <-; cbn;
      (split; [now left|]);
      first [now exists [] | eexists [_]; reflexivity].
Qed.

Lemma run_grows (ls : list label) (s s' : Sys Frame) :
  run ls s = Some s' ->
  clock s <= clock s' /\ exists evs, history s' = evs ++ history s.
Proof.
  revert s. induction ls as [|l ls IH]; intros s H; cbn [run] in H.
  - injection H as <-. split; [lia|now exists []].
  - destruct (step l s) as [s1|] eqn:Hs; [|discriminate].
    destruct (step_grows _ _ _ Hs) as [Hc [e1 He1]].
    destruct (IH _ H) as [Hc' [e2 He2]]. split; [lia|].
    exists (e2 ++ e1). now rewrite He2, He1, app_assoc.
Qed.

(** Once an outcome [e] has been logged, it is the first outcome of every
    longer execution. *)
Lemma first_outcome_fixed (ls : list label) (s s1 s' : Sys Frame) (e r : event Frame) :
  outcomes (history s1) = e :: outcomes (history s) ->
  run ls s1 = Some s' ->
  first_outcome s s' r ->
  r = e.
Proof.
  intros He Hrun [rs Hr].
  destruct (run_grows _ _ _ Hrun) as [_ [evs Hevs]].
  rewrite Hevs, outcomes_app, He in Hr.
  apply app_inj_2 in Hr as [_ Hr]; [|reflexivity].
  now injection Hr.
Qed.

Lemma first_outcome_not_yet (s : Sys Frame) (r : event Frame) :
  ~ first_outcome s s r.
Proof.
  intros [rs Hr]. apply (f_equal length) in Hr.
  rewrite length_app in Hr. cbn in Hr. lia.
Qed.

Lemma first_outcome_silent (s s1 s' : Sys Frame) (r : event Frame) :
  outcomes (history s1) = outcomes (history s) ->
  first_outcome s s' r -> first_outcome s1 s' r.
Proof. intros He [rs Hr]. exists rs. now rewrite He. Qed.

Lemma reader_keeps_flag (c c' : Camera) (evs : list (event Frame)) :
  reader_step c = Some (c', evs) \/ reader_fault c = Some (c', evs) ->
  outcomes evs = [] /\ (new_frame_event c = true -> new_frame_event c' = true).
Proof.
  intros [H|H].
  - apply reader_step_view in H as (pc & pc' & _ & _ & _ & Hv).
    destruct pc.
    + destruct Hv as (_ & -> & _ & _ & Hf & _). split; [reflexivity|congruence].
    + destruct Hv as (_ & -> & _ & _ & Hf). split; [reflexivity|congruence].
    + destruct Hv as (_ & -> & _ & _ & _ & Hf & _). split; [reflexivity|congruence].
    + destruct Hv as (_ & -> & _ & _ & Hf & _). split; [reflexivity|congruence].
    + destruct Hv as (_ & -> & _ & _ & Hf & _). split; [reflexivity|congruence].
    + destruct Hv as (_ & -> & _ & _ & Hf & _). split; [reflexivity|congruence].
    + destruct Hv.
  - apply reader_fault_view in H as (_ & _ & _ & _ & -> & _ & _ & Hf).
    split; [reflexivity|congruence].
Qed.

(** One step of the system while the calling thread waits with deadline
    [d]: it goes on waiting, or it times out at the tick that passes [d]
    with the event clear, or it sees the event set. *)
Lemma step_wait (l : label) (s s' : Sys Frame) (d : Z) :
  main s = MWait d ->
  step l s = Some s' ->
  outcomes (history s') = outcomes (history s) /\
  ((main s' = MWait d /\ (flag s = true -> flag s' = true) /\
    (clock s' = clock s \/ clock s' = clock s + 1 /\ (clock s' <= d \/ flag s = true))) \/
   (main s' = MTimedOut /\ flag s = false /\ clock s' = clock s + 1 /\ d < clock s') \/
   (main s' = MAcquire /\ flag s = true /\ clock s' = clock s)).
Proof.
  intros Hm H. destruct l; cbn [step] in H.
  - injection H as <-. unfold tick, flag. rewrite Hm. cbn.
    split; [reflexivity|].
    destruct (new_frame_event (cam s)) eqn:Hf; cbn.
    + left. split; [reflexivity|]. split; [auto|]. right. auto.
    + destruct (d <? clock s + 1) eqn:Hd; cbn.
      * right. left. apply Z.ltb_lt in Hd. auto.
      * left. apply Z.ltb_ge in Hd. split; [reflexivity|]. split; [auto|]. right. auto.
  - unfold with_cam in H. destruct (reader_step (cam s)) as [[c' evs]|] eqn:Hr; [|discriminate].
    injection H as <-. cbn [history main clock cam].
    destruct (reader_keeps_flag (cam s) c' evs) as [Ho Hf]; [now left|].
    rewrite outcomes_app, Ho. split; [reflexivity|]. left. unfold flag. cbn. auto.
  - unfold with_cam in H. destruct (reader_fault (cam s)) as [[c' evs]|] eqn:Hr; [|discriminate].
    injection H as <-. cbn [history main clock cam].
    destruct (reader_keeps_flag (cam s) c' evs) as [Ho Hf]; [now right|].
    rewrite outcomes_app, Ho. split; [reflexivity|]. left. unfold flag. cbn. auto.
  - unfold main_step in H. rewrite Hm in H.
    destruct (new_frame_event (cam s)) eqn:Hf; [|discriminate]. injection H as <-.
    cbn. split; [reflexivity|]. right. right. auto.
  - unfold call_step in H. rewrite Hm in H. discriminate.
Qed.

(** One step of the system once the wait is over: the verdict stands until
    the outcome is logged, and the outcome agrees with it. *)
Lemma step_verdict (l : label) (s s' : Sys Frame) (b : bool) :
  verdict (main s) = Some b ->
  step l s = Some s' ->
  (verdict (main s') = Some b /\ outcomes (history s') = outcomes (history s)) \/
  (exists e, outcomes (history s') = e :: outcomes (history s) /\ agrees b e).
Proof.
  intros Hv H. destruct l; cbn [step] in H.
  - injection H as <-. left. unfold tick. cbn.
    destruct (main s); cbn in Hv; try discriminate; cbn; auto.
  - unfold with_cam in H. destruct (reader_step (cam s)) as [[c' evs]|] eqn:Hr; [|discriminate].
    injection H as <-. cbn [history main clock cam].
    destruct (reader_keeps_flag (cam s) c' evs) as [Ho _]; [now left|].
    left. now rewrite outcomes_app, Ho.
  - unfold with_cam in H. destruct (reader_fault (cam s)) as [[c' evs]|] eqn:Hr; [|discriminate].
    injection H as <-. cbn [history main clock cam].
    destruct (reader_keeps_flag (cam s) c' evs) as [Ho _]; [now right|].
    left. now rewrite outcomes_app, Ho.
  - unfold main_step in H.
    destruct (main s) eqn:Hm; cbn in Hv; try discriminate; injection Hv as <-.
    + injection H as <-. right. eexists. split; [reflexivity|reflexivity].
    + destruct (frame_lock (cam s)); [discriminate|]. injection H as <-. left. auto.
    + injection H as <-. left. auto.
    + injection H as <-. left. auto.
    + injection H as <-. right. eexists. split; [reflexivity|]. now exists f.
  - unfold call_step in H. destruct (main s); cbn in Hv; discriminate.
Qed.

Lemma run_verdict (ls : list label) (s s' : Sys Frame) (b : bool) (r : event Frame) :
  verdict (main s) = Some b ->
  run ls s = Some s' ->
  first_outcome s s' r ->
  agrees b r.
Proof.
  revert s. induction ls as [|l ls IH]; intros s Hv Hrun Hr; cbn [run] in Hrun.
  - injection Hrun as <-. now apply first_outcome_not_yet in Hr.
  - destruct (step l s) as [s1|] eqn:Hs; [|discriminate].
    destruct (step_verdict _ _ _ _ Hv Hs) as [[Hv1 Ho]|(e & Ho & Ha)].
    + eapply IH; [exact Hv1|exact Hrun|]. eapply first_outcome_silent; eassumption.
    + now rewrite (first_outcome_fixed ls s s1 s' e r Ho Hrun Hr).
Qed.

(** After the deadline nothing counts as a signal any more. *)
Lemma signalled_late (d : Z) (ls : list label) (s : Sys Frame) :
  d < clock s -> signalled_by d ls s = false.
Proof.
  unfold signalled_by. revert s. induction ls as [|l ls IH]; intros s Hd; cbn [states existsb].
  - replace (clock s <=? d) with false by (symmetry; apply Z.leb_gt; lia). reflexivity.
  - replace (clock s <=? d) with false by (symmetry; apply Z.leb_gt; lia). cbn [andb orb].
    destruct (step l s) as [s1|] eqn:Hs; [|reflexivity].
    apply IH. destruct (step_grows _ _ _ Hs) as [[Hc|[_ Hc]] _]; lia.
Qed.

Lemma signalled_cons (d : Z) (l : label) (ls : list label) (s s1 : Sys Frame) :
  step l s = Some s1 ->
  signalled_by d (l :: ls) s = ((clock s <=? d) && flag s) || signalled_by d ls s1.
Proof. intros Hs. unfold signalled_by. cbn [states existsb]. now rewrite Hs. Qed.

Lemma signalled_head (d : Z) (ls : list label) (s : Sys Frame) :
  clock s <= d -> flag s = true -> signalled_by d ls s = true.
Proof.
  intros Hc Hf. unfold signalled_by. destruct ls; cbn [states existsb];
    rewrite Hf; replace (clock s <=? d) with true by (symmetry; apply Z.leb_le; lia);
    reflexivity.
Qed.

(** Past the deadline with the event set, the wait can only succeed. *)
Lemma wait_signalled (ls : list label) (s s' : Sys Frame) (d : Z) (r : event Frame) :
  main s = MWait d -> flag s = true ->
  run ls s = Some s' -> first_outcome s s' r ->
  exists f, r = Returned f.
Proof.
  revert s. induction ls as [|l ls IH]; intros s Hm Hf Hrun Hr; cbn [run] in Hrun.
  - injection Hrun as <-. now apply first_outcome_not_yet in Hr.
  - destruct (step l s) as [s1|] eqn:Hs; [|discriminate].
    destruct (step_wait _ _ _ _ Hm Hs) as [Ho [(Hm1 & Hf1 & _)|[(_ & Hf0 & _)|(Hm1 & _ & _)]]].
    + eapply IH; [exact Hm1|auto|exact Hrun|]. eapply first_outcome_silent; eassumption.
    + congruence.
    + apply (run_verdict ls s1 s' true r); [now rewrite Hm1|exact Hrun|].
      eapply first_outcome_silent; eassumption.
Qed.

(** The wait of [async_read] times out exactly when the event was never
    seen set up to the deadline. *)
Lemma wait_times_out_iff (ls : list label) (s s' : Sys Frame) (d : Z) (r : event Frame) :
  main s = MWait d -> clock s <= d ->
  run ls s = Some s' -> first_outcome s s' r ->
  (r = Raised TimeoutError <-> signalled_by d ls s = false) /\
  (r = Raised TimeoutError \/ exists f, r = Returned f).
Proof.
  revert s. induction ls as [|l ls IH]; intros s Hm Hc Hrun Hr; cbn [run] in Hrun.
  - injection Hrun as <-. now apply first_outcome_not_yet in Hr.
  - destruct (step l s) as [s1|] eqn:Hs; [|discriminate].
    rewrite (signalled_cons d l ls s s1 Hs).
    replace (clock s <=? d) with true by (symmetry; apply Z.leb_le; lia). cbn [andb].
    destruct (step_wait _ _ _ _ Hm Hs)
      as [Ho [(Hm1 & Hf1 & Hclk)|[(Hm1 & Hf0 & Hc1 & Hd1)|(Hm1 & Hf0 & _)]]];
      pose proof (first_outcome_silent s s1 s' r Ho Hr) as Hr1.
    + destruct (Z.le_gt_cases (clock s1) d) as [Hle|Hgt].
      * destruct (IH s1 Hm1 Hle Hrun Hr1) as [Hiff Hor]. split; [|exact Hor].
        rewrite Hiff. destruct (flag s) eqn:Hf; cbn [orb]; [|reflexivity].
        rewrite (signalled_head d ls s1 Hle (Hf1 eq_refl)). reflexivity.
      * assert (Hf : flag s = true) by (destruct Hclk as [?|[? [?|?]]]; [lia|lia|assumption]).
        destruct (wait_signalled ls s1 s' d r Hm1 (Hf1 Hf) Hrun Hr1) as [f ->].
        rewrite Hf. cbn [orb]. split; [split; discriminate|right; now exists f].
    + assert (Hv : verdict (main s1) = Some false) by now rewrite Hm1.
      pose proof (run_verdict ls s1 s' false r Hv Hrun Hr1) as Ha. cbn in Ha. subst r.
      rewrite Hf0, (signalled_late d ls s1 Hd1). cbn. split; [tauto|now left].
    + assert (Hv : verdict (main s1) = Some true) by now rewrite Hm1.
      destruct (run_verdict ls s1 s' true r Hv Hrun Hr1) as [f ->].
      rewrite Hf0. cbn [orb]. split; [split; discriminate|right; now exists f].
Qed.

Lemma signalled_absorb (d : Z) (ls : list label) (s : Sys Frame) :
  ((clock s <=? d) && flag s) || signalled_by d ls s = signalled_by d ls s.
Proof.
  unfold signalled_by. destruct ls; cbn [states existsb];
    destruct ((clock s <=? d) && flag s); reflexivity.
Qed.

Lemma async_read_enter_connected (c : Camera) :
  is_connected c = true ->
  exists c', async_read_enter c = (inr tt, c') /\
             new_frame_event c' = new_frame_event c.
Proof.
  intros Hc. unfold async_read_enter, _start_read_thread. run_method.
  rewrite Hc. cbn [negb].
  destruct (is_alive (thread c)) eqn:Ha; cbn [negb]; cbn beta iota; rewrite ?Ha;
    eexists; split; reflexivity.
Qed.

Lemma main_step_cam (s s' : Sys Frame) :
  main_step s = Some s' ->
  latest_frame (cam s') = latest_frame (cam s) /\ thread (cam s') = thread (cam s).
Proof.
  unfold main_step. intros H.
  destruct (main s); try discriminate;
    repeat match type of H with
           | context [if ?b then _ else _] => destruct b
           | context [match frame_lock ?c with _ => _ end] => destruct (frame_lock c)
           end; try discriminate; try (injection H as <-; cbn; now auto).
  pose proof (keeps_disconnect_close (cam s)) as (_ & Hlf & _ & Ht).
  assert (Hth : thread (snd (disconnect_close (cam s))) = thread (cam s)).
  { unfold disconnect_close, sdk. run_method. destruct (device (cam s)); reflexivity. }
  destruct (disconnect_close (cam s)) as [[e|u] c']; cbn [snd] in *;
    injection H as <-; cbn; auto.
Qed.

Lemma call_step_cam (op : Op) (s s' : Sys Frame) :
  call_step op s = Some s' -> same_slot (cam s) (cam s').
Proof.
  unfold call_step. intros H. destruct (main s); try discriminate.
  destruct op as [t| |w].
  - pose proof (keeps_async_read_enter (cam s)) as Hk.
    destruct (async_read_enter (cam s)) as [[e|u] c']; injection H as <-; exact Hk.
  - pose proof (keeps_disconnect_enter (cam s)) as Hk.
    destruct (disconnect_enter (cam s)) as [[e|u] c']; injection H as <-; exact Hk.
  - pose proof (keeps_connect w (cam s)) as Hk.
    destruct (connect w (cam s)) as [[e|u] c']; injection H as <-; exact Hk.
Qed.

Lemma same_slot_alive (c c' : Camera) :
  same_slot c c' -> is_alive (thread c) = true -> is_alive (thread c') = true.
Proof.
  intros (_ & _ & _ & [[-> _]|(Hd & _ & _)]) Ha; [exact Ha|congruence].
Qed.

(** One full turn of [_read_loop]. *)
Lemma reader_iteration (s : Sys Frame) :
  thread (cam s) = Some RLoopHead ->
  stop_event (cam s) = Some false ->
  is_connected (cam s) = true ->
  wired (cam s) ->
  frame_lock (cam s) = None ->
  exists s',
    run [Reader; Reader; Reader; Reader; Reader; Reader] s = Some s' /\
    latest_frame (cam s') = Some (next_frame (cam s)) /\
    flag s' = true /\
    thread (cam s') = Some RLoopHead /\
    frame_lock (cam s') = None /\
    sdk_log (cam s') = sdk_log (cam s) ++ [queue_get; getCvFrame] /\
    history s' = Signalled :: Published (next_frame (cam s)) :: history s /\
    main s' = main s /\ clock s' = clock s.
Proof.
  intros Ht Hs Hc Hw Hl. destruct (Hw Hc) as [q Hq].
  destruct s as [c pc clk h]. cbn [cam] in *.
  destruct c as [cfg pl dev qu th st lk lf ev log].
  unfold is_connected in Hc. cbn in Ht, Hs, Hc, Hq, Hl. subst th st qu lk.
  destruct dev as [dv|]; [|discriminate].
  eexists. split; [cbn; reflexivity|].
  unfold flag, next_frame. cbn. rewrite <- app_assoc. repeat split; reflexivity.
Qed.

(** Every reachable camera is wired. *)
Lemma wired_async_read_enter (c : Camera) :
  wired c -> wired (snd (async_read_enter c)).
Proof.
  intros Hw. unfold async_read_enter, _start_read_thread. run_method.
  destruct (is_connected c) eqn:Hc; cbn [negb]; [|exact Hw].
  destruct (is_alive (thread c)) eqn:Ha; cbn [negb]; cbn beta iota; rewrite ?Ha;
    cbn [snd]; [exact Hw|].
  intros _. apply (Hw Hc).
Qed.

Lemma wired_disconnect_enter (c : Camera) :
  wired c -> wired (snd (disconnect_enter c)).
Proof.
  intros Hw. unfold disconnect_enter, _stop_read_thread. run_method.
  destruct (is_connected c) eqn:Hc; cbn [negb]; [|exact Hw].
  destruct (stop_event c); cbn [snd]; [|exact Hw].
  intros _. apply (Hw Hc).
Qed.

Lemma wired_disconnect_close (c : Camera) : wired (snd (disconnect_close c)).
Proof.
  unfold disconnect_close, sdk. run_method.
  destruct (device c) eqn:Hd; cbn [snd].
  - intros H. discriminate.
  - intros H. unfold is_connected in H. rewrite Hd in H. discriminate.
Qed.

Lemma wired_step (l : label) (s s' : Sys Frame) :
  wired (cam s) -> step l s = Some s' -> wired (cam s').
Proof.
  intros Hw H. destruct l; cbn [step] in H.
  - now injection H as <-.
  - unfold with_cam, reader_step in H.
    destruct (thread (cam s)) as [[| |f|f| | |]|]; try discriminate.
    + destruct (stop_event (cam s)) as [[|]|]; injection H as <-; exact Hw.
    + pose proof (wired_read (cam s) Hw) as Hr.
      destruct (read (cam s)) as [[e|f] c']; cbn [snd] in Hr;
        [destruct e|]; injection H as <-; exact Hr.
    + destruct (frame_lock (cam s)); [discriminate|]. injection H as <-. exact Hw.
    + injection H as <-. exact Hw.
    + injection H as <-. exact Hw.
    + injection H as <-. exact Hw.
  - unfold with_cam, reader_fault in H.
    destruct (thread (cam s)) as [[| |f|f| | |]|]; try discriminate.
    destruct (is_connected (cam s)); [|discriminate]. injection H as <-. exact Hw.
  - unfold main_step in H.
    destruct (main s); try discriminate;
      repeat match type of H with
             | context [if ?b then _ else _] => destruct b
             | context [match frame_lock ?c with _ => _ end] => destruct (frame_lock c)
             end; try discriminate; try (injection H as <-; exact Hw).
    pose proof (wired_disconnect_close (cam s)) as Hd.
    destruct (disconnect_close (cam s)) as [[e|u] c']; injection H as <-; exact Hd.
  - unfold call_step in H. destruct (main s); try discriminate.
    destruct op as [t| |w].
    + pose proof (wired_async_read_enter (cam s) Hw) as Hk.
      destruct (async_read_enter (cam s)) as [[e|u] c']; injection H as <-; exact Hk.
    + pose proof (wired_disconnect_enter (cam s) Hw) as Hk.
      destruct (disconnect_enter (cam s)) as [[e|u] c']; injection H as <-; exact Hk.
    + pose proof (wired_connect w (cam s) Hw) as Hk.
      destruct (connect w (cam s)) as [[e|u] c']; injection H as <-; exact Hk.
Qed.

Lemma wired_run (ls : list label) (s s' : Sys Frame) :
  wired (cam s) -> run ls s = Some s' -> wired (cam s').
Proof.
  revert s. induction ls as [|l ls IH]; intros s Hw H; cbn [run] in H.
  - now injection H as <-.
  - destruct (step l s) as [s1|] eqn:Hs; [|discriminate].
    eapply IH; [|exact H]. eapply wired_step; eassumption.
Qed.

(** The slot changes only at the reader's store, made under the lock. *)
Lemma slot_written_under_lock (l : label) (s s' : Sys Frame) :
  Inv s ->
  step l s = Some s' ->
  latest_frame (cam s') <> latest_frame (cam s) ->
  l = Reader /\ frame_lock (cam s) = Some ReaderThread /\
  exists f, thread (cam s) = Some (RStore f) /\ latest_frame (cam s') = Some f.
Proof.
  intros HI H Hne. destruct l; cbn [step] in H.
  - injection H as <-. now destruct Hne.
  - unfold with_cam in H.
    destruct (reader_step (cam s)) as [[c' evs]|] eqn:Hr; [|discriminate].
    injection H as <-. cbn [cam] in Hne.
    apply reader_step_view in Hr as (pc & pc' & Ht & _ & _ & Hv).
    destruct pc as [| |f|f| | |].
    + destruct Hv as (_ & _ & _ & Hlf & _). contradiction.
    + destruct Hv as (_ & _ & _ & Hlf & _). contradiction.
    + destruct Hv as (_ & _ & _ & _ & Hlf & _). contradiction.
    + destruct Hv as (_ & _ & _ & Hlf & _). split; [reflexivity|].
      split; [|now exists f]. rewrite (inv_lock s HI), Ht. reflexivity.
    + destruct Hv as (_ & _ & _ & Hlf & _). contradiction.
    + destruct Hv as (_ & _ & _ & Hlf & _). contradiction.
    + destruct Hv.
  - unfold with_cam in H.
    destruct (reader_fault (cam s)) as [[c' evs]|] eqn:Hr; [|discriminate].
    injection H as <-. cbn [cam] in Hne.
    apply reader_fault_view in Hr as (_ & _ & _ & _ & _ & _ & Hlf & _). contradiction.
  - apply main_step_cam in H as [Hlf _]. contradiction.
  - apply call_step_cam in H as (_ & Hlf & _). contradiction.
Qed.

(** The reader thread ends only at the two exits of [_read_loop]. *)
Lemma reader_exits_only (l : label) (s s' : Sys Frame) :
  Inv s ->
  step l s = Some s' ->
  is_alive (thread (cam s)) = true ->
  is_alive (thread (cam s')) = false ->
  l = Reader /\
  (thread (cam s) = Some RLoopHead /\ stop_event (cam s) = Some true \/
   thread (cam s) = Some RRead /\ is_connected (cam s) = false).
Proof.
  intros HI H Ha Hd. destruct l; cbn [step] in H.
  - injection H as <-. cbn [tick cam] in Hd. congruence.
  - unfold with_cam in H.
    destruct (reader_step (cam s)) as [[c' evs]|] eqn:Hr; [|discriminate].
    injection H as <-. cbn [cam] in Hd. split; [reflexivity|].
    apply reader_step_view in Hr as (pc & pc' & Ht & Ht' & _ & Hv).
    rewrite Ht' in Hd.
    destruct pc as [| |f|f| | |].
    + destruct Hv as ([[-> _]|[_ Hs]] & _); [discriminate|]. left. split; [exact Ht|].
      destruct (inv_stop s HI) as [b Hb]; [rewrite Ht; now eexists|].
      rewrite Hb in *. destruct b; [reflexivity|congruence].
    + destruct Hv as ([(_ & Hc & _)|[(-> & _)|(-> & _)]] & _); try discriminate. now right.
    + destruct Hv as (-> & _). discriminate.
    + destruct Hv as (-> & _). discriminate.
    + destruct Hv as (-> & _). discriminate.
    + destruct Hv as (-> & _). discriminate.
    + destruct Hv.
  - unfold with_cam in H.
    destruct (reader_fault (cam s)) as [[c' evs]|] eqn:Hr; [|discriminate].
    injection H as <-. cbn [cam] in Hd.
    apply reader_fault_view in Hr as (_ & Ht' & _). rewrite Ht' in Hd. discriminate.
  - apply main_step_cam in H as [_ Ht]. congruence.
  - apply call_step_cam in H. apply (same_slot_alive _ _ H) in Ha. congruence.
Qed.

Lemma reader_exit_on_stop (s : Sys Frame) :
  thread (cam s) = Some RLoopHead -> stop_event (cam s) = Some true ->
  exists s', step Reader s = Some s' /\ thread (cam s') = Some RDone /\
             history s' = history s /\ sdk_log (cam s') = sdk_log (cam s).
Proof.
  intros Ht Hs. cbn [step]. unfold with_cam, reader_step. rewrite Ht, Hs.
  eexists. split; [reflexivity|]. cbn. auto.
Qed.

Lemma reader_exit_on_disconnect (s : Sys Frame) :
  thread (cam s) = Some RRead -> is_connected (cam s) = false ->
  exists s', step Reader s = Some s' /\ thread (cam s') = Some RDone /\
             history s' = history s /\ sdk_log (cam s') = sdk_log (cam s).
Proof.
  intros Ht Hc. cbn [step]. unfold with_cam, reader_step. rewrite Ht.
  destruct (read_cases (cam s)) as [(_ & Hr)|[(Hc' & _)|(Hc' & _)]]; try congruence.
  rewrite Hr. eexists. split; [reflexivity|]. cbn. auto.
Qed.

(** C4. In every state reached from a fresh camera object:
    - a turn of [_read_loop] that starts with the stop event clear, the
      device connected and the lock free calls [read] once, stores the
      frame it got in [latest_frame], sets [new_frame_event] after the
      store and is back at the head of the loop;
    - [latest_frame] changes only at the store of the reader thread, which
      is made while that thread holds [frame_lock];
    - whatever happens next, the slot holds the latest publication and
      every frame [async_read] has returned was the latest publication
      when it was read, never an older one;
    - the loop ends at its head when the stop event is set and at [read]
      when the device is disconnected, and the reader thread ends in no
      other way. *)
Theorem read_loop_spec (cfg : OakDCameraConfig) (ls0 : list label) (s : Sys Frame) :
  run ls0 (boot cfg) = Some s ->
  (thread (cam s) = Some RLoopHead -> stop_event (cam s) = Some false ->
   is_connected (cam s) = true -> frame_lock (cam s) = None ->
   exists s',
     run [Reader; Reader; Reader; Reader; Reader; Reader] s = Some s' /\
     latest_frame (cam s') = Some (next_frame (cam s)) /\
     flag s' = true /\
     thread (cam s') = Some RLoopHead /\
     sdk_log (cam s') = sdk_log (cam s) ++ [queue_get; getCvFrame] /\
     history s' = Signalled :: Published (next_frame (cam s)) :: history s) /\
  (forall l s', step l s = Some s' ->
     latest_frame (cam s') <> latest_frame (cam s) ->
     l = Reader /\ frame_lock (cam s) = Some ReaderThread) /\
  (forall ls s', run ls s = Some s' ->
     latest_frame (cam s') = latest_published (history s') /\
     deliveries_are_latest (history s')) /\
  (thread (cam s) = Some RLoopHead -> stop_event (cam s) = Some true ->
   exists s', step Reader s = Some s' /\ thread (cam s') = Some RDone /\
              history s' = history s /\ sdk_log (cam s') = sdk_log (cam s)) /\
  (thread (cam s) = Some RRead -> is_connected (cam s) = false ->
   exists s', step Reader s = Some s' /\ thread (cam s') = Some RDone /\
              history s' = history s /\ sdk_log (cam s') = sdk_log (cam s)) /\
  (forall l s', step l s = Some s' ->
     is_alive (thread (cam s)) = true -> is_alive (thread (cam s')) = false ->
     l = Reader /\
     (thread (cam s) = Some RLoopHead /\ stop_event (cam s) = Some true \/
      thread (cam s) = Some RRead /\ is_connected (cam s) = false)).
Proof.
  intros Hreach.
  assert (HI : Inv s) by (eapply inv_run; [apply inv_boot|exact Hreach]).
  assert (Hw : wired (cam s)) by exact (wired_run ls0 (boot cfg) s (wired_init cfg) Hreach).
  repeat apply conj.
  - intros Ht Hs Hc Hl.
    destruct (reader_iteration s Ht Hs Hc Hw Hl)
      as (s' & Hrun & Hlf & Hf & Ht' & _ & Hlog & Hh & _).
    exists s'. auto 7.
  - intros l s' Hs Hne.
    destruct (slot_written_under_lock l s s' HI Hs Hne) as (-> & Hl & _). auto.
  - intros ls s' Hrun. pose proof (inv_run ls s s' HI Hrun) as HI'.
    split; [apply (inv_slot s' HI')|apply (inv_hist s' HI')].
  - apply reader_exit_on_stop.
  - apply reader_exit_on_disconnect.
  - intros l s'. apply reader_exits_only. exact HI.
Qed.

End Steps.


(** C3 as stated fails: the claim that each publication is consumed
    exactly once fails by design of the single slot: of two frames Sim.published before a read only
    the second is ever delivered, and the next read times out. *)
Lemma publication_overwritten_before_read :
  ReadLoop.history <$>
    ReadLoop.run Sim.overwritten_run (ReadLoop.boot (Frame := nat) Sim.oakd_config) =
  Some [ReadLoop.Raised TimeoutError; ReadLoop.Returned (Some 15%nat);
        ReadLoop.Signalled; ReadLoop.Published 15%nat;
        ReadLoop.Signalled; ReadLoop.Published 13%nat; ReadLoop.Connected] /\
  (ReadLoop.publications ∘ ReadLoop.history) <$>
    ReadLoop.run Sim.overwritten_run (ReadLoop.boot (Frame := nat) Sim.oakd_config) =
  Some [15%nat; 13%nat] /\
  (ReadLoop.deliveries ∘ ReadLoop.history) <$>
    ReadLoop.run Sim.overwritten_run (ReadLoop.boot (Frame := nat) Sim.oakd_config) =
  Some [Some 15%nat].
Proof. vm_compute. auto. Qed.

(** A frame can also be delivered twice: the event is set outside the
    lock, so a read that clears it between the reader's store and the
    reader's [set] leaves the event set for a frame already delivered. *)
Lemma frame_delivered_twice :
  ReadLoop.history <$>
    ReadLoop.run Sim.overtaken_run (ReadLoop.boot (Frame := nat) Sim.oakd_config) =
  Some [ReadLoop.Returned (Some 15%nat); ReadLoop.Signalled;
        ReadLoop.Returned (Some 15%nat); ReadLoop.Published 15%nat;
        ReadLoop.Signalled; ReadLoop.Published 13%nat; ReadLoop.Connected].
Proof. vm_compute. reflexivity. Qed.

(** One more turn of the reader on the simulated camera. *)
Lemma read_loop_spec_witness :
  let s := Sim.system_on in
  exists s',
    ReadLoop.run (replicate 6 ReadLoop.Reader) s = Some s' /\
    OakD.latest_frame (ReadLoop.cam s') = Some (OakD.next_frame (ReadLoop.cam s)) /\
    ReadLoop.flag s' = true /\
    OakD.thread (ReadLoop.cam s') = Some OakD.RLoopHead /\
    OakD.sdk_log (ReadLoop.cam s') =
      OakD.sdk_log (ReadLoop.cam s) ++ [OakD.queue_get; OakD.getCvFrame] /\
    ReadLoop.history s' =
      ReadLoop.Signalled :: ReadLoop.Published (OakD.next_frame (ReadLoop.cam s))
        :: ReadLoop.history s.
Proof.
  intros s.
  assert (Hreach : ReadLoop.run (Sim.published 1) (ReadLoop.boot Sim.oakd_config) = Some s)
    by (vm_compute; reflexivity).
  destruct (read_loop_spec Sim.oakd_config (Sim.published 1) s Hreach) as (Hturn & _).
  apply Hturn; reflexivity.
Defined.

(* ===================================================================== *)
(** ** The camera: connecting and disconnecting                          *)
(* ===================================================================== *)

Section CameraLifecycle.
Context {Frame : Type} {dai : OakD.DepthAI Frame}.
Import OakD.

Local Abbreviation Camera := (OakDCamera Frame).

(** Evaluates a camera method on a camera given field by field, leaving
    the vendor's answers, the call log and the liveness test alone. *)
Ltac eval_camera :=
  cbv beta iota zeta delta
    -[app OakD.is_alive OakD.sdk_frame OakD.cvtColor_BGR2RGB OakD.CameraBoardSocket
      OakD.hasattr_CameraBoardSocket OakD.socket OakD.width OakD.height OakD.fps].
Ltac eval_camera_in H :=
  cbv beta iota zeta delta
    -[app OakD.is_alive OakD.sdk_frame OakD.cvtColor_BGR2RGB OakD.CameraBoardSocket
      OakD.hasattr_CameraBoardSocket OakD.socket OakD.width OakD.height OakD.fps] in H.

Lemma connect_run (warmup : bool) (c : Camera) :
  is_connected c = false ->
  CameraBoardSocket (socket (config c)) = true ->
  connect warmup c = (inr tt, Calls.connected warmup c).
Proof.
  intros Hc Hs. destruct c as [cfg pl dev qu th st lk lf ev log].
  unfold is_connected in Hc. cbn in Hc, Hs. destruct dev; [discriminate|].
  unfold Calls.connected. eval_camera. rewrite Hs.
  destruct warmup; destruct (is_alive th) eqn:Ha; eval_camera;
    rewrite <- ?app_assoc; reflexivity.
Qed.

Lemma disconnect_run (c : Camera) :
  is_connected c = true ->
  disconnect c = (inr tt, Calls.disconnected c).
Proof.
  intros Hc. destruct c as [cfg pl dev qu th st lk lf ev log].
  unfold is_connected in Hc. cbn in Hc. destruct dev; [|discriminate].
  destruct st; reflexivity.
Qed.

Lemma connected_is_connected (warmup : bool) (c : Camera) :
  is_connected (Calls.connected warmup c) = true /\ wired (Calls.connected warmup c).
Proof. split; [reflexivity|]. intros _. now eexists. Qed.

(** X2. [connect] on a camera whose rate and sizes are set and whose
    socket name is not the name of a socket raises after the six calls
    that build the pipeline: [AttributeError] when the lookup of the name
    finds nothing, [TypeError] out of [setBoardSocket] when it finds an
    attribute that is no socket.  The camera is left not connected,
    holding a pipeline object, with no device opened and no reader thread
    started; a second [connect] fails in the same way. *)
Theorem oakd_connect_unknown_socket (warmup warmup' : bool) (c : Camera) :
  is_connected c = false ->
  Calls.sized (config c) ->
  CameraBoardSocket (socket (config c)) = false ->
  exists e c',
    connect warmup c = (inl e, c') /\
    (hasattr_CameraBoardSocket (socket (config c)) = false ->
     e = AttributeError (socket (config c)) /\
     sdk_log c' = sdk_log c ++ Calls.configure_camera (config c)) /\
    (hasattr_CameraBoardSocket (socket (config c)) = true ->
     e = OtherError "TypeError" /\
     sdk_log c' =
       sdk_log c ++ Calls.configure_camera (config c)
         ++ [setBoardSocket (socket (config c))]) /\
    is_connected c' = false /\ pipeline c' = Some Handle /\
    queue c' = queue c /\ thread c' = thread c /\ stop_event c' = stop_event c /\
    fst (connect warmup' c') = inl e.
Proof.
  intros Hc _ Hs.
  destruct c as [cfg pl dev qu th st lk lf ev log].
  unfold is_connected in Hc. cbn in Hc, Hs. destruct dev; [discriminate|].
  eval_camera. rewrite Hs.
  destruct (hasattr_CameraBoardSocket (socket cfg)) eqn:Ha; eval_camera;
    eexists _, _; (split; [reflexivity|]); eval_camera; rewrite Hs, Ha; eval_camera;
    (split; [intros H; try discriminate H; split; rewrite <- ?app_assoc; reflexivity|]);
    (split; [intros H; try discriminate H; split; rewrite <- ?app_assoc; reflexivity|]);
    repeat split; reflexivity.
Qed.


End CameraLifecycle.


(** [connect] on a camera configured with the socket name ["CAM_Z"],
    which the lookup does not find. *)
Lemma oakd_connect_unknown_socket_witness :
  exists c',
    OakD.connect true Rig.camera_unknown = (inl (AttributeError "CAM_Z"), c') /\
    OakD.is_connected c' = false /\ OakD.pipeline c' = Some OakD.Handle.
Proof.
  assert (Hz : Calls.sized (OakD.config Rig.camera_unknown))
    by (repeat split; eexists; reflexivity).
  destruct (oakd_connect_unknown_socket (dai := Sim.depthai) true true Rig.camera_unknown
              eq_refl Hz eq_refl) as (e & c' & H1 & H2 & _ & H4 & H5 & _).
  destruct (H2 eq_refl) as [-> _].
  exists c'. split; [exact H1|]. split; [exact H4|exact H5].
Defined.


(* ===================================================================== *)
(** ** The camera and its reader: signals, deliveries and shutdown       *)
(* ===================================================================== *)

Section HandoffFacts.
Context {Frame : Type} {dai : OakD.DepthAI Frame}.
Import OakD ReadLoop Handoff.

Local Abbreviation Camera := (OakDCamera Frame).

Lemma paired_boot (cfg : OakDCameraConfig) : Paired (boot (Frame := Frame) cfg).
Proof.
  constructor; cbn; auto; try discriminate.
  intros [H|H]; discriminate.
Qed.

(** Closes the fields of [Paired] after a step. *)
Ltac paired_close :=
  cbn [about_to_signal past_wait]; auto; try discriminate; try lia; try (intros [?|?]; auto; discriminate).
Ltac paired_fields :=
  constructor; unfold owed, flag, signals, deliveries, publications in *;
  cbn in *; paired_close.

Lemma paired_tick (s : Sys Frame) : Paired s -> Paired (tick s).
Proof.
  intros [Hf Hs Hh Hd Hc Hp]. unfold tick. unfold owed, flag in *.
  destruct (main s) as [|d| | | |f|f|d|] eqn:Hm;
    [| destruct (negb (new_frame_event (cam s)) && (d <? clock s + 1))
     | | | | | | destruct (d <? clock s + 1) |];
    paired_fields.
Qed.

Lemma paired_reader (s s' : Sys Frame) :
  Paired s -> with_cam s (reader_step (cam s)) = Some s' -> Paired s'.
Proof.
  intros [Hf Hs Hh Hd Hc Hp] H. unfold with_cam in H.
  destruct (reader_step (cam s)) as [[c' evs]|] eqn:Hr; [|discriminate].
  injection H as <-.
  apply reader_step_view in Hr as (pc & pc' & Ht & Ht' & Hse & Hv).
  unfold owed, flag in *. rewrite Ht in Hs, Hp.
  destruct pc as [| |f|f| | |].
  - destruct Hv as (Hpc & -> & Hlk & Hlf & Hfl & _).
    destruct Hpc as [[-> _]|[-> _]]; paired_fields; rewrite ?Ht', ?Hlf, ?Hfl; paired_close.
  - destruct Hv as (Hpc & -> & Hlk & Hlf & Hfl).
    destruct Hpc as [(-> & _)|[(-> & _)|(-> & _)]];
      paired_fields; rewrite ?Ht', ?Hlf, ?Hfl; paired_close.
  - destruct Hv as (-> & -> & Hfree & Hlk & Hlf & Hfl & _).
    paired_fields; rewrite ?Ht', ?Hlf, ?Hfl; paired_close.
  - destruct Hv as (-> & -> & Hlk & Hlf & Hfl & _).
    paired_fields; rewrite ?Ht', ?Hlf, ?Hfl; paired_close.
  - destruct Hv as (-> & -> & Hlk & Hlf & Hfl & _).
    paired_fields; rewrite ?Ht', ?Hlf, ?Hfl; paired_close.
  - destruct Hv as (-> & -> & Hlk & Hlf & Hfl & _).
    paired_fields; rewrite ?Ht', ?Hlf, ?Hfl; paired_close.
  - destruct Hv.
Qed.

Lemma paired_fault (s s' : Sys Frame) :
  Paired s -> with_cam s (reader_fault (cam s)) = Some s' -> Paired s'.
Proof.
  intros [Hf Hs Hh Hd Hc Hp] H. unfold with_cam in H.
  destruct (reader_fault (cam s)) as [[c' evs]|] eqn:Hr; [|discriminate].
  injection H as <-.
  apply reader_fault_view in Hr as (Ht & Ht' & _ & Hse & -> & Hlk & Hlf & Hfl).
  unfold owed, flag in *. rewrite Ht in Hs, Hp.
  paired_fields; rewrite ?Ht', ?Hlf, ?Hfl; paired_close.
Qed.

(** A method entered or left by the calling thread outside the [with]
    block, which keeps the slot and logs no delivery, no publication and
    no signal. *)
Lemma paired_enter (s : Sys Frame) (c' : Camera) (pc' : main_pc Frame)
    (h' : list (event Frame)) (clk : Z) :
  Paired s ->
  main_holds (main s) = false ->
  same_slot (cam s) c' ->
  main_holds pc' = false -> past_wait pc' = false ->
  deliveries h' = deliveries (history s) ->
  signals h' = signals (history s) ->
  publications h' = publications (history s) ->
  Paired (mkSys c' pc' clk h').
Proof.
  intros [Hf Hs Hh Hd Hc Hp] Hm (Hlk & Hlf & Hfl & Hth) Hpc Hpw Hde Hsi Hpu.
  unfold owed, flag in *.
  assert (Hab : about_to_signal (thread c') = about_to_signal (thread (cam s))).
  { destruct Hth as [[-> _]|(Hdead & -> & _)]; [auto|].
    destruct (thread (cam s)) as [[]|]; cbn in *; congruence. }
  constructor; unfold owed, flag; cbn [cam main history];
    rewrite ?Hlf, ?Hfl, ?Hde, ?Hsi, ?Hpu, ?Hab; auto.
  - rewrite Hpw. discriminate.
  - destruct pc'; cbn in Hpc; try discriminate; exact I.
  - destruct pc'; cbn in Hpc; try discriminate;
      destruct (main s); cbn in Hm; try discriminate; lia.
Qed.

Lemma paired_main (s s' : Sys Frame) : Paired s -> main_step s = Some s' -> Paired s'.
Proof.
  intros HP H. pose proof HP as [Hf Hs Hh Hd Hc Hp]. unfold main_step in H.
  unfold owed, flag in *.
  destruct (main s) as [|d| | | |f|f|d|] eqn:Hm.
  - discriminate.
  - destruct (new_frame_event (cam s)) eqn:Hfl; [|discriminate]. injection H as <-.
    paired_fields; rewrite ?Hm, ?Hfl in *; paired_close.
  - injection H as <-. paired_fields; rewrite ?Hm in *; paired_close.
  - destruct (frame_lock (cam s)) eqn:Hlk; [discriminate|]. injection H as <-.
    paired_fields; rewrite ?Hm in *; paired_close.
  - injection H as <-. paired_fields; rewrite ?Hm in *; paired_close.
  - injection H as <-. paired_fields; rewrite ?Hm in *; paired_close.
    rewrite Hf in Hc by reflexivity. lia.
  - injection H as <-. paired_fields; rewrite ?Hm in *; paired_close.
  - destruct (is_alive (thread (cam s))); [discriminate|]. injection H as <-.
    paired_fields; rewrite ?Hm in *; paired_close.
  - pose proof (keeps_disconnect_close (cam s)) as Hk.
    destruct (disconnect_close (cam s)) as [[e|u] c'] eqn:Hdc; cbn [snd] in Hk;
      injection H as <-; (apply (paired_enter s); [assumption|now rewrite Hm|assumption|..]);
      reflexivity.
Qed.

Lemma paired_call (op : Op) (s s' : Sys Frame) :
  Paired s -> call_step op s = Some s' -> Paired s'.
Proof.
  intros HP H. unfold call_step in H.
  destruct (main s) eqn:Hm; try discriminate.
  destruct op as [timeout_ms| |warmup].
  - pose proof (keeps_async_read_enter (cam s)) as Hk.
    destruct (async_read_enter (cam s)) as [[e|u] c'] eqn:Hd; cbn [snd] in Hk;
      injection H as <-; (apply (paired_enter s); [assumption|now rewrite Hm|assumption|..]);
      reflexivity.
  - pose proof (keeps_disconnect_enter (cam s)) as Hk.
    destruct (disconnect_enter (cam s)) as [[e|u] c'] eqn:Hd; cbn [snd] in Hk;
      injection H as <-; (apply (paired_enter s); [assumption|now rewrite Hm|assumption|..]);
      try reflexivity; now destruct (is_alive (thread c')).
  - pose proof (keeps_connect warmup (cam s)) as Hk.
    destruct (connect warmup (cam s)) as [[e|u] c'] eqn:Hd; cbn [snd] in Hk;
      injection H as <-; (apply (paired_enter s); [assumption|now rewrite Hm|assumption|..]);
      reflexivity.
Qed.

Lemma paired_step (l : label) (s s' : Sys Frame) :
  Paired s -> step l s = Some s' -> Paired s'.
Proof.
  intros HP H. destruct l; cbn [step] in H.
  - injection H as <-. now apply paired_tick.
  - eapply paired_reader; eassumption.
  - eapply paired_fault; eassumption.
  - eapply paired_main; eassumption.
  - eapply paired_call; eassumption.
Qed.

Lemma paired_run (ls : list label) (s s' : Sys Frame) :
  Paired s -> run ls s = Some s' -> Paired s'.
Proof.
  revert s. induction ls as [|l ls IH]; intros s HP H; cbn [run] in H.
  - now injection H as <-.
  - destruct (step l s) as [s1|] eqn:Hs; [|discriminate].
    eapply IH; [|exact H]. eapply paired_step; eassumption.
Qed.


Lemma latest_published_In (h : list (event Frame)) (f : Frame) :
  latest_published h = Some f -> In (Published f) h.
Proof.
  induction h as [|e h IH]; [discriminate|].
  destruct e; cbn; intros H; auto.
  injection H as ->. now left.
Qed.

Lemma delivered_was_published (h : list (event Frame)) (f : option Frame) :
  deliveries_are_latest h -> Forall is_Some (deliveries h) ->
  In (Returned f) h ->
  exists fr, f = Some fr /\ In (Published fr) h.
Proof.
  induction h as [|e h IH]; [intros _ _ []|].
  intros Hl Hd [->|Hin].
  - cbn in Hl, Hd. destruct Hl as [Hf _]. apply Forall_cons in Hd as [[fr ->] _].
    exists fr. split; [reflexivity|]. right. now apply latest_published_In.
  - assert (Hl' : deliveries_are_latest h) by (destruct e; cbn in Hl; tauto).
    assert (Hd' : Forall is_Some (deliveries h)).
    { destruct e; cbn in Hd; auto. now apply Forall_cons in Hd as [_ ?]. }
    destruct (IH Hl' Hd' Hin) as (fr & -> & Hp). exists fr. split; [reflexivity|now right].
Qed.

(** X5. In every state reached from a fresh camera the lock is held by
    exactly the thread that is inside its [with self.frame_lock] block, the
    two threads are never inside their blocks together, and the holder is
    never blocked: left alone it releases the lock within two statements
    (reader) or three (calling thread). *)
Theorem frame_lock_mutual_exclusion (cfg : OakDCameraConfig) (ls : list label)
    (s : Sys Frame) :
  run ls (boot cfg) = Some s ->
  reader_holds (thread (cam s)) && main_holds (main s) = false /\
  (frame_lock (cam s) = Some ReaderThread <-> reader_holds (thread (cam s)) = true) /\
  (frame_lock (cam s) = Some MainThread <-> main_holds (main s) = true) /\
  (frame_lock (cam s) = Some ReaderThread ->
   exists n s', (n <= 2)%nat /\ run (replicate n Reader) s = Some s' /\
                frame_lock (cam s') = None) /\
  (frame_lock (cam s) = Some MainThread ->
   exists n s', (n <= 3)%nat /\ run (replicate n Main) s = Some s' /\
                frame_lock (cam s') = None).
Proof.
  intros Hrun.
  destruct (inv_run ls _ _ (inv_boot cfg) Hrun) as [Hl He _ _ _ _].
  assert (Hr : frame_lock (cam s) = Some ReaderThread <->
               reader_holds (thread (cam s)) = true).
  { rewrite Hl. destruct (reader_holds (thread (cam s))); [tauto|].
    destruct (main_holds (main s)); split; discriminate. }
  assert (Hm : frame_lock (cam s) = Some MainThread <->
               main_holds (main s) = true).
  { rewrite Hl. destruct (reader_holds (thread (cam s))); cbn in He.
    - rewrite He. split; discriminate.
    - destruct (main_holds (main s)); [tauto|]. split; discriminate. }
  split; [exact He|]. split; [exact Hr|]. split; [exact Hm|]. split.
  - intros Hlk. apply Hr in Hlk.
    destruct s as [c pc clk h]. destruct c as [cfg0 pl dev qu th st lk lf ev log].
    cbn in Hlk |- *.
    destruct th as [[| |f|f| | |]|]; try discriminate.
    + exists 2%nat. eexists. split; [lia|]. split; reflexivity.
    + exists 1%nat. eexists. split; [lia|]. split; reflexivity.
  - intros Hlk. apply Hm in Hlk.
    destruct s as [c pc clk h]. cbn in Hlk |- *.
    destruct pc as [|d| | | |f|f|d|]; try discriminate.
    + exists 3%nat. eexists. split; [lia|]. split; reflexivity.
    + exists 2%nat. eexists. split; [lia|]. split; reflexivity.
    + exists 1%nat. eexists. split; [lia|]. split; reflexivity.
Qed.

(** X6. Whatever the interleaving, an [async_read] that returns hands out
    a frame, never [None], and that frame is one the reader thread
    published before. *)
Theorem async_read_returns_published_frame (cfg : OakDCameraConfig)
    (ls : list label) (s : Sys Frame) (f : option Frame) :
  run ls (boot cfg) = Some s ->
  In (Returned f) (history s) ->
  exists fr, f = Some fr /\ In (Published fr) (history s).
Proof.
  intros Hrun Hin.
  pose proof (inv_run ls _ _ (inv_boot cfg) Hrun) as [_ _ _ _ _ Hl].
  pose proof (paired_run ls _ _ (paired_boot cfg) Hrun) as [_ _ _ Hd _ _].
  eapply delivered_was_published; eassumption.
Qed.

(** X7. Counting over any execution from a fresh camera: the frames
    [async_read] has returned are at most the signals the reader has
    given, and every signal follows a publication of its own, so that the
    publications are the signals plus at most one frame stored and not yet
    signalled.  An event that is set stands for a signal not yet turned
    into a return. *)
Theorem deliveries_bounded_by_signals (cfg : OakDCameraConfig)
    (ls : list label) (s : Sys Frame) :
  run ls (boot cfg) = Some s ->
  (length (deliveries (history s)) + (if flag s then 1 else 0)
     <= signals (history s))%nat /\
  (signals (history s) <= length (publications (history s))
     <= signals (history s) + 1)%nat /\
  (length (publications (history s)) = signals (history s) <->
   about_to_signal (thread (cam s)) = false).
Proof.
  intros Hrun.
  pose proof (paired_run ls _ _ (paired_boot cfg) Hrun) as [_ _ _ _ Hc Hp].
  unfold owed in Hc.
  destruct (about_to_signal (thread (cam s))); (split; [lia|]); (split; [lia|]);
    split; try lia; try discriminate; auto.
Qed.

(** The reader ends after [n] statements, in state [s']. *)
Ltac stops_after n s' :=
  exists n, s'; split; [lia|]; split; [vm_compute; reflexivity|];
  cbn; repeat split; auto; try lia;
  first [left; reflexivity | right; rewrite <- app_assoc; reflexivity].

(** X8. Once the stop event is set, a live reader thread ends within six
    of its own statements, whatever statement it stands at, provided the
    calling thread is not inside its [with] block; on the way it publishes
    at most one more frame and asks the vendor for at most one. *)
Theorem reader_stops_within_one_turn (cfg : OakDCameraConfig) (ls : list label)
    (s : Sys Frame) :
  run ls (boot cfg) = Some s ->
  stop_event (cam s) = Some true ->
  is_alive (thread (cam s)) = true ->
  main_holds (main s) = false ->
  exists n s',
    (n <= 6)%nat /\ run (replicate n Reader) s = Some s' /\
    thread (cam s') = Some RDone /\ is_alive (thread (cam s')) = false /\
    main s' = main s /\ clock s' = clock s /\
    (length (publications (history s'))
       <= length (publications (history s)) + 1)%nat /\
    (sdk_log (cam s') = sdk_log (cam s) \/
     sdk_log (cam s') = sdk_log (cam s) ++ [queue_get; getCvFrame]).
Proof.
  intros Hrun Hstop Halive Hmh.
  destruct (inv_run ls _ _ (inv_boot cfg) Hrun) as [Hl _ _ _ _ _].
  destruct s as [c pc clk h]. destruct c as [cfg0 pl dev qu th st lk lf ev log].
  cbn in Hstop, Halive, Hmh, Hl. subst st. rewrite Hmh in Hl.
  destruct th as [[| |f|f| | |]|]; cbn in Halive, Hl; try discriminate.
  - stops_after 1%nat
      (mkSys (mkOakDCamera cfg0 pl dev qu (Some RDone) (Some true) lk lf ev log) pc clk h).
  - destruct dev as [d|]; [destruct qu as [q|]|].
    + subst lk.
      stops_after 6%nat
        (mkSys (mkOakDCamera cfg0 pl (Some d) (Some q) (Some RDone) (Some true) None
                  (Some (cvtColor_BGR2RGB (sdk_frame (log ++ [queue_get])))) true
                  ((log ++ [queue_get]) ++ [getCvFrame]))
           pc clk
           (Signalled :: Published (cvtColor_BGR2RGB (sdk_frame (log ++ [queue_get]))) :: h)).
    + stops_after 2%nat
        (mkSys (mkOakDCamera cfg0 pl (Some d) None (Some RDone) (Some true) lk lf ev log)
           pc clk h).
    + stops_after 1%nat
        (mkSys (mkOakDCamera cfg0 pl None qu (Some RDone) (Some true) lk lf ev log)
           pc clk h).
  - subst lk.
    stops_after 5%nat
      (mkSys (mkOakDCamera cfg0 pl dev qu (Some RDone) (Some true) None (Some f) true log)
         pc clk (Signalled :: Published f :: h)).
  - stops_after 4%nat
      (mkSys (mkOakDCamera cfg0 pl dev qu (Some RDone) (Some true) None (Some f) true log)
         pc clk (Signalled :: Published f :: h)).
  - stops_after 3%nat
      (mkSys (mkOakDCamera cfg0 pl dev qu (Some RDone) (Some true) None lf true log)
         pc clk (Signalled :: h)).
  - stops_after 2%nat
      (mkSys (mkOakDCamera cfg0 pl dev qu (Some RDone) (Some true) lk lf true log)
         pc clk (Signalled :: h)).
Qed.

Lemma ticks_idle (n : nat) (s : Sys Frame) :
  (forall d, main s <> MWait d) -> (forall d, main s <> MJoin d) ->
  run (replicate n Tick) s =
    Some (mkSys (cam s) (main s) (clock s + Z.of_nat n) (history s)).
Proof.
  revert s. induction n as [|n IH]; intros s Hw Hj.
  - cbn [replicate run]. replace (clock s + Z.of_nat 0) with (clock s) by lia.
    now destruct s.
  - cbn [replicate run step].
    assert (Ht : tick s = mkSys (cam s) (main s) (clock s + 1) (history s)).
    { unfold tick. destruct (main s); try reflexivity; [now destruct (Hw deadline)
                                                        |now destruct (Hj deadline)]. }
    rewrite Ht, IH by (cbn; assumption). cbn. do 2 f_equal. lia.
Qed.

(** While [join] waits, time passing changes nothing until the deadline is
    behind; then the calling thread is about to close the device. *)
Lemma ticks_join (n : nat) (s : Sys Frame) (d : Z) :
  main s = MJoin d -> clock s <= d ->
  run (replicate n Tick) s =
    Some (mkSys (cam s)
            (if d <? clock s + Z.of_nat n then MClose else MJoin d)
            (clock s + Z.of_nat n) (history s)).
Proof.
  revert s. induction n as [|n IH]; intros s Hm Hd.
  - cbn [replicate run]. replace (clock s + Z.of_nat 0) with (clock s) by lia.
    destruct (Z.ltb_spec d (clock s)); [lia|].
    destruct s; cbn in *. now subst.
  - cbn [replicate run step].
    destruct (Z.ltb_spec d (clock s + 1)) as [Hlt|Hge].
    + assert (Ht : tick s = mkSys (cam s) MClose (clock s + 1) (history s)).
      { unfold tick. rewrite Hm. destruct (Z.ltb_spec d (clock s + 1)); [reflexivity|lia]. }
      rewrite Ht, ticks_idle by (cbn; discriminate). cbn.
      destruct (Z.ltb_spec d (clock s + Z.of_nat (S n))); [|lia].
      do 2 f_equal. lia.
    + assert (Ht : tick s = mkSys (cam s) (MJoin d) (clock s + 1) (history s)).
      { unfold tick. rewrite Hm. destruct (Z.ltb_spec d (clock s + 1)); [lia|reflexivity]. }
      rewrite Ht, IH by (cbn; auto; lia). cbn.
      replace (clock s + 1 + Z.of_nat n) with (clock s + Z.of_nat (S n)) by lia.
      reflexivity.
Qed.

Lemma run_cons (l : label) (ls : list label) (s s1 : Sys Frame) :
  step l s = Some s1 -> run (l :: ls) s = run ls s1.
Proof. intros H. cbn [run]. now rewrite H. Qed.

Lemma run_app (ls1 ls2 : list label) (s : Sys Frame) :
  run (ls1 ++ ls2) s = match run ls1 s with
                       | Some s1 => run ls2 s1
                       | None => None
                       end.
Proof.
  revert s. induction ls1 as [|l ls1 IH]; intros s; [reflexivity|].
  cbn [app run]. destruct (step l s); [apply IH|reflexivity].
Qed.

(** [disconnect] entered with a live reader: the stop event is set and
    the calling thread joins the reader for two seconds. *)
Lemma disconnect_call (s : Sys Frame) :
  main s = MIdle ->
  is_connected (cam s) = true ->
  is_alive (thread (cam s)) = true ->
  step (Call Disconnect) s =
    Some (mkSys (set_stop_event
                   (match stop_event (cam s) with Some _ => Some true | None => None end)
                   (cam s))
            (MJoin (clock s + 2000)) (clock s) (history s)).
Proof.
  intros Hm Hc Ha.
  destruct s as [c pc clk h]. destruct c as [cfg0 pl dev qu th st lk lf ev log].
  cbn in Hm, Hc, Ha. subst pc. destruct dev as [d|]; [|discriminate].
  cbn. destruct st; cbn; rewrite Ha; reflexivity.
Qed.

(** The reader makes no progress: the join times out and the device is
    closed. *)
Lemma join_timeout_run (s : Sys Frame) :
  main s = MIdle ->
  is_connected (cam s) = true ->
  is_alive (thread (cam s)) = true ->
  run (Call Disconnect :: replicate (Z.to_nat 2001) Tick ++ [Main]) s =
    Some (mkSys (Calls.disconnected (cam s)) MIdle (clock s + 2001)
            (Disconnected :: history s)).
Proof.
  intros Hm Hc Ha.
  rewrite (run_cons _ _ _ _ (disconnect_call s Hm Hc Ha)), run_app.
  rewrite (ticks_join (Z.to_nat 2001) _ (clock s + 2000)) by (cbn [main clock]; auto; lia).
  cbn [cam clock history]. rewrite Z2Nat.id by lia.
  destruct (Z.ltb_spec (clock s + 2000) (clock s + 2001)); [|lia].
  destruct s as [c pc clk h]. destruct c as [cfg0 pl dev qu th st lk lf ev log].
  cbn in Hc. destruct dev as [d|]; [|discriminate].
  reflexivity.
Qed.

(** X9. [disconnect] does not depend on the reader thread: when the
    reader is alive and makes no progress, [join] holds the calling thread
    for the two seconds of its timeout and no longer; the device is then
    closed with the reader thread still alive and its stop event set. *)
Theorem disconnect_closes_after_join_timeout (s : Sys Frame) :
  main s = MIdle ->
  is_connected (cam s) = true ->
  is_alive (thread (cam s)) = true ->
  (forall n, Z.of_nat n <= 2000 ->
     exists s1, run (Call Disconnect :: replicate n Tick) s = Some s1 /\
                main s1 = MJoin (clock s + 2000) /\ step Main s1 = None) /\
  exists s',
    run (Call Disconnect :: replicate (Z.to_nat 2001) Tick ++ [Main]) s = Some s' /\
    history s' = Disconnected :: history s /\
    main s' = MIdle /\ clock s' = clock s + 2001 /\
    is_connected (cam s') = false /\
    thread (cam s') = thread (cam s) /\
    stop_event (cam s') =
      match stop_event (cam s) with Some _ => Some true | None => None end /\
    sdk_log (cam s') = sdk_log (cam s) ++ [device_close].
Proof.
  intros Hm Hc Ha. split.
  - intros n Hn. rewrite (run_cons _ _ _ _ (disconnect_call s Hm Hc Ha)).
    rewrite (ticks_join n _ (clock s + 2000)) by (cbn [main clock]; auto; lia).
    cbn [cam clock history].
    destruct (Z.ltb_spec (clock s + 2000) (clock s + Z.of_nat n)); [lia|].
    eexists. split; [reflexivity|]. split; [reflexivity|].
    cbn. now rewrite Ha.
  - eexists. split; [now apply join_timeout_run|]. cbn. repeat split.
Qed.

(** X10. A reconnection that follows a timed-out [join] inherits the stop
    request: [connect] finds the old reader alive, starts no new one and
    leaves the stop event set, so the camera is connected with a reader
    that ends at its next look at the stop event.  The restart at the
    head of [async_read] then creates a fresh reader and a fresh stop
    event. *)
Theorem stale_stop_request_after_reconnect (warmup : bool) (timeout_ms : Z)
    (s : Sys Frame) :
  main s = MIdle ->
  is_connected (cam s) = true ->
  is_alive (thread (cam s)) = true ->
  is_Some (stop_event (cam s)) ->
  CameraBoardSocket (socket (config (cam s))) = true ->
  exists s1,
    run (Call Disconnect :: replicate (Z.to_nat 2001) Tick
           ++ [Main; Call (Connect warmup)]) s = Some s1 /\
    history s1 = Connected :: Disconnected :: history s /\
    is_connected (cam s1) = true /\
    thread (cam s1) = thread (cam s) /\
    stop_event (cam s1) = Some true /\
    (thread (cam s) = Some RLoopHead ->
     exists s2 s3,
       step Reader s1 = Some s2 /\
       thread (cam s2) = Some RDone /\ is_connected (cam s2) = true /\
       step (Call (AsyncRead timeout_ms)) s2 = Some s3 /\
       thread (cam s3) = Some RLoopHead /\ stop_event (cam s3) = Some false /\
       main s3 = MWait (clock s2 + Z.max 0 timeout_ms)).
Proof.
  intros Hm Hc Ha [b Hst] Hs.
  assert (Hrun : run (Call Disconnect :: replicate (Z.to_nat 2001) Tick
                        ++ [Main; Call (Connect warmup)]) s =
                 Some (mkSys (Calls.connected warmup (Calls.disconnected (cam s))) MIdle
                         (clock s + 2001) (Connected :: Disconnected :: history s))).
  { change (Call Disconnect :: replicate (Z.to_nat 2001) Tick
              ++ [Main; Call (Connect warmup)])
      with (Call Disconnect :: replicate (Z.to_nat 2001) Tick
              ++ [Main] ++ [Call (Connect warmup)]).
    rewrite app_assoc, app_comm_cons, run_app, (join_timeout_run s Hm Hc Ha).
    cbn [run step]. unfold call_step. cbn [main cam clock history].
    rewrite connect_run by (try reflexivity; exact Hs). reflexivity. }
  eexists. split; [exact Hrun|]. cbn [history cam].
  split; [reflexivity|]. split; [reflexivity|].
  assert (Hth : thread (Calls.connected warmup (Calls.disconnected (cam s)))
                = thread (cam s)).
  { unfold Calls.connected, Calls.disconnected. cbn. now rewrite Ha. }
  assert (Hse : stop_event (Calls.connected warmup (Calls.disconnected (cam s)))
                = Some true).
  { unfold Calls.connected, Calls.disconnected. cbn. now rewrite Ha, Hst. }
  split; [exact Hth|]. split; [exact Hse|].
  intros Hhead. rewrite Hhead in Hth.
  set (s1 := mkSys (Calls.connected warmup (Calls.disconnected (cam s))) MIdle
               (clock s + 2001) (Connected :: Disconnected :: history s)) in *.
  assert (H2 : step Reader s1 =
               Some (mkSys (set_thread (Some RDone) (cam s1)) MIdle (clock s1) (history s1))).
  { cbn [step]. unfold with_cam, reader_step. cbn [cam s1]. rewrite Hth, Hse. reflexivity. }
  eexists _, _. split; [exact H2|]. cbn [cam].
  split; [reflexivity|]. split; [reflexivity|].
  split; [|split; [|split]]; reflexivity.
Qed.

(** X11. With the new-frame event set and the lock free, [async_read]
    returns the frame in the slot at once, whatever timeout it is given
    among those [wait] takes, zero and negative ones included: no time
    passes and no vendor call is made.
    The event is then clear, and a further [async_read] blocks in [wait]
    until the reader signals again or the timeout passes. *)
Theorem async_read_takes_pending_frame {thr : Threading}
    (timeout_ms timeout_ms' : Z) (s : Sys Frame) :
  wait_accepts timeout_ms = true ->
  wait_accepts timeout_ms' = true ->
  main s = MIdle ->
  is_connected (cam s) = true ->
  flag s = true ->
  frame_lock (cam s) = None ->
  exists s' s2,
    run (Call (AsyncRead timeout_ms) :: replicate 5 Main) s = Some s' /\
    history s' = Returned (latest_frame (cam s)) :: history s /\
    clock s' = clock s /\ main s' = MIdle /\ flag s' = false /\
    latest_frame (cam s') = latest_frame (cam s) /\
    frame_lock (cam s') = None /\
    sdk_log (cam s') = sdk_log (cam s) /\
    step (Call (AsyncRead timeout_ms')) s' = Some s2 /\
    main s2 = MWait (clock s + Z.max 0 timeout_ms') /\
    step Main s2 = None.
Proof.
  intros _ _ Hm Hc Hf Hl.
  destruct s as [c pc clk h]. destruct c as [cfg0 pl dev qu th st lk lf ev log].
  unfold flag in *. cbn in Hm, Hc, Hf, Hl. subst pc ev lk.
  destruct dev as [d|]; [|discriminate].
  destruct th as [[| |f|f| | |]|];
    (eexists _, _; split; [vm_compute; reflexivity|]);
    cbn; repeat split; reflexivity.
Qed.

(** *** What the calling thread leaves alone                              *)

(** The reader changes none of the vendor objects nor the stop event, and
    every vendor call it makes is one of the two calls of a [read]. *)
Lemma reader_step_keeps (c c' : Camera) (evs : list (event Frame)) :
  reader_step c = Some (c', evs) \/ reader_fault c = Some (c', evs) ->
  config c' = config c /\ pipeline c' = pipeline c /\ device c' = device c /\
  queue c' = queue c /\ stop_event c' = stop_event c /\
  exists reads, sdk_log c' = sdk_log c ++ reads /\
                forallb Calls.is_read reads = true.
Proof.
  destruct c as [cfg pl dev qu th st lk lf ev log].
  intros [H|H].
  - unfold reader_step in H. cbn in H.
    destruct th as [[| |f|f| | |]|]; try discriminate.
    + destruct st as [[|]|]; injection H as <- <-; cbn; repeat split;
        exists []; now rewrite app_nil_r.
    + destruct dev as [d|]; [destruct qu as [q|]|]; cbn in H;
        injection H as <- <-; cbn; repeat split;
        first [ exists []; now rewrite app_nil_r
              | exists [queue_get; getCvFrame]; now rewrite <- app_assoc ].
    + destruct lk; [discriminate|]. injection H as <- <-; cbn; repeat split;
        exists []; now rewrite app_nil_r.
    + injection H as <- <-; cbn; repeat split; exists []; now rewrite app_nil_r.
    + injection H as <- <-; cbn; repeat split; exists []; now rewrite app_nil_r.
    + injection H as <- <-; cbn; repeat split; exists []; now rewrite app_nil_r.
  - unfold reader_fault in H. cbn in H.
    destruct th as [[| |f|f| | |]|]; try discriminate.
    destruct dev as [d|]; [|discriminate]. cbn in H.
    injection H as <- <-; cbn; repeat split. now exists [queue_get].
Qed.

Lemma kept_refl (s : Sys Frame) : kept s s.
Proof. unfold kept. auto. Qed.

Lemma kept_trans (s1 s2 s3 : Sys Frame) : kept s1 s2 -> kept s2 s3 -> kept s1 s3.
Proof.
  intros (Hf1 & Hs1 & Hd1 & Hl1 & He1) (Hf2 & Hs2 & Hd2 & Hl2 & He2).
  unfold kept. repeat split; auto; try congruence; try lia.
  intros E. rewrite He2, He1 by lia. reflexivity.
Qed.

(** The same camera fields and a history that grew by events which are
    neither deliveries nor publications. *)
Lemma kept_same_slot (s : Sys Frame) (c' : Camera) (pc' : main_pc Frame)
    (clk : Z) (h' : list (event Frame)) :
  latest_frame c' = latest_frame (cam s) ->
  new_frame_event c' = new_frame_event (cam s) ->
  deliveries h' = deliveries (history s) ->
  publications h' = publications (history s) ->
  kept s (mkSys c' pc' clk h').
Proof.
  intros Hl Hf Hd Hp. unfold kept, flag. cbn [cam history].
  rewrite Hl, Hf, Hd, Hp. auto.
Qed.

(** One step that is no entry into [async_read], taken while the calling
    thread is not inside [async_read]. *)
Lemma calm_step (l : label) (s s' : Sys Frame) :
  no_async_read l = true ->
  reading (main s) = false ->
  step l s = Some s' ->
  reading (main s') = false /\ kept s s'.
Proof.
  intros Hl Hm H. destruct l as [| | | |op]; cbn [step] in H.
  - injection H as <-. unfold tick.
    destruct (main s) as [|d| | | |f|f|d|] eqn:E; try discriminate.
    + split; [reflexivity|]. now apply kept_same_slot.
    + destruct (d <? clock s + 1); (split; [reflexivity|]); now apply kept_same_slot.
    + split; [reflexivity|]. now apply kept_same_slot.
  - unfold with_cam in H.
    destruct (reader_step (cam s)) as [[c' evs]|] eqn:Hr; [|discriminate].
    injection H as <-. split; [exact Hm|].
    apply reader_step_view in Hr as (pc & pc' & Ht & Ht' & Hse & Hv).
    destruct pc as [| |f|f| | |].
    + destruct Hv as (_ & -> & _ & Hlf & Hfl & _). now apply kept_same_slot.
    + destruct Hv as (_ & -> & _ & Hlf & Hfl). now apply kept_same_slot.
    + destruct Hv as (_ & -> & _ & _ & Hlf & Hfl & _). now apply kept_same_slot.
    + destruct Hv as (_ & -> & _ & Hlf & Hfl & _).
      unfold kept, flag. cbn. rewrite Hlf, Hfl.
      split; [auto|]. split; [intros _; now eexists|]. split; [reflexivity|].
      unfold publications. split; [lia|]. intros E. exfalso. lia.
    + destruct Hv as (_ & -> & _ & Hlf & Hfl & _). now apply kept_same_slot.
    + destruct Hv as (_ & -> & _ & Hlf & Hfl & _).
      unfold kept, flag. cbn. rewrite Hlf, Hfl. repeat split; auto.
    + destruct Hv.
  - unfold with_cam in H.
    destruct (reader_fault (cam s)) as [[c' evs]|] eqn:Hr; [|discriminate].
    injection H as <-. split; [exact Hm|].
    apply reader_fault_view in Hr as (_ & _ & _ & _ & -> & _ & Hlf & Hfl).
    now apply kept_same_slot.
  - unfold main_step in H.
    destruct (main s) as [|d| | | |f|f|d|] eqn:E; try discriminate.
    + destruct (is_alive (thread (cam s))); [discriminate|]. injection H as <-.
      split; [reflexivity|]. now apply kept_same_slot.
    + pose proof (keeps_disconnect_close (cam s)) as (_ & Hlf & Hfl & _).
      destruct (disconnect_close (cam s)) as [[e|u] c']; cbn [snd] in Hlf, Hfl;
        injection H as <-; (split; [reflexivity|]); now apply kept_same_slot.
  - pose proof (call_step_cam op s s' H) as (_ & Hlf & Hfl & _).
    unfold call_step in H. destruct (main s) eqn:E; try discriminate.
    destruct op as [t| |w]; [discriminate Hl| |].
    + destruct (disconnect_enter (cam s)) as [[e|u] c'];
        injection H as <-; cbn [cam] in Hlf, Hfl;
        (split; [try reflexivity; now destruct (is_alive (thread c'))|]);
        now apply kept_same_slot.
    + destruct (connect w (cam s)) as [[e|u] c'];
        injection H as <-; cbn [cam] in Hlf, Hfl;
        (split; [reflexivity|]); now apply kept_same_slot.
Qed.

Lemma calm_run (ls : list label) (s s' : Sys Frame) :
  forallb no_async_read ls = true ->
  reading (main s) = false ->
  run ls s = Some s' ->
  reading (main s') = false /\ kept s s'.
Proof.
  revert s. induction ls as [|l ls IH]; intros s Hls Hm H; cbn [run] in H.
  - injection H as <-. split; [exact Hm|apply kept_refl].
  - cbn [forallb] in Hls. apply andb_true_iff in Hls as [Hl Hls].
    destruct (step l s) as [s1|] eqn:Hs; [|discriminate].
    destruct (calm_step l s s1 Hl Hm Hs) as [Hm1 Hk1].
    destruct (IH s1 Hls Hm1 H) as [Hm' Hk']. split; [exact Hm'|].
    eapply kept_trans; eassumption.
Qed.

(** X4. The calling thread's [connect] and [disconnect] never touch the
    mailbox.  Over any execution in which [async_read] is not called,
    whatever else is called and however the reader moves, a new-frame
    event that is set stays set, no frame is delivered, and the slot
    holds the frame it held unless the reader published another: a frame
    published before a disconnection can be the first one [async_read]
    returns after the reconnection. *)
Theorem mailbox_survives_reconnect (ls : list label) (s s' : Sys Frame) :
  main s = MIdle ->
  forallb no_async_read ls = true ->
  run ls s = Some s' ->
  (flag s = true -> flag s' = true) /\
  (is_Some (latest_frame (cam s)) -> is_Some (latest_frame (cam s'))) /\
  deliveries (history s') = deliveries (history s) /\
  (publications (history s') = publications (history s) ->
   latest_frame (cam s') = latest_frame (cam s)).
Proof.
  intros Hm Hls Hrun.
  destruct (calm_run ls s s' Hls) as (_ & Hf & Hs & Hd & _ & He); auto.
  { now rewrite Hm. }
  repeat split; auto. intros E. apply He. now rewrite E.
Qed.

(** *** While the calling thread is idle                                  *)

Lemma undisturbed_refl (s : Sys Frame) : undisturbed s s.
Proof.
  unfold undisturbed. repeat split; auto. exists []. now rewrite app_nil_r.
Qed.

Lemma undisturbed_trans (s1 s2 s3 : Sys Frame) :
  undisturbed s1 s2 -> undisturbed s2 s3 -> undisturbed s1 s3.
Proof.
  intros (Hm1 & Hc1 & Hp1 & Hd1 & Hq1 & Hs1 & (r1 & Hl1 & Hr1) & Ho1 & Ha1)
         (Hm2 & Hc2 & Hp2 & Hd2 & Hq2 & Hs2 & (r2 & Hl2 & Hr2) & Ho2 & Ha2).
  unfold undisturbed. repeat split; try congruence.
  - exists (r1 ++ r2). split; [rewrite Hl2, Hl1; now rewrite app_assoc|].
    rewrite forallb_app, Hr1, Hr2. reflexivity.
  - intros Hst Hc Ha. apply Ha2; [congruence| |auto].
    unfold is_connected in *. now rewrite Hd1.
Qed.

Lemma background_step (l : label) (s s' : Sys Frame) :
  background l = true -> main s = MIdle -> step l s = Some s' -> undisturbed s s'.
Proof.
  intros Hl Hm H. destruct l as [| | | |op]; try discriminate Hl; cbn [step] in H.
  - injection H as <-. unfold tick. rewrite Hm.
    unfold undisturbed. cbn [cam main history]. rewrite Hm.
    repeat split; auto. exists []. now rewrite app_nil_r.
  - unfold with_cam in H.
    destruct (reader_step (cam s)) as [[c' evs]|] eqn:Hr; [|discriminate].
    injection H as <-.
    destruct (reader_step_keeps (cam s) c' evs (or_introl Hr))
      as (Hc & Hp & Hd & Hq & Hs & Hreads).
    destruct (reader_keeps_flag (cam s) c' evs (or_introl Hr)) as [Ho _].
    unfold undisturbed. cbn [cam main history].
    repeat split; auto.
    + now rewrite outcomes_app, Ho.
    + intros Hst Hcon Ha.
      apply reader_step_view in Hr as (pc & pc' & Ht & Ht' & _ & Hv).
      rewrite Ht'. destruct pc as [| |f|f| | |].
      * destruct Hv as ([[-> _]|[_ Hne]] & _); [reflexivity|congruence].
      * destruct Hv as ([(_ & Hoff & _)|[(-> & _)|(-> & _)]] & _);
          [congruence|reflexivity|reflexivity].
      * destruct Hv as (-> & _). reflexivity.
      * destruct Hv as (-> & _). reflexivity.
      * destruct Hv as (-> & _). reflexivity.
      * destruct Hv as (-> & _). reflexivity.
      * destruct Hv.
  - unfold with_cam in H.
    destruct (reader_fault (cam s)) as [[c' evs]|] eqn:Hr; [|discriminate].
    injection H as <-.
    destruct (reader_step_keeps (cam s) c' evs (or_intror Hr))
      as (Hc & Hp & Hd & Hq & Hs & Hreads).
    destruct (reader_keeps_flag (cam s) c' evs (or_intror Hr)) as [Ho _].
    apply reader_fault_view in Hr as (_ & Ht' & _).
    unfold undisturbed. cbn [cam main history].
    repeat split; auto.
    + now rewrite outcomes_app, Ho.
    + intros _ _ _. now rewrite Ht'.
Qed.

Lemma background_run (ls : list label) (s s' : Sys Frame) :
  forallb background ls = true -> main s = MIdle -> run ls s = Some s' ->
  undisturbed s s'.
Proof.
  revert s. induction ls as [|l ls IH]; intros s Hls Hm H; cbn [run] in H.
  - injection H as <-. apply undisturbed_refl.
  - cbn [forallb] in Hls. apply andb_true_iff in Hls as [Hl Hls].
    destruct (step l s) as [s1|] eqn:Hs; [|discriminate].
    pose proof (background_step l s s1 Hl Hm Hs) as H1.
    assert (Hm1 : main s1 = MIdle) by (destruct H1 as [-> _]; exact Hm).
    eapply undisturbed_trans; [exact H1|]. now apply IH.
Qed.

Lemma background_no_async_read (ls : list label) :
  forallb background ls = true -> forallb no_async_read ls = true.
Proof.
  induction ls as [|l ls IH]; [reflexivity|]. cbn [forallb].
  intros [Hl Hls]%andb_true_iff. rewrite IH by assumption.
  now destruct l.
Qed.

(** X1. [connect] on a camera that is not connected, whose rate and sizes
    are set and whose socket name is the name of a socket, meets no
    error.  When the calling thread has started the reader and begins its
    second of sleep, the camera is connected, holds its pipeline and its
    queue, has a live reader, and the calling thread has made exactly the
    calls that build the pipeline and open the device, followed by the ten
    calls of five warm-up reads when [warmup] is set; it has touched
    neither the lock nor the slot nor the new-frame event.  During the
    sleep, whatever the reader does meanwhile, the camera stays connected
    with its pipeline and queue, every further vendor call is one of the
    reader's reads, a reader started by this call stays alive with its
    stop event clear, and the slot changes by a publication only. *)
Theorem oakd_connect_success (warmup : bool) (s : Sys Frame) :
  main s = MIdle ->
  is_connected (cam s) = false ->
  Calls.sized (config (cam s)) ->
  CameraBoardSocket (socket (config (cam s))) = true ->
  exists s1,
    step (Call (Connect warmup)) s = Some s1 /\
    main s1 = MIdle /\ clock s1 = clock s /\
    history s1 = Connected :: history s /\
    is_connected (cam s1) = true /\
    is_Some (queue (cam s1)) /\ is_Some (pipeline (cam s1)) /\
    is_alive (thread (cam s1)) = true /\
    (is_alive (thread (cam s)) = false ->
     thread (cam s1) = Some RLoopHead /\ stop_event (cam s1) = Some false) /\
    sdk_log (cam s1) =
      sdk_log (cam s) ++ Calls.configure_camera (config (cam s))
        ++ Calls.open_device (config (cam s))
        ++ (if warmup then Calls.reads 5 else []) /\
    same_slot (cam s) (cam s1) /\
    forall ls s',
      forallb background ls = true ->
      run ls s1 = Some s' ->
      main s' = MIdle /\
      is_connected (cam s') = true /\
      is_Some (queue (cam s')) /\ is_Some (pipeline (cam s')) /\
      outcomes (history s') = Connected :: outcomes (history s) /\
      (exists reads,
         sdk_log (cam s') = sdk_log (cam s1) ++ reads /\
         forallb Calls.is_read reads = true) /\
      (is_alive (thread (cam s)) = false ->
       is_alive (thread (cam s')) = true /\ stop_event (cam s') = Some false) /\
      (flag s = true -> flag s' = true) /\
      (publications (history s') = publications (history s) ->
       latest_frame (cam s') = latest_frame (cam s)).
Proof.
  intros Hm Hc _ Hs.
  set (s1 := mkSys (Calls.connected warmup (cam s)) MIdle (clock s)
               (Connected :: history s)).
  assert (Hstep : step (Call (Connect warmup)) s = Some s1).
  { cbn [step]. unfold call_step. rewrite Hm, (connect_run warmup (cam s) Hc Hs).
    reflexivity. }
  assert (Hdead : is_alive (thread (cam s)) = false ->
                  thread (cam s1) = Some RLoopHead /\ stop_event (cam s1) = Some false).
  { intros Ha. unfold s1, Calls.connected. cbn. now rewrite Ha. }
  assert (Halive : is_alive (thread (cam s1)) = true).
  { unfold s1, Calls.connected. cbn.
    destruct (is_alive (thread (cam s))) eqn:Ha; [exact Ha|reflexivity]. }
  assert (Hslot : same_slot (cam s) (cam s1)).
  { pose proof (keeps_connect warmup (cam s)) as Hk.
    now rewrite (connect_run warmup (cam s) Hc Hs) in Hk. }
  exists s1. split; [exact Hstep|].
  split; [reflexivity|]. split; [reflexivity|]. split; [reflexivity|].
  split; [reflexivity|]. split; [now eexists|]. split; [now eexists|].
  split; [exact Halive|]. split; [exact Hdead|]. split; [reflexivity|].
  split; [exact Hslot|].
  intros ls s' Hls Hrun.
  destruct (background_run ls s1 s' Hls eq_refl Hrun)
    as (Hm' & _ & Hp' & Hd' & Hq' & Hst' & Hreads & Ho' & Ha').
  destruct (calm_run ls s1 s' (background_no_async_read ls Hls) eq_refl Hrun)
    as (_ & Hf & _ & _ & Hlen & He).
  destruct Hslot as (_ & Hlf & Hfl & _).
  split; [exact Hm'|].
  split; [unfold is_connected; now rewrite Hd'|].
  split; [rewrite Hq'; now eexists|]. split; [rewrite Hp'; now eexists|].
  split; [exact Ho'|]. split; [exact Hreads|].
  split; [|split].
  - intros Hold. destruct (Hdead Hold) as [Hth Hse].
    split; [|congruence]. apply Ha'; [exact Hse|reflexivity|exact Halive].
  - intros Hflag. apply Hf. unfold flag in *. now rewrite Hfl.
  - intros E. rewrite He; [exact Hlf|].
    cbn [s1 history]. change (publications (Connected :: history s))
      with (publications (history s)). now rewrite E.
Qed.

(** *** [async_read] does end                                             *)

(** While [wait] waits with the event clear, time passing changes nothing
    until the deadline is behind; then the wait has timed out. *)
Lemma ticks_wait (n : nat) (s : Sys Frame) (d : Z) :
  main s = MWait d -> flag s = false -> d < clock s + Z.of_nat (S n) ->
  run (replicate (S n) Tick) s =
    Some (mkSys (cam s) MTimedOut (clock s + Z.of_nat (S n)) (history s)).
Proof.
  revert s. induction n as [|n IH]; intros s Hm Hf Hd.
  - cbn [replicate run step].
    assert (Ht : tick s = mkSys (cam s) MTimedOut (clock s + 1) (history s)).
    { unfold tick. rewrite Hm. unfold flag in Hf. rewrite Hf. cbn [negb andb].
      destruct (Z.ltb_spec d (clock s + 1)); [reflexivity|lia]. }
    rewrite Ht. reflexivity.
  - change (replicate (S (S n)) Tick) with (Tick :: replicate (S n) (Tick : label)).
    cbn [run step].
    destruct (Z.ltb_spec d (clock s + 1)) as [Hlt|Hge].
    + assert (Ht : tick s = mkSys (cam s) MTimedOut (clock s + 1) (history s)).
      { unfold tick. rewrite Hm. unfold flag in Hf. rewrite Hf. cbn [negb andb].
        destruct (Z.ltb_spec d (clock s + 1)); [reflexivity|lia]. }
      rewrite Ht, ticks_idle by (cbn; discriminate). cbn [cam main clock history].
      do 2 f_equal. lia.
    + assert (Ht : tick s = mkSys (cam s) (MWait d) (clock s + 1) (history s)).
      { unfold tick. rewrite Hm. unfold flag in Hf. rewrite Hf. cbn [negb andb].
        destruct (Z.ltb_spec d (clock s + 1)); [lia|reflexivity]. }
      rewrite Ht, IH by (cbn [main clock cam]; auto; lia).
      cbn [cam main clock history]. do 2 f_equal. lia.
Qed.

Lemma unforced_ticks (n : nat) (ls : list label) :
  forallb unforced ls = true -> forallb unforced (replicate n Tick ++ ls) = true.
Proof. intros H. induction n as [|n IH]; [exact H|exact IH]. Qed.

(** The run of [ls] ends in [s2] with the outcome [r]. *)
Ltac finishes_by ls :=
  exists ls; eexists _, _; split; [reflexivity|];
  split; [vm_compute; reflexivity|];
  split; [reflexivity|];
  first [left; reflexivity | right; eexists; reflexivity].

(** From wherever the calling thread stands inside [async_read], the
    system left to itself can take the call to its end: at most two
    statements of a reader that holds the lock, the ticks that are left of
    the wait when the event is clear, and the statements of the calling
    thread. *)
Lemma async_read_can_finish (s1 : Sys Frame) :
  Inv s1 -> reading (main s1) = true ->
  exists ls2 s2 r,
    forallb unforced ls2 = true /\
    run ls2 s1 = Some s2 /\
    outcomes (history s2) = r :: outcomes (history s1) /\
    (r = Raised TimeoutError \/ exists f, r = Returned f).
Proof.
  intros [Hl He _ _ _ _] Hr.
  destruct s1 as [c pc clk h]. destruct c as [cfg0 pl dev qu th st lk lf ev log].
  cbn in Hl, He, Hr.
  destruct pc as [|d| | | |f|f|d|]; try discriminate Hr.
  - (* in [wait] *)
    destruct ev.
    + destruct th as [[| |f|f| | |]|]; cbn in Hl; subst lk;
        first [ finishes_by [Main; Reader; Reader; Main; Main; Main; Main]
              | finishes_by [Main; Reader; Main; Main; Main; Main]
              | finishes_by [Main; Main; Main; Main; Main] ].
    + set (s1 := mkSys (mkOakDCamera cfg0 pl dev qu th st lk lf false log)
                   (MWait d) clk h).
      set (n := Z.to_nat (Z.max 0 (d - clk))).
      exists (replicate (S n) Tick ++ [Main]).
      exists (mkSys (cam s1) MIdle (clk + Z.of_nat (S n)) (Raised TimeoutError :: h)).
      exists (Raised TimeoutError).
      split; [now apply unforced_ticks|].
      split; [|split; [reflexivity|now left]].
      rewrite run_app, (ticks_wait n s1 d) by (try reflexivity; cbn [clock s1]; lia).
      reflexivity.
  - finishes_by [Main].
  - destruct th as [[| |f|f| | |]|]; cbn in Hl; subst lk;
      first [ finishes_by [Reader; Reader; Main; Main; Main; Main]
            | finishes_by [Reader; Main; Main; Main; Main]
            | finishes_by [Main; Main; Main; Main] ].
  - finishes_by [Main; Main; Main].
  - finishes_by [Main; Main].
  - finishes_by [Main].
Qed.

Lemma reading_cases (pc : main_pc Frame) :
  reading pc = true <-> (exists d, pc = MWait d) \/ is_Some (verdict pc).
Proof.
  destruct pc; cbn; split; intros H; try discriminate; eauto;
    destruct H as [[d H]|[b H]]; discriminate.
Qed.

(** As long as no outcome is logged, a call of [async_read] is still under
    way. *)
Lemma reading_run (ls : list label) (s s' : Sys Frame) :
  reading (main s) = true ->
  run ls s = Some s' ->
  outcomes (history s') = outcomes (history s) ->
  reading (main s') = true.
Proof.
  revert s. induction ls as [|l ls IH]; intros s Hr Hrun Ho; cbn [run] in Hrun.
  - now injection Hrun as <-.
  - destruct (step l s) as [s1|] eqn:Hs; [|discriminate].
    destruct (run_grows ls s1 s' Hrun) as [_ [evs Hh]].
    apply reading_cases in Hr as [[d Hm]|[b Hv]].
    + destruct (step_wait l s s1 d Hm Hs) as [Ho1 Hcases].
      apply (IH s1); [|exact Hrun|congruence].
      apply reading_cases.
      destruct Hcases as [(Hm1 & _)|[(Hm1 & _)|(Hm1 & _)]]; rewrite Hm1;
        [left; now exists d|right; now eexists|right; now eexists].
    + destruct (step_verdict l s s1 b Hv Hs) as [[Hv1 Ho1]|(e & Ho1 & _)].
      * apply (IH s1); [|exact Hrun|congruence].
        apply reading_cases. right. rewrite Hv1. now eexists.
      * exfalso. rewrite Hh, outcomes_app, Ho1 in Ho.
        apply (f_equal length) in Ho. rewrite length_app in Ho. cbn in Ho. lia.
Qed.

(** C3 (amended). A call of [async_read] on a connected camera, made in a
    state reached from a fresh camera object with a timeout that
    [Event.wait] takes, is accepted and waits for [new_frame_event] up to
    [timeout_ms] milliseconds.  The call ends: from every state in which it
    is still under way, the threads left to themselves take it to an
    outcome, which is [TimeoutError] or a returned frame; and when the
    event is clear at the call and the reader is not scheduled, the call
    raises [TimeoutError] once the timeout has passed.  In every execution
    the call ends with [TimeoutError] exactly when [new_frame_event] is
    seen set at no moment from the call up to [timeout_ms] milliseconds
    later (an event set before the call and not yet cleared counts as
    seen).  Otherwise it returns the frame that is in the slot when it
    holds the lock, the latest publication, which is a frame and not
    [None]; it clears the event while it holds the lock.  Nothing is said
    of how many calls a publication serves. *)
Theorem async_read_handoff {thr : Threading} (cfg : OakDCameraConfig)
    (ls0 : list label) (s : Sys Frame) (timeout_ms : Z) :
  run ls0 (boot cfg) = Some s ->
  main s = MIdle ->
  is_connected (cam s) = true ->
  wait_accepts timeout_ms = true ->
  let d := clock s + Z.max 0 timeout_ms in
  let call := Call (AsyncRead timeout_ms) in
  (exists s0, step call s = Some s0 /\ main s0 = MWait d /\
              clock s0 = clock s /\ history s0 = history s /\
              flag s0 = flag s) /\
  (forall ls s1,
     run (call :: ls) s = Some s1 ->
     outcomes (history s1) = outcomes (history s) ->
     reading (main s1) = true /\
     exists ls2 s2 r,
       forallb unforced ls2 = true /\
       run ls2 s1 = Some s2 /\
       outcomes (history s2) = r :: outcomes (history s) /\
       (r = Raised TimeoutError \/ exists f, r = Returned f)) /\
  (flag s = false ->
   exists s2,
     run (call :: replicate (S (Z.to_nat (Z.max 0 timeout_ms))) Tick ++ [Main]) s
       = Some s2 /\
     history s2 = Raised TimeoutError :: history s /\
     main s2 = MIdle /\ clock s2 = d + 1) /\
  (forall ls s' r,
     run (call :: ls) s = Some s' ->
     first_outcome s s' r ->
     (r = Raised TimeoutError <-> signalled_by d (call :: ls) s = false) /\
     (r = Raised TimeoutError \/ exists f, r = Returned f) /\
     (forall f, r = Returned f ->
        exists fr, f = Some fr /\ In (Published fr) (history s')) /\
     latest_frame (cam s') = latest_published (history s') /\
     deliveries_are_latest (history s')) /\
  (forall ls s1 f,
     run (call :: ls) s = Some s1 ->
     main s1 = MClear f ->
     frame_lock (cam s1) = Some MainThread /\
     f = latest_frame (cam s1) /\
     f = latest_published (history s1) /\
     exists s2, step Main s1 = Some s2 /\ flag s2 = false /\
                frame_lock (cam s2) = Some MainThread /\
                latest_frame (cam s2) = f /\ main s2 = MRelease f).
Proof.
  intros Hreach Hm Hc _ d call.
  assert (HI : Inv s) by (eapply inv_run; [apply inv_boot|exact Hreach]).
  assert (HP : Paired s) by (eapply paired_run; [apply paired_boot|exact Hreach]).
  destruct (async_read_enter_connected (cam s) Hc) as (c' & He & Hf).
  set (s0 := mkSys c' (MWait d) (clock s) (history s)).
  assert (Hs : step call s = Some s0).
  { cbn [step call]. unfold call_step. rewrite Hm, He. reflexivity. }
  assert (Hcons : forall ls s1, run (call :: ls) s = Some s1 -> run ls s0 = Some s1).
  { intros ls s1 H. cbn [run] in H. now rewrite Hs in H. }
  split; [|split; [|split; [|split]]].
  - exists s0. repeat split; [exact Hs|exact Hf].
  - intros ls s1 Hrun Ho. apply Hcons in Hrun.
    assert (Hr : reading (main s1) = true)
      by (apply (reading_run ls s0 s1); [reflexivity|exact Hrun|exact Ho]).
    split; [exact Hr|].
    assert (HI1 : Inv s1).
    { eapply inv_run; [|exact Hrun]. eapply inv_step; [exact HI|exact Hs]. }
    destruct (async_read_can_finish s1 HI1 Hr) as (ls2 & s2 & r & Hu & Hrun2 & Ho2 & Hor).
    exists ls2, s2, r. rewrite <- Ho. auto.
  - intros Hclear.
    set (n := Z.to_nat (Z.max 0 timeout_ms)).
    assert (Hn : Z.of_nat (S n) = Z.max 0 timeout_ms + 1)
      by (subst n; rewrite Nat2Z.inj_succ, Z2Nat.id; lia).
    exists (mkSys c' MIdle (d + 1) (Raised TimeoutError :: history s)).
    split; [|repeat split].
    cbn [run]. rewrite Hs, run_app.
    assert (Hclear0 : flag s0 = false) by (unfold flag in *; subst s0; cbn [cam]; congruence).
    assert (Hd : d < clock s0 + Z.of_nat (S n)) by (cbn [s0 clock]; lia).
    rewrite (ticks_wait n s0 d eq_refl Hclear0 Hd).
    cbn [s0 cam clock history]. rewrite Hn.
    replace (clock s + (Z.max 0 timeout_ms + 1)) with (d + 1) by (subst d; lia).
    reflexivity.
  - intros ls s' r Hrun Hr.
    pose proof (inv_run _ s s' HI Hrun) as HI'.
    pose proof (paired_run _ s s' HP Hrun) as HP'.
    rewrite (signalled_cons d _ ls s s0 Hs).
    apply Hcons in Hrun.
    assert (Hle : clock s0 <= d) by (subst d s0; cbn; lia).
    destruct (wait_times_out_iff ls s0 s' d r eq_refl Hle Hrun) as [Hiff Hor].
    { destruct Hr as [rs Hr]. now exists rs. }
    assert (Hsame : (clock s <=? d) && flag s = (clock s0 <=? d) && flag s0)
      by (subst s0; unfold flag; cbn; now rewrite Hf).
    rewrite Hsame, signalled_absorb.
    split; [exact Hiff|]. split; [exact Hor|]. split; [|split].
    + intros f ->.
      apply (delivered_was_published (history s') f (inv_hist s' HI') (paired_hist s' HP')).
      destruct Hr as [rs Hr].
      assert (Hin : In (Returned f) (outcomes (history s')))
        by (rewrite Hr; apply in_or_app; right; now left).
      unfold outcomes in Hin. now apply filter_In in Hin as [Hin _].
    + apply (inv_slot s' HI').
    + apply (inv_hist s' HI').
  - intros ls s1 f Hrun Hm1.
    pose proof (inv_run _ s s1 HI Hrun) as HI1.
    pose proof (inv_lock s1 HI1) as Hl.
    pose proof (inv_excl s1 HI1) as Hx.
    pose proof (inv_held s1 HI1) as Hh.
    pose proof (inv_slot s1 HI1) as Hsl.
    rewrite Hm1 in Hl, Hx, Hh. cbn [main_holds] in Hl, Hx.
    rewrite andb_true_r in Hx. rewrite Hx in Hl.
    split; [exact Hl|]. split; [exact Hh|]. split; [congruence|].
    cbn [step]. unfold main_step. rewrite Hm1.
    eexists. split; [reflexivity|]. unfold flag. cbn. auto.
Qed.

End HandoffFacts.


(** The lock of the simulated camera after one turn of the reader. *)
Lemma frame_lock_mutual_exclusion_witness :
  let s := Sim.system_on in
  ReadLoop.reader_holds (OakD.thread (ReadLoop.cam s))
    && ReadLoop.main_holds (ReadLoop.main s) = false /\
  (OakD.frame_lock (ReadLoop.cam s) = Some OakD.ReaderThread <->
   ReadLoop.reader_holds (OakD.thread (ReadLoop.cam s)) = true).
Proof.
  intros s.
  assert (Hreach : ReadLoop.run (Sim.published 1) (ReadLoop.boot Sim.oakd_config) = Some s)
    by (vm_compute; reflexivity).
  destruct (frame_lock_mutual_exclusion Sim.oakd_config (Sim.published 1) s Hreach)
    as (H1 & H2 & _).
  split; [exact H1|exact H2].
Defined.

(** The frame returned by the [async_read] of [Rig.read_run]. *)
Lemma async_read_returns_published_frame_witness :
  exists fr : nat,
    Some 13%nat = Some fr /\
    In (ReadLoop.Published fr) (ReadLoop.history Rig.system_read).
Proof.
  assert (Hreach : ReadLoop.run Rig.read_run (ReadLoop.boot Sim.oakd_config)
                   = Some Rig.system_read) by (vm_compute; reflexivity).
  apply (async_read_returns_published_frame Sim.oakd_config Rig.read_run
           Rig.system_read (Some 13%nat) Hreach).
  left. reflexivity.
Defined.

(** One delivery, one signal and one publication in [Rig.read_run]. *)
Lemma deliveries_bounded_by_signals_witness :
  let s := Rig.system_read in
  (length (ReadLoop.deliveries (ReadLoop.history s))
     + (if ReadLoop.flag s then 1 else 0)
     <= Handoff.signals (ReadLoop.history s))%nat /\
  (Handoff.signals (ReadLoop.history s)
     <= length (ReadLoop.publications (ReadLoop.history s))
     <= Handoff.signals (ReadLoop.history s) + 1)%nat.
Proof.
  intros s.
  assert (Hreach : ReadLoop.run Rig.read_run (ReadLoop.boot Sim.oakd_config) = Some s)
    by (vm_compute; reflexivity).
  destruct (deliveries_bounded_by_signals Sim.oakd_config Rig.read_run s Hreach)
    as (H1 & H2 & _).
  split; [exact H1|exact H2].
Defined.

(** The reader of the simulated camera after [disconnect] has set the
    stop event. *)
Lemma reader_stops_within_one_turn_witness :
  exists n s',
    (n <= 6)%nat /\
    ReadLoop.run (replicate n ReadLoop.Reader) Rig.system_stopping = Some s' /\
    OakD.thread (ReadLoop.cam s') = Some OakD.RDone.
Proof.
  assert (Hreach : ReadLoop.run Rig.stopping_run (ReadLoop.boot Sim.oakd_config)
                   = Some Rig.system_stopping) by (vm_compute; reflexivity).
  destruct (reader_stops_within_one_turn Sim.oakd_config Rig.stopping_run
              Rig.system_stopping Hreach eq_refl eq_refl eq_refl)
    as (n & s' & H1 & H2 & H3 & _).
  exists n, s'. split; [exact H1|]. split; [exact H2|exact H3].
Defined.

(** [disconnect] on the simulated camera while the reader is not
    scheduled. *)
Lemma disconnect_closes_after_join_timeout_witness :
  let s := Sim.system_on in
  exists s',
    ReadLoop.run (ReadLoop.Call ReadLoop.Disconnect
                    :: replicate (Z.to_nat 2001) ReadLoop.Tick ++ [ReadLoop.Main]) s
      = Some s' /\
    ReadLoop.history s' = ReadLoop.Disconnected :: ReadLoop.history s /\
    OakD.is_connected (ReadLoop.cam s') = false /\
    OakD.thread (ReadLoop.cam s') = Some OakD.RLoopHead.
Proof.
  intros s.
  destruct (disconnect_closes_after_join_timeout (dai := Sim.depthai) s
              eq_refl eq_refl eq_refl) as (_ & s' & H1 & H2 & _ & _ & H5 & H6 & _).
  exists s'. split; [exact H1|]. split; [exact H2|]. split; [exact H5|exact H6].
Defined.

(** The simulated camera reconnected after a timed-out join. *)
Lemma stale_stop_request_after_reconnect_witness :
  let s := Sim.system_on in
  exists s1,
    ReadLoop.run (ReadLoop.Call ReadLoop.Disconnect
                    :: replicate (Z.to_nat 2001) ReadLoop.Tick
                    ++ [ReadLoop.Main; ReadLoop.Call (ReadLoop.Connect false)]) s
      = Some s1 /\
    OakD.is_connected (ReadLoop.cam s1) = true /\
    OakD.stop_event (ReadLoop.cam s1) = Some true.
Proof.
  intros s.
  destruct (stale_stop_request_after_reconnect (dai := Sim.depthai) false 200 s
              eq_refl eq_refl eq_refl (ex_intro _ false eq_refl) eq_refl)
    as (s1 & H1 & _ & H3 & _ & H5 & _).
  exists s1. split; [exact H1|]. split; [exact H3|exact H5].
Defined.

(** An [async_read] with a timeout of zero on the simulated camera, a
    frame being pending. *)
Lemma async_read_takes_pending_frame_witness :
  let s := Sim.system_on in
  exists s',
    ReadLoop.run (ReadLoop.Call (ReadLoop.AsyncRead 0)
                    :: replicate 5 ReadLoop.Main) s = Some s' /\
    ReadLoop.history s' =
      ReadLoop.Returned (OakD.latest_frame (ReadLoop.cam s)) :: ReadLoop.history s /\
    ReadLoop.clock s' = ReadLoop.clock s.
Proof.
  intros s.
  destruct (async_read_takes_pending_frame (dai := Sim.depthai) (thr := Rig.threading)
              0 200 s eq_refl eq_refl eq_refl eq_refl eq_refl eq_refl) as (s' & s2 & H1 & H2 & H3 & _).
  exists s'. split; [exact H1|]. split; [exact H2|exact H3].
Defined.

(** An [async_read] on the simulated camera after one publication: it is
    accepted, waits up to 200 ms, and returns frame 13. *)
Lemma async_read_handoff_witness :
  let s := Sim.system_on in
  let s' := default s (ReadLoop.run (Sim.read_alone 200) s) in
  let r : ReadLoop.event nat := ReadLoop.Returned (Some 13%nat) in
  (exists s0, ReadLoop.step (ReadLoop.Call (ReadLoop.AsyncRead 200)) s = Some s0 /\
              ReadLoop.main s0 = ReadLoop.MWait (ReadLoop.clock s + Z.max 0 200)) /\
  (r = ReadLoop.Raised TimeoutError <->
   ReadLoop.signalled_by (ReadLoop.clock s + Z.max 0 200) (Sim.read_alone 200) s = false) /\
  (r = ReadLoop.Raised TimeoutError \/ exists f, r = ReadLoop.Returned f) /\
  OakD.latest_frame (ReadLoop.cam s') = ReadLoop.latest_published (ReadLoop.history s') /\
  ReadLoop.deliveries_are_latest (ReadLoop.history s').
Proof.
  intros s s' r.
  assert (Hreach : ReadLoop.run (Sim.published 1) (ReadLoop.boot Sim.oakd_config) = Some s)
    by (vm_compute; reflexivity).
  pose proof (async_read_handoff (dai := Sim.depthai) (thr := Rig.threading)
                Sim.oakd_config (Sim.published 1) s 200 Hreach eq_refl eq_refl eq_refl)
    as H.
  cbv zeta in H. destruct H as ((s0 & H1 & H2 & _) & _ & _ & H4 & _).
  assert (Hrun : ReadLoop.run (Sim.read_alone 200) s = Some s')
    by (vm_compute; reflexivity).
  assert (Hfirst : ReadLoop.first_outcome s s' r) by (exists []; vm_compute; reflexivity).
  destruct (H4 (replicate 5 ReadLoop.Main) s' r Hrun Hfirst) as (Ha & Hb & _ & Hc & Hd).
  split; [exists s0; split; [exact H1|exact H2]|].
  split; [exact Ha|]. split; [exact Hb|]. split; [exact Hc|exact Hd].
Defined.

(** [connect] with its warm-up reads on the simulated camera, fresh. *)
Lemma oakd_connect_success_witness :
  let s := ReadLoop.boot (Frame := nat) Sim.oakd_config in
  exists s1,
    ReadLoop.step (ReadLoop.Call (ReadLoop.Connect true)) s = Some s1 /\
    ReadLoop.history s1 = ReadLoop.Connected :: ReadLoop.history s /\
    OakD.is_connected (ReadLoop.cam s1) = true /\
    OakD.sdk_log (ReadLoop.cam s1) =
      Calls.configure_camera Sim.oakd_config ++ Calls.open_device Sim.oakd_config
        ++ Calls.reads 5.
Proof.
  intros s.
  assert (Hsized : Calls.sized (OakD.config (ReadLoop.cam s)))
    by (repeat split; eexists; reflexivity).
  destruct (oakd_connect_success (dai := Sim.depthai) true s eq_refl eq_refl Hsized eq_refl)
    as (s1 & H1 & _ & _ & H4 & H5 & _ & _ & _ & _ & H10 & _).
  exists s1. split; [exact H1|]. split; [exact H4|]. split; [exact H5|exact H10].
Defined.

(** The published frame of the simulated camera after a disconnection and
    a reconnection: still pending. *)
Lemma mailbox_survives_reconnect_witness :
  let s := Sim.system_on in
  let s' := Rig.system_reconnected in
  ReadLoop.flag s' = true /\
  OakD.latest_frame (ReadLoop.cam s') = OakD.latest_frame (ReadLoop.cam s).
Proof.
  intros s s'.
  assert (Hrun : ReadLoop.run Rig.reconnect_run s = Some s') by (vm_compute; reflexivity).
  destruct (mailbox_survives_reconnect (dai := Sim.depthai) Rig.reconnect_run s s'
              eq_refl eq_refl Hrun) as (H1 & _ & _ & H4).
  split; [apply H1; reflexivity|apply H4; reflexivity].
Defined.

(* ===================================================================== *)
(** ** The arm: connecting and disconnecting                             *)
(* ===================================================================== *)

Section ArmLifecycle.
Context {V MaxRel Frame : Type}.
Context {niryo : Ned2.PyNiryo V} {jv : Ned2.JointValue V}
        {dai : OakD.DepthAI Frame} {host : Ned2.Host V MaxRel Frame}.

Local Abbreviation Robot := (Ned2.Ned2Follower V MaxRel Frame).
Local Abbreviation Cameras := (list (string * OakD.OakDCamera Frame)).

Lemma each_camera_connect_all (cams : Cameras) :
  Forall ArmCalls.connectable cams ->
  Ned2.each_camera (OakD.connect true) cams =
    (inr (prod_map id (fun _ => tt) <$> cams),
     prod_map id (Calls.connected true) <$> cams).
Proof.
  induction 1 as [|[k c] cams (Hc & _ & Hs) _ IH]; [reflexivity|].
  cbn [Ned2.each_camera fmap list_fmap]. cbn in Hc, Hs.
  rewrite (connect_run true c Hc Hs), IH. reflexivity.
Qed.

Lemma each_camera_disconnect_all (cams : Cameras) :
  forallb (fun kc => OakD.is_connected (snd kc)) cams = true ->
  Ned2.each_camera OakD.disconnect cams =
    (inr (prod_map id (fun _ => tt) <$> cams),
     prod_map id Calls.disconnected <$> cams).
Proof.
  induction cams as [|[k c] cams IH]; [reflexivity|].
  cbn [forallb snd]. intros [Hc Hall]%andb_true_iff.
  cbn [Ned2.each_camera fmap list_fmap].
  rewrite (disconnect_run c Hc), IH by assumption. reflexivity.
Qed.

(** A camera that is already connected stops the loop of [connect] over
    the cameras, at that camera or before it, and stays as it is. *)
Lemma each_camera_connect_stuck (cams : Cameras) (k : string)
    (cam : OakD.OakDCamera Frame) :
  In (k, cam) cams -> OakD.is_connected cam = true ->
  exists e cams',
    Ned2.each_camera (OakD.connect true) cams = (inl e, cams') /\
    In (k, cam) cams' /\ cams'.*1 = cams.*1.
Proof.
  intros Hin Hc. induction cams as [|[k0 c0] cams IH]; [destruct Hin|].
  cbn [Ned2.each_camera].
  destruct Hin as [Heq|Hin].
  - injection Heq as -> ->. rewrite (oakd_connect_already true cam Hc).
    eexists _, _. split; [reflexivity|]. split; [now left|reflexivity].
  - destruct (OakD.connect true c0) as [[e|u] c0'].
    + eexists _, _. split; [reflexivity|]. split; [now right|reflexivity].
    + destruct (IH Hin) as (e & cams' & -> & Hin' & Hk).
      eexists _, _. split; [reflexivity|]. split; [now right|].
      cbn. now rewrite Hk.
Qed.

Lemma ned2_connect_run (calibrate : bool) (r : Robot) :
  Ned2.is_connected r = false ->
  Forall ArmCalls.connectable (Ned2.cameras r) ->
  Ned2.connect calibrate r =
    (inr tt,
     Ned2.mkNed2Follower (Ned2.config r) (Some OakD.Handle)
       (prod_map id (Calls.connected true) <$> Ned2.cameras r)
       (Ned2.sdk_log r ++ ArmCalls.open_robot calibrate r ++ ArmCalls.configure_calls)).
Proof.
  intros Hnc Hall. unfold Ned2.connect. run_method. rewrite Hnc.
  destruct r as [cfg rb cams log]. cbn [Ned2.config Ned2.cameras Ned2.sdk_log] in *.
  unfold ArmCalls.open_robot, ArmCalls.calibration, ArmCalls.configure_calls.
  cbn [Ned2.config Ned2.sdk_log].
  unfold Ned2.sdk, Ned2.query_need_calibration, Ned2.on_cameras, Ned2.configure, Ned2.sdk.
  run_method. cbn [Ned2.config Ned2.cameras Ned2.sdk_log Ned2.robot Ned2.set_robot Ned2.set_cameras].
  destruct (calibrate && Ned2.Config.calibrate_on_connect cfg);
    cbn [Ned2.config Ned2.cameras Ned2.sdk_log Ned2.robot Ned2.set_robot Ned2.set_cameras];
    [destruct (Ned2.sdk_need_calibration _)|];
    cbn [Ned2.config Ned2.cameras Ned2.sdk_log Ned2.robot Ned2.set_robot Ned2.set_cameras];
    rewrite (each_camera_connect_all cams Hall);
    cbn [Ned2.config Ned2.cameras Ned2.sdk_log Ned2.robot Ned2.set_robot Ned2.set_cameras];
    rewrite <- ?app_assoc; reflexivity.
Qed.

Lemma forallb_connected (cams : Cameras) :
  forallb (fun kc => OakD.is_connected (snd kc))
    (prod_map id (Calls.connected true) <$> cams) = true.
Proof. induction cams as [|[k c] cams IH]; [reflexivity|]. cbn. exact IH. Qed.

Lemma forall_disconnected (cams : Cameras) :
  Forall (fun kc => OakD.is_connected (snd kc) = false)
    (prod_map id Calls.disconnected <$> cams).
Proof. induction cams as [|[k c] cams IH]; constructor; [reflexivity|exact IH]. Qed.

(** X12. [connect] on an arm that is not connected and whose cameras are
    all connectable returns normally: the arm is then connected, it has
    the cameras it had, each of them connected and holding its queue, and
    pyniryo has seen the opening of the robot, the calibration calls and
    the two calls of [configure].  When [calibrate_on_connect] is off, as
    it is by default, no calibration call is made whatever the argument
    [calibrate]; a second [connect] is refused.  (Nothing is said of what
    the reader threads of the cameras have done by then.) *)
Theorem ned2_connect_success (calibrate calibrate' : bool) (r : Robot) :
  Ned2.is_connected r = false ->
  Forall ArmCalls.connectable (Ned2.cameras r) ->
  exists r',
    Ned2.connect calibrate r = (inr tt, r') /\
    Ned2.is_connected r' = true /\
    Ned2.robot r' = Some OakD.Handle /\
    Ned2.config r' = Ned2.config r /\
    (Ned2.cameras r').*1 = (Ned2.cameras r).*1 /\
    Forall (fun kc => OakD.is_connected (snd kc) = true /\ OakD.wired (snd kc))
      (Ned2.cameras r') /\
    Ned2.sdk_log r' =
      Ned2.sdk_log r ++ ArmCalls.open_robot calibrate r ++ ArmCalls.configure_calls /\
    (Ned2.Config.calibrate_on_connect (Ned2.config r) = false ->
     Ned2.sdk_log r' =
       Ned2.sdk_log r ++
         [Ned2.NiryoRobot (Ned2.Config.ip_address (Ned2.config r));
          Ned2.set_learning_mode true; Ned2.set_learning_mode false]) /\
    Ned2.connect calibrate' r' = (inl DeviceAlreadyConnectedError, r').
Proof.
  intros Hnc Hall. eexists. split; [apply ned2_connect_run; assumption|].
  assert (Hon : Ned2.is_connected
                  (Ned2.mkNed2Follower (Ned2.config r) (Some OakD.Handle)
                     (prod_map id (Calls.connected true) <$> Ned2.cameras r)
                     (Ned2.sdk_log r ++ ArmCalls.open_robot calibrate r
                        ++ ArmCalls.configure_calls)) = true).
  { unfold Ned2.is_connected. cbn [Ned2.robot Ned2.cameras]. apply forallb_connected. }
  split; [exact Hon|]. split; [reflexivity|]. split; [reflexivity|].
  split; [cbn [Ned2.cameras]; apply fst_prod_map_id|].
  split; [|split; [reflexivity|split]].
  - cbn [Ned2.cameras]. apply Forall_fmap, Forall_forall. intros [k c] _.
    apply connected_is_connected.
  - intros Hoff. cbn [Ned2.sdk_log].
    unfold ArmCalls.open_robot, ArmCalls.calibration. rewrite Hoff, andb_false_r.
    reflexivity.
  - apply ned2_connect_already. exact Hon.
Qed.

Lemma ned2_connect_stuck (calibrate : bool) (r : Robot) (k : string)
    (cam : OakD.OakDCamera Frame) :
  Ned2.is_connected r = false ->
  In (k, cam) (Ned2.cameras r) -> OakD.is_connected cam = true ->
  exists e cams',
    Ned2.connect calibrate r =
      (inl e, Ned2.mkNed2Follower (Ned2.config r) (Some OakD.Handle) cams'
                (Ned2.sdk_log r ++ ArmCalls.open_robot calibrate r)) /\
    In (k, cam) cams' /\ cams'.*1 = (Ned2.cameras r).*1.
Proof.
  intros Hnc Hin Hc. unfold Ned2.connect. run_method. rewrite Hnc.
  destruct r as [cfg rb cams log]. cbn [Ned2.config Ned2.cameras Ned2.sdk_log] in *.
  destruct (each_camera_connect_stuck cams k cam Hin Hc) as (e & cams' & He & Hin' & Hk).
  exists e, cams'. split; [|split; assumption].
  unfold ArmCalls.open_robot, ArmCalls.calibration.
  cbn [Ned2.config Ned2.sdk_log].
  unfold Ned2.sdk, Ned2.query_need_calibration, Ned2.on_cameras, Ned2.sdk.
  run_method. cbn [Ned2.config Ned2.cameras Ned2.sdk_log Ned2.robot Ned2.set_robot Ned2.set_cameras].
  destruct (calibrate && Ned2.Config.calibrate_on_connect cfg);
    cbn [Ned2.config Ned2.cameras Ned2.sdk_log Ned2.robot Ned2.set_robot Ned2.set_cameras];
    [destruct (Ned2.sdk_need_calibration _)|];
    cbn [Ned2.config Ned2.cameras Ned2.sdk_log Ned2.robot Ned2.set_robot Ned2.set_cameras];
    rewrite He;
    cbn [Ned2.config Ned2.cameras Ned2.sdk_log Ned2.robot Ned2.set_robot Ned2.set_cameras];
    rewrite <- ?app_assoc; reflexivity.
Qed.

(** X13. [connect] does not roll back.  When the arm is not connected but
    one of its cameras already is, [connect] opens the robot, runs the
    calibration branch, and then raises inside the loop over the cameras:
    the robot handle stays set, [configure] is never reached, the camera
    that was connected still is, and every later [connect] raises as well.
    The half-built object still accepts [configure] and [calibrate], which
    look at the robot handle only. *)
Theorem ned2_connect_no_rollback (calibrate : bool) (r : Robot) (k : string)
    (cam : OakD.OakDCamera Frame) :
  Ned2.is_connected r = false ->
  In (k, cam) (Ned2.cameras r) -> OakD.is_connected cam = true ->
  exists e r',
    Ned2.connect calibrate r = (inl e, r') /\
    Ned2.robot r' = Some OakD.Handle /\
    Ned2.sdk_log r' = Ned2.sdk_log r ++ ArmCalls.open_robot calibrate r /\
    In (k, cam) (Ned2.cameras r') /\
    (forall calibrate', exists e', fst (Ned2.connect calibrate' r') = inl e') /\
    Ned2.configure r' = (inr tt, Ned2.logged r' ArmCalls.configure_calls) /\
    Ned2.calibrate r' = (inr tt, Ned2.logged r' [Ned2.calibrate_auto]).
Proof.
  intros Hnc Hin Hc.
  destruct (ned2_connect_stuck calibrate r k cam Hnc Hin Hc) as (e & cams' & -> & Hin' & _).
  eexists _, _. split; [reflexivity|].
  split; [reflexivity|]. split; [reflexivity|]. split; [exact Hin'|].
  split; [|split].
  - intros calibrate'.
    match goal with |- context [Ned2.connect _ ?x] => set (r' := x) end.
    destruct (Ned2.is_connected r') eqn:Hon.
    + exists DeviceAlreadyConnectedError. now rewrite ned2_connect_already.
    + destruct (ned2_connect_stuck calibrate' r' k cam Hon Hin' Hc) as (e' & cams2 & -> & _).
      now exists e'.
  - unfold Ned2.configure, Ned2.sdk, Ned2.logged. run_method. cbn.
    rewrite <- app_assoc. reflexivity.
  - reflexivity.
Qed.

Lemma ned2_disconnect_run (r : Robot) :
  Ned2.is_connected r = true ->
  Ned2.disconnect r =
    (inr tt,
     Ned2.mkNed2Follower (Ned2.config r) None
       (prod_map id Calls.disconnected <$> Ned2.cameras r)
       (Ned2.sdk_log r ++ [Ned2.close_connection])).
Proof.
  intros Hon. pose proof (is_connected_cameras r Hon) as Hall.
  unfold Ned2.disconnect. run_method. rewrite Hon. cbn [negb].
  destruct r as [cfg rb cams log]. unfold Ned2.is_connected in Hon.
  cbn [Ned2.config Ned2.cameras Ned2.sdk_log Ned2.robot] in *.
  destruct rb as [h|]; [|discriminate].
  unfold Ned2.sdk, Ned2.on_cameras. run_method.
  cbn [Ned2.config Ned2.cameras Ned2.sdk_log Ned2.robot Ned2.set_robot Ned2.set_cameras].
  rewrite (each_camera_disconnect_all cams Hall). reflexivity.
Qed.


Lemma forallb_logged (cams : Cameras) (calls : list OakD.DaiCall) :
  forallb (fun kc => OakD.is_connected (snd kc))
    (prod_map id (fun c => OakD.logged c calls) <$> cams) =
  forallb (fun kc => OakD.is_connected (snd kc)) cams.
Proof.
  induction cams as [|[k c] cams IH]; [reflexivity|]. cbn. now rewrite <- IH.
Qed.

(** X15. A whole session on an arm without a bound on relative moves:
    [connect], [get_observation], [send_action] and [disconnect] in turn
    all return normally when the cameras are connectable and the robot
    reports six joints.  Pyniryo sees the opening of the robot, the
    calibration and configuration calls, one query of the joints, one
    motion command and the closing of the connection, in this order, and
    nothing else; the arm ends not connected, with the cameras it had, none
    of them connected.  (Nothing is said of what the reader threads of the
    cameras do meanwhile.) *)
Theorem ned2_session (calibrate : bool) (r : Robot) (action : gmap string V)
    (a1 a2 a3 a4 a5 a6 : V) (rest : list V) :
  Ned2.is_connected r = false ->
  Forall ArmCalls.connectable (Ned2.cameras r) ->
  Ned2.Config.max_relative_target (Ned2.config r) = None ->
  Ned2.sdk_joints
    ((Ned2.sdk_log r ++ ArmCalls.open_robot calibrate r ++ ArmCalls.configure_calls)
       ++ [Ned2.joints]) = a1 :: a2 :: a3 :: a4 :: a5 :: a6 :: rest ->
  exists r1 obs r2 res r3 r4,
    Ned2.connect calibrate r = (inr tt, r1) /\
    Ned2.get_observation r1 = (inr obs, r2) /\
    Ned2.send_action action r2 = (inr res, r3) /\
    Ned2.disconnect r3 = (inr tt, r4) /\
    Ned2.robot r4 = None /\ Ned2.is_connected r4 = false /\
    Ned2.sdk_log r4 =
      Ned2.sdk_log r ++ ArmCalls.open_robot calibrate r ++ ArmCalls.configure_calls
        ++ [Ned2.joints; Ned2.move_joints_of (Ned2.goal_of_action action);
            Ned2.close_connection] /\
    (Ned2.cameras r4).*1 = (Ned2.cameras r).*1 /\
    Forall (fun kc => OakD.is_connected (snd kc) = false) (Ned2.cameras r4).
Proof.
  intros Hnc Hall Hmax Hj.
  set (r1 := Ned2.mkNed2Follower (Ned2.config r) (Some OakD.Handle)
               (prod_map id (Calls.connected true) <$> Ned2.cameras r)
               (Ned2.sdk_log r ++ ArmCalls.open_robot calibrate r
                  ++ ArmCalls.configure_calls)).
  assert (H1 : Ned2.connect calibrate r = (inr tt, r1)) by now apply ned2_connect_run.
  assert (Hon1 : Ned2.is_connected r1 = true).
  { unfold Ned2.is_connected, r1. cbn [Ned2.robot Ned2.cameras]. apply forallb_connected. }
  assert (Hw1 : Forall (fun kc => OakD.wired (snd kc)) (Ned2.cameras r1)).
  { unfold r1. cbn [Ned2.cameras]. apply Forall_fmap, Forall_forall. intros [k c] _.
    apply connected_is_connected. }
  pose proof (get_observation_run r1 a1 a2 a3 a4 a5 a6 rest Hon1 Hw1 Hj) as H2.
  match type of H2 with _ = (inr ?o, ?x) => set (obs := o) in *; set (r2 := x) in * end.
  assert (Hon2 : Ned2.is_connected r2 = true).
  { unfold Ned2.is_connected, r2. cbn [Ned2.robot Ned2.cameras]. unfold r1 at 1.
    cbn [Ned2.robot]. rewrite forallb_logged. unfold r1. cbn [Ned2.cameras].
    apply forallb_connected. }
  pose proof (send_action_unlimited action r2 Hon2 Hmax) as H3.
  match type of H3 with _ = (inr ?o, ?x) => set (res := o) in *; set (r3 := x) in * end.
  assert (Hon3 : Ned2.is_connected r3 = true) by exact Hon2.
  pose proof (ned2_disconnect_run r3 Hon3) as H4.
  match type of H4 with _ = (inr _, ?x) => set (r4 := x) in * end.
  exists r1, obs, r2, res, r3, r4.
  split; [exact H1|]. split; [exact H2|]. split; [exact H3|]. split; [exact H4|].
  split; [reflexivity|]. split; [reflexivity|]. split; [|split].
  - unfold r4, r3, r2, r1. cbn [Ned2.sdk_log Ned2.logged]. rewrite <- !app_assoc. reflexivity.
  - unfold r4, r3, r2, r1. cbn [Ned2.cameras Ned2.logged].
    rewrite !fst_prod_map_id. reflexivity.
  - unfold r4. cbn [Ned2.cameras]. apply forall_disconnected.
Qed.

End ArmLifecycle.


(** [connect] on the fresh arm of the rig. *)
Lemma ned2_connect_success_witness :
  exists r',
    Ned2.connect true Sim.robot_off = (inr tt, r') /\
    Ned2.is_connected r' = true /\
    Ned2.sdk_log r' =
      Ned2.sdk_log Sim.robot_off ++
        [Ned2.NiryoRobot "192.168.8.143";
         Ned2.set_learning_mode true; Ned2.set_learning_mode false].
Proof.
  assert (Hall : Forall ArmCalls.connectable (Ned2.cameras Sim.robot_off)).
  { apply Forall_cons_2; [|apply Forall_nil_2].
    split; [reflexivity|]. split; [|reflexivity]. repeat split; eexists; reflexivity. }
  destruct (ned2_connect_success (niryo := Sim.pyniryo) true true Sim.robot_off
              eq_refl Hall) as (r' & H1 & H2 & _ & _ & _ & _ & _ & H8 & _).
  exists r'. split; [exact H1|]. split; [exact H2|]. exact (H8 eq_refl).
Defined.

(** [connect] on an arm whose camera is already connected. *)
Lemma ned2_connect_no_rollback_witness :
  exists e r',
    Ned2.connect true Rig.robot_stuck = (inl e, r') /\
    Ned2.robot r' = Some OakD.Handle /\
    forall calibrate', exists e', fst (Ned2.connect calibrate' r') = inl e'.
Proof.
  destruct (ned2_connect_no_rollback (niryo := Sim.pyniryo) true Rig.robot_stuck
              "top" Sim.camera_on eq_refl (or_introl eq_refl) eq_refl)
    as (e & r' & H1 & H2 & _ & _ & H5 & _).
  exists e, r'. split; [exact H1|]. split; [exact H2|exact H5].
Defined.


(** A session on the arm of the rig. *)
Lemma ned2_session_witness :
  let action : gmap string Z := {[ "joint_1.pos" := 7 ]} in
  exists r1 obs r2 res r3 r4,
    Ned2.connect true Sim.robot_off = (inr tt, r1) /\
    Ned2.get_observation r1 = (inr obs, r2) /\
    Ned2.send_action action r2 = (inr res, r3) /\
    Ned2.disconnect r3 = (inr tt, r4) /\
    Ned2.is_connected r4 = false.
Proof.
  intros action.
  assert (Hall : Forall ArmCalls.connectable (Ned2.cameras Sim.robot_off)).
  { apply Forall_cons_2; [|apply Forall_nil_2].
    split; [reflexivity|]. split; [|reflexivity]. repeat split; eexists; reflexivity. }
  destruct (ned2_session (niryo := Sim.pyniryo) true Sim.robot_off action
              10 20 30 40 50 60 [] eq_refl Hall eq_refl eq_refl)
    as (r1 & obs & r2 & res & r3 & r4 & H1 & H2 & H3 & H4 & _ & H6 & _).
  exists r1, obs, r2, res, r3, r4. repeat (split; [assumption|]). exact H6.
Defined.

(* ===================================================================== *)
(** ** The arm: observations and actions                                 *)
(* ===================================================================== *)

Section ArmUse.
Context {V MaxRel Frame : Type}.
Context {niryo : Ned2.PyNiryo V} {jv : Ned2.JointValue V}
        {dai : OakD.DepthAI Frame} {host : Ned2.Host V MaxRel Frame}.

Local Abbreviation Robot := (Ned2.Ned2Follower V MaxRel Frame).

Lemma present_pos_short (l : list V) :
  (length l < 6)%nat -> Ned2.present_pos_of l = inl IndexError.
Proof.
  intros Hl.
  destruct l as [|a1 [|a2 [|a3 [|a4 [|a5 [|a6 l]]]]]]; try reflexivity.
  cbn in Hl. lia.
Qed.

(** X16. When the robot reports fewer than six joints, [get_observation]
    raises [IndexError] after the query of the joints and reads no camera;
    [send_action] with a bound on relative moves raises [IndexError] as
    well and commands no motion; without a bound [send_action] does not
    look at the joints and commands the motion. *)
Theorem too_few_joints_raise_index_error (r : Robot) (action : gmap string V) :
  Ned2.is_connected r = true ->
  (length (Ned2.sdk_joints (Ned2.sdk_log r ++ [Ned2.joints])) < 6)%nat ->
  Ned2.get_observation r = (inl IndexError, Ned2.logged r [Ned2.joints]) /\
  (forall bound : MaxRel,
     Ned2.Config.max_relative_target (Ned2.config r) = Some bound ->
     Ned2.send_action action r = (inl IndexError, Ned2.logged r [Ned2.joints])) /\
  (Ned2.Config.max_relative_target (Ned2.config r) = None ->
   Ned2.send_action action r =
     (inr (Ned2.with_pos_suffix (Ned2.goal_of_action action)),
      Ned2.logged r [Ned2.move_joints_of (Ned2.goal_of_action action)])).
Proof.
  intros Hon Hl. split; [|split].
  - unfold Ned2.get_observation, Ned2.query_joints, Ned2.sdk. run_method.
    rewrite Hon. cbn [negb Ned2.sdk_log].
    destruct (Ned2.sdk_joints (Ned2.sdk_log r ++ [Ned2.joints]))
      as [|a1 [|a2 [|a3 [|a4 [|a5 [|a6 l]]]]]]; try reflexivity.
    cbn in Hl. lia.
  - intros bound Hb. rewrite (send_action_limited action r bound Hon Hb).
    now rewrite present_pos_short.
  - intros Hb. now apply send_action_unlimited.
Qed.

Lemma goal_of_action_ext (action1 action2 : gmap string V) :
  (forall k : string, PyStr.endswith k PyStr.dot_pos = true ->
     action1 !! k = action2 !! k) ->
  Ned2.goal_of_action action1 = Ned2.goal_of_action action2.
Proof.
  intros H. apply map_eq. intros m. rewrite !goal_lookup.
  apply H, PyStrFacts.endswith_app.
Qed.

(** X17. [send_action] reads nothing of an action but the entries whose
    key ends with [".pos"]: two actions that agree on those keys leave the
    arm in the same state, with the same vendor calls made, and either
    return the same dictionary or raise the same exception, but for the
    key that a [KeyError] names, which follows the order of the action. *)
Theorem send_action_reads_pos_keys_only (action1 action2 : gmap string V)
    (r : Robot) :
  (forall k : string, PyStr.endswith k PyStr.dot_pos = true ->
     action1 !! k = action2 !! k) ->
  ArmCalls.same_outcome (fst (Ned2.send_action action1 r))
                        (fst (Ned2.send_action action2 r)) /\
  snd (Ned2.send_action action1 r) = snd (Ned2.send_action action2 r).
Proof.
  intros H.
  assert (E : Ned2.send_action action1 r = Ned2.send_action action2 r).
  { unfold Ned2.send_action. now rewrite (goal_of_action_ext _ _ H). }
  rewrite E. split; [|reflexivity].
  unfold ArmCalls.same_outcome.
  destruct (fst (Ned2.send_action action2 r)) as [[]|]; auto.
Qed.

Lemma goal_of_with_pos_suffix (goal : gmap string V) :
  Ned2.goal_of_action (Ned2.with_pos_suffix goal) = goal.
Proof.
  apply map_eq. intros m. now rewrite goal_lookup, with_pos_suffix_lookup.
Qed.

(** X18. Without a bound on relative moves the dictionary [send_action]
    returns is a fixed point: sent again as an action it commands the same
    motion and is returned unchanged. *)
Theorem send_action_echo_fixed_point (action : gmap string V) (r : Robot) :
  Ned2.is_connected r = true ->
  Ned2.Config.max_relative_target (Ned2.config r) = None ->
  exists (res : gmap string V) (call : Ned2.NiryoCall V),
    Ned2.send_action action r = (inr res, Ned2.logged r [call]) /\
    Ned2.send_action res (Ned2.logged r [call]) =
      (inr res, Ned2.logged r [call; call]) /\
    Ned2.goal_of_action res = Ned2.goal_of_action action.
Proof.
  intros Hon Hmax. eexists _, _. split; [now apply send_action_unlimited|].
  split; [|apply goal_of_with_pos_suffix].
  rewrite send_action_unlimited by assumption.
  rewrite goal_of_with_pos_suffix. unfold Ned2.logged. cbn.
  rewrite <- app_assoc. reflexivity.
Qed.

Lemma union_Some_any {A} (x : A) (o : option A) : Some x ∪ o = Some x.
Proof. now destruct o. Qed.

Lemma union_None_any {A} (o : option A) : None ∪ o = o.
Proof. now destruct o. Qed.

Lemma motor_features_kind (a1 a2 a3 a4 a5 a6 : V) (k : string) :
  match Ned2._motors_ft !! k with
  | Some Ned2.float_type =>
      exists v, Ned2.angles (Frame := Frame) [a1; a2; a3; a4; a5; a6] !! k
                = Some (Ned2.Angle v)
  | Some (Ned2.shape _ _ _) => False
  | None => Ned2.angles (Frame := Frame) [a1; a2; a3; a4; a5; a6] !! k = None
  end.
Proof.
  destruct (decide (k ∈ Ned2.motor_keys)) as [Hin|Hnot].
  - unfold Ned2.motor_keys in Hin. set_unfold.
    destruct Hin as [->|[->|[->|[->|[->|[->|[]]]]]]]; eexists; reflexivity.
  - assert (H1 : Ned2._motors_ft !! k = None).
    { rewrite motors_ft_spec. apply not_elem_of_list_to_map_1.
      rewrite <- list_fmap_compose. cbn. exact Hnot. }
    rewrite H1. unfold Ned2.angles. apply not_elem_of_list_to_map_1. exact Hnot.
Qed.

(** X19. What [get_observation] returns is what [observation_features]
    declares: on a connected follower with one camera object per
    configured camera the two dictionaries have the same keys, a key
    declared with the type [float] holds a joint angle, and a key declared
    with an image shape holds a camera frame. *)
Theorem observation_matches_features (r : Robot) (a1 a2 a3 a4 a5 a6 : V)
    (rest : list V) :
  Ned2.is_connected r = true ->
  NoDup (Ned2.cameras r).*1 ->
  Forall (fun kc => OakD.wired (snd kc)) (Ned2.cameras r) ->
  Ned2.sdk_joints (Ned2.sdk_log r ++ [Ned2.joints]) = a1 :: a2 :: a3 :: a4 :: a5 :: a6 :: rest ->
  (Ned2.cameras r).*1 = (Ned2.Config.cameras (Ned2.config r)).*1 ->
  exists (obs : gmap string (Ned2.obs_value V Frame)) (ft : gmap string Ned2.feature),
    fst (Ned2.get_observation r) = inr obs /\
    Ned2.observation_features r = inr ft /\
    dom obs =@{gset string} dom ft /\
    forall k : string,
      match ft !! k with
      | Some Ned2.float_type => exists v, obs !! k = Some (Ned2.Angle v)
      | Some (Ned2.shape _ _ _) => exists f, obs !! k = Some (Ned2.Image f)
      | None => obs !! k = None
      end.
Proof.
  intros Hc Hnd Hw Hj Hkeys.
  set (frames := prod_map id OakD.next_frame <$> Ned2.cameras r).
  set (cfgs := Ned2.Config.cameras (Ned2.config r)) in *.
  assert (Hfst : frames.*1 = cfgs.*1) by (rewrite <- Hkeys; apply fst_prod_map_id).
  assert (Hndf : NoDup frames.*1) by now rewrite Hfst, <- Hkeys.
  exists ((Ned2.Image <$> (list_to_map frames : gmap string Frame))
            ∪ Ned2.angles [a1; a2; a3; a4; a5; a6]),
         ((Ned2.shape_of <$> (list_to_map cfgs : gmap string OakD.OakDCameraConfig))
            ∪ Ned2._motors_ft).
  split; [|split; [|split]].
  - rewrite (get_observation_run r a1 a2 a3 a4 a5 a6 rest Hc Hw Hj). cbn [fst].
    fold frames. now rewrite (store_images_union frames _ Hndf).
  - unfold Ned2.observation_features. rewrite (cameras_ft_spec r Hkeys).
    now rewrite unpack2_union.
  - rewrite !dom_union_L, !dom_fmap_L, !dom_list_to_map_L, Hfst.
    f_equal.
  - intros k. rewrite !lookup_union, !lookup_fmap.
    destruct ((list_to_map cfgs : gmap string OakD.OakDCameraConfig) !! k)
      as [cfg|] eqn:Ecfg.
    + assert (Hin : k ∈ frames.*1).
      { rewrite Hfst. apply (elem_of_list_to_set (C := gset string)).
        rewrite <- dom_list_to_map_L. apply elem_of_dom. now exists cfg. }
      assert (Hf : is_Some ((list_to_map frames : gmap string Frame) !! k)).
      { apply elem_of_dom. rewrite dom_list_to_map_L.
        now apply elem_of_list_to_set. }
      destruct Hf as [f ->]. cbn [fmap option_fmap option_map].
      rewrite !union_Some_any. unfold Ned2.shape_of. now exists f.
    + assert (Hf : (list_to_map frames : gmap string Frame) !! k = None).
      { apply not_elem_of_dom. rewrite dom_list_to_map_L, Hfst,
          <- dom_list_to_map_L. now apply not_elem_of_dom. }
      rewrite Hf. cbn [fmap option_fmap option_map]. rewrite !union_None_any.
      pose proof (motor_features_kind a1 a2 a3 a4 a5 a6 k) as Hk.
      destruct (Ned2._motors_ft !! k) as [[|h w c]|]; [exact Hk|destruct Hk|exact Hk].
Qed.

Lemma declared_keys_only_joints (action : gmap string V) (r : Robot) :
  dom action ⊆@{gset string} dom (Ned2.action_features r) ->
  Ned2.only_joint_keys action.
Proof.
  intros Hsub m v Hm.
  assert (Hin : m +:+ PyStr.dot_pos ∈ dom (Ned2.action_features r)).
  { apply Hsub, elem_of_dom. now exists v. }
  unfold Ned2.action_features in Hin. rewrite motors_ft_spec, dom_list_to_map_L in Hin.
  apply elem_of_list_to_set in Hin. rewrite <- list_fmap_compose in Hin.
  cbn in Hin. set_unfold.
  destruct Hin as [H|[H|[H|[H|[H|[H|[]]]]]]];
    [change "joint_1.pos" with ("joint_1" +:+ PyStr.dot_pos) in H
    |change "joint_2.pos" with ("joint_2" +:+ PyStr.dot_pos) in H
    |change "joint_3.pos" with ("joint_3" +:+ PyStr.dot_pos) in H
    |change "joint_4.pos" with ("joint_4" +:+ PyStr.dot_pos) in H
    |change "joint_5.pos" with ("joint_5" +:+ PyStr.dot_pos) in H
    |change "joint_6.pos" with ("joint_6" +:+ PyStr.dot_pos) in H];
    apply PyStrFacts.app_inj_l in H; subst m; cbn; tauto.
Qed.

(** X20. An action that holds no key beyond those [action_features]
    declares is accepted when relative moves are bounded: with six joints
    reported, [send_action] pairs every goal with the present position of
    its joint and hands the pairs to the clamping helper, so that it
    raises nothing but what the helper raises, and commands the motion the
    helper returns. *)
Theorem declared_action_accepted (action : gmap string V) (r : Robot)
    (bound : MaxRel) (a1 a2 a3 a4 a5 a6 : V) (rest : list V) :
  Ned2.is_connected r = true ->
  dom action ⊆@{gset string} dom (Ned2.action_features r) ->
  Ned2.Config.max_relative_target (Ned2.config r) = Some bound ->
  Ned2.sdk_joints (Ned2.sdk_log r ++ [Ned2.joints]) = a1 :: a2 :: a3 :: a4 :: a5 :: a6 :: rest ->
  exists gpp : gmap string (V * V),
    (forall m : string, gpp !! m =
       match action !! (m +:+ PyStr.dot_pos), Ned2.present_six a1 a2 a3 a4 a5 a6 !! m with
       | Some g, Some p => Some (g, p)
       | _, _ => None
       end) /\
    (forall m : string, is_Some (gpp !! m) <-> is_Some (action !! (m +:+ PyStr.dot_pos))) /\
    Ned2.send_action action r =
      match Ned2.ensure_safe_goal_position gpp bound with
      | inl e => (inl e, Ned2.logged r [Ned2.joints])
      | inr safe =>
          (inr (Ned2.with_pos_suffix safe),
           Ned2.logged r [Ned2.joints; Ned2.move_joints_of safe])
      end.
Proof.
  intros Hon Hsub Hb Hj.
  pose proof (declared_keys_only_joints action r Hsub) as Hkeys.
  destruct (pairing_succeeds action a1 a2 a3 a4 a5 a6 Hkeys) as (gpp & Hg & Hl).
  exists gpp. split; [exact Hl|]. split.
  - intros m. rewrite Hl. split.
    + destruct (action !! (m +:+ PyStr.dot_pos)); [eauto|intros [? ?]; discriminate].
    + intros [g Hg']. rewrite Hg'.
      destruct (proj2 (present_six_names a1 a2 a3 a4 a5 a6 m) (Hkeys m g Hg')) as [p ->].
      eauto.
  - rewrite (send_action_limited action r bound Hon Hb), Hj, present_pos_of_six, Hg.
    reflexivity.
Qed.

End ArmUse.


(** The connected arm of the rig with a robot that reports three joints. *)
Lemma too_few_joints_raise_index_error_witness :
  Ned2.get_observation (niryo := Rig.pyniryo_short) Sim.robot_on =
    (inl IndexError, Ned2.logged Sim.robot_on [Ned2.joints]).
Proof.
  assert (Hl : (length (Ned2.sdk_joints (PyNiryo := Rig.pyniryo_short)
                          (Ned2.sdk_log Sim.robot_on ++ [Ned2.joints])) < 6)%nat)
    by (cbn; lia).
  exact (proj1 (too_few_joints_raise_index_error (niryo := Rig.pyniryo_short)
                  Sim.robot_on ∅ eq_refl Hl)).
Defined.

(** An action and the same action with an entry under the key ["note"]. *)
Lemma send_action_reads_pos_keys_only_witness :
  let action1 : gmap string Z := {[ "joint_1.pos" := 7 ]} in
  let action2 : gmap string Z := <["note" := 1]> action1 in
  ArmCalls.same_outcome (fst (Ned2.send_action action1 Sim.robot_on))
                        (fst (Ned2.send_action action2 Sim.robot_on)) /\
  snd (Ned2.send_action action1 Sim.robot_on)
    = snd (Ned2.send_action action2 Sim.robot_on).
Proof.
  intros action1 action2.
  apply (send_action_reads_pos_keys_only (niryo := Sim.pyniryo)).
  intros k Hk. destruct (decide (k = "note")) as [->|Hne]; [discriminate Hk|].
  unfold action2. now rewrite lookup_insert_ne.
Defined.

(** The echo of an action on the arm of the rig, sent again. *)
Lemma send_action_echo_fixed_point_witness :
  let r := Sim.robot_on in
  let action : gmap string Z := <["joint_1.pos" := 12]> (<["gripper.pos" := 1]> ∅) in
  exists (res : gmap string Z) (call : Ned2.NiryoCall Z),
    Ned2.send_action action r = (inr res, Ned2.logged r [call]) /\
    Ned2.send_action res (Ned2.logged r [call]) = (inr res, Ned2.logged r [call; call]).
Proof.
  intros r action.
  destruct (send_action_echo_fixed_point (niryo := Sim.pyniryo) action r eq_refl eq_refl)
    as (res & call & H1 & H2 & _).
  exists res, call. split; [exact H1|exact H2].
Defined.

(** The observation and the declared features of the arm of the rig. *)
Lemma observation_matches_features_witness :
  let r := Sim.robot_on in
  exists (obs : gmap string (Ned2.obs_value Z nat)) (ft : gmap string Ned2.feature),
    fst (Ned2.get_observation r) = inr obs /\
    Ned2.observation_features r = inr ft /\
    dom obs =@{gset string} dom ft.
Proof.
  intros r.
  assert (Hnd : NoDup (Ned2.cameras r).*1).
  { apply NoDup_cons_2; [apply not_elem_of_nil|apply NoDup_nil_2]. }
  assert (Hw : Forall (fun kc => OakD.wired (snd kc)) (Ned2.cameras r)).
  { apply Forall_cons_2; [|apply Forall_nil_2]. intros _. eexists. reflexivity. }
  destruct (observation_matches_features (niryo := Sim.pyniryo) r 10 20 30 40 50 60 []
              eq_refl Hnd Hw eq_refl eq_refl) as (obs & ft & H1 & H2 & H3 & _).
  exists obs, ft. split; [exact H1|]. split; [exact H2|exact H3].
Defined.

(** A declared action on the arm of the rig that bounds relative moves. *)
Lemma declared_action_accepted_witness :
  let r := Sim.robot_limited in
  let action : gmap string Z := {[ "joint_1.pos" := 100 ]} in
  exists gpp : gmap string (Z * Z),
    Ned2.send_action action r =
      match Ned2.ensure_safe_goal_position gpp 5 with
      | inl e => (inl e, Ned2.logged r [Ned2.joints])
      | inr safe =>
          (inr (Ned2.with_pos_suffix safe),
           Ned2.logged r [Ned2.joints; Ned2.move_joints_of safe])
      end.
Proof.
  intros r action.
  assert (Hsub : dom action ⊆@{gset string} dom (Ned2.action_features r)).
  { apply (bool_decide_unpack _). vm_compute. reflexivity. }
  destruct (declared_action_accepted (niryo := Sim.pyniryo) action r 5
              10 20 30 40 50 60 [] eq_refl Hsub eq_refl eq_refl) as (gpp & _ & _ & H).
  exists gpp. exact H.
Defined.
